(** * Qss4-sniffer: a dual UART sniffer, verified against its specification

    Two firmware variants are embedded:
    - [Mega] (src/mega.ino): two dedicated hardware receivers, Serial2 and
      Serial3, on an AVR board ([int] is 16 bits wide);
    - [Esp] (the ESP8266 sketch): two software receivers that share one
      receive resource, time-sliced by [switchListener].

    The sketches are embedded shallowly: fixed-width integers are [Z] with
    the wrap-around written out, the channel buffer is a list updated by
    index, [millis()] is a clock reading handed to every function that reads
    the clock, and the text written to the USB serial port is a [string]. *)

From Stdlib Require Import ZArith Lia Bool Ascii String DecimalString.
From stdpp Require Import base numbers list strings.

Local Open Scope Z_scope.

(** ** Machine integers *)

Definition wrap8 (x : Z) : Z := x mod 256.
Definition wrap16 (x : Z) : Z := x mod 65536.
Definition wrap32 (x : Z) : Z := x mod 4294967296.

(** The cast [(int16_t) x] of an unsigned 16-bit value. *)
Definition to_int16 (x : Z) : Z :=
  let y := wrap16 x in if y <? 32768 then y else y - 65536.

(** [(uint32_t)(a - b)]: the elapsed time between two [millis()] readings. *)
Definition sub32 (a b : Z) : Z := wrap32 (a - b).

Definition is_u8 (x : Z) : Prop := 0 <= x < 256.
Definition is_u32 (x : Z) : Prop := 0 <= x < 4294967296.

Global Instance is_u8_dec x : Decision (is_u8 x).
Proof. unfold is_u8. apply _. Defined.

Global Instance is_u32_dec x : Decision (is_u32 x).
Proof. unfold is_u32. apply _. Defined.

(** ** Configuration constants shared by both sketches *)

Definition FRAME_GAP_MS : Z := 25.
Definition BUFLEN : Z := 128.

(** ** Channel state *)

Record ChanState := mkChan {
  buf : list Z;          (* uint8_t buf[BUFLEN] *)
  pos : Z;               (* uint16_t *)
  overflow : bool;
  lastByteMs : Z         (* uint32_t *)
}.

(** [ch.buf[i]]; the sketches never index at or beyond [BUFLEN]. *)
Definition buf_at (ch : ChanState) (i : Z) : Z :=
  default 0 (buf ch !! Z.to_nat i).

(** The bytes a frame of this channel consists of: [buf[0 .. pos-1]]. *)
Definition frame_bytes (ch : ChanState) : list Z :=
  take (Z.to_nat (pos ch)) (buf ch).

(** The representation invariant of a channel: the array has [BUFLEN]
    cells of type [uint8_t], and the fields fit their C types. *)
Record chan_ok (ch : ChanState) : Prop := {
  ok_len : Z.of_nat (length (buf ch)) = BUFLEN;
  ok_bytes : Forall is_u8 (buf ch);
  ok_pos : 0 <= pos ch <= BUFLEN;
  ok_time : is_u32 (lastByteMs ch)
}.

Definition bufClear (ch : ChanState) : ChanState :=
  {| buf := buf ch; pos := 0; overflow := false; lastByteMs := lastByteMs ch |}.

(** [bufAdd(ch, b)]; [now] is the value [millis()] returns in it. *)
Definition bufAdd (ch : ChanState) (b : Z) (now : Z) : ChanState :=
  if pos ch <? BUFLEN then
    {| buf := <[Z.to_nat (pos ch) := b]> (buf ch);
       pos := wrap16 (pos ch + 1);
       overflow := overflow ch;
       lastByteMs := now |}
  else
    {| buf := buf ch; pos := pos ch; overflow := true; lastByteMs := now |}.

(** A channel as the global constructor leaves it. *)
Definition chan_init : ChanState :=
  {| buf := replicate (Z.to_nat BUFLEN) 0; pos := 0; overflow := false;
     lastByteMs := 0 |}.

(** ** Text written to the USB serial port *)

Definition CRLF : string := String "013" (String "010" "").

(** [Serial.print(n)] of an unsigned integer: decimal digits. *)
Definition print_dec (n : Z) : string :=
  NilZero.string_of_uint (N.to_uint (Z.to_N n)).

Definition hex_digit (d : Z) : ascii :=
  if d <? 10 then ascii_of_N (Z.to_N (48 + d))
  else ascii_of_N (Z.to_N (55 + d)).

(** [Serial.print(b, HEX)] of a byte: upper-case, no leading zero. *)
Definition print_hex (b : Z) : string :=
  if b <? 16 then String (hex_digit b) ""
  else String (hex_digit (b / 16)) (String (hex_digit (b mod 16)) "").

Definition printHex2 (b : Z) : string :=
  (if b <? 16 then "0" else "") +:+ print_hex b.

(** ** The Arduino [String] operations the command parser uses

    [trim], [toUpperCase], [toLowerCase], [startsWith], [substring(from)]
    and [length] are written out. [toInt] wraps the C library's [atol],
    which is not part of the sketches: it is an operation of the class
    below, and every result about the parsers holds for any instance. *)

Fixpoint ltrim (s : string) : string :=
  match s with
  | String c r => if Ascii.is_space c then ltrim r else s
  | EmptyString => EmptyString
  end.

Definition trim (s : string) : string :=
  String.rev (ltrim (String.rev (ltrim s))).

Definition upper_char (c : ascii) : ascii :=
  let n := nat_of_ascii c in
  if (97 <=? n)%nat && (n <=? 122)%nat then ascii_of_nat (n - 32) else c.

Definition lower_char (c : ascii) : ascii :=
  let n := nat_of_ascii c in
  if (65 <=? n)%nat && (n <=? 90)%nat then ascii_of_nat (n + 32) else c.

Fixpoint map_string (f : ascii -> ascii) (s : string) : string :=
  match s with
  | String c r => String (f c) (map_string f r)
  | EmptyString => EmptyString
  end.

Definition toUpperCase : string -> string := map_string upper_char.
Definition toLowerCase : string -> string := map_string lower_char.

Definition startsWith (s p : string) : bool := String.prefix p s.

(** [s.substring(from)]: the rest of [s] from index [from]. *)
Fixpoint substring_from (from : nat) (s : string) : string :=
  match from, s with
  | O, _ => s
  | S n, String _ r => substring_from n r
  | S _, EmptyString => EmptyString
  end.

Class StringToInt := toInt : string -> Z.

(** A decimal reading of [toInt] for the examples: optional blanks, an
    optional sign, then digits up to the first other character; 0 when
    there is no digit. *)
Fixpoint atol_digits (s : string) (acc : Z) : Z :=
  match s with
  | String c r =>
      match Ascii.is_nat c with
      | Some d => atol_digits r (10 * acc + Z.of_nat d)
      | None => acc
      end
  | EmptyString => acc
  end.

Definition atol_model (s : string) : Z :=
  match ltrim s with
  | String "-" r => - atol_digits r 0
  | String "+" r => atol_digits r 0
  | r => atol_digits r 0
  end.

(** A double quote, and a word between double quotes. *)
Definition dquote : ascii := "034"%char.
Definition quoted (s : string) : string :=
  String dquote (s +:+ String dquote EmptyString).

(** [tag[0]] of a C string: the terminating NUL when the string is empty. *)
Definition tag0 (tag : string) : ascii :=
  match tag with String c _ => c | EmptyString => "000"%char end.

(** * The dedicated-receiver sketch (src/mega.ino) *)

Module Mega.

(** ** The known-packet scanner *)

Definition START_MOTOR : Z := 67.  (* 0x43 *)
Definition LEN_MOTOR : Z := 9.
Definition START_LCD : Z := 89.    (* 0x59 *)
Definition LEN_LCD : Z := 7.

Definition chk8_add (bval cval : Z) : Z := Z.land (bval + cval) 255.

(** The inner loop of [findPacket]:
    [for (uint8_t ii = 0; ii < (len - 1); ii++) chk = chk8_add(buf[i + ii], chk);]
    [None] means the fuel ran out before the loop condition failed. *)
Fixpoint chk_loop (fuel : nat) (ch : ChanState) (i len ii chk : Z) : option Z :=
  match fuel with
  | O => None
  | S fuel' =>
      if ii <? len - 1 then
        chk_loop fuel' ch i len (wrap8 (ii + 1))
                 (chk8_add (buf_at ch (wrap16 (i + ii))) chk)
      else Some chk
  end.

(** The outer loop: [for (uint16_t i = 0; i + len <= ch.pos; i++)]. *)
Fixpoint find_loop (fuel : nat) (ch : ChanState) (start len i : Z) : option Z :=
  match fuel with
  | O => None
  | S fuel' =>
      if wrap16 (i + len) <=? pos ch then
        if buf_at ch i =? start then
          match chk_loop 256 ch i len 0 0 with
          | None => None
          | Some chk =>
              if chk =? buf_at ch (wrap16 (i + len - 1)) then Some (to_int16 i)
              else find_loop fuel' ch start len (wrap16 (i + 1))
          end
        else find_loop fuel' ch start len (wrap16 (i + 1))
      else Some (-1)
  end.

(** [findPacket(ch, start, len)]: the offset of the first packet, or -1.
    The fuel covers every offset below [pos] and the failing loop test. *)
Definition findPacket (ch : ChanState) (start len : Z) : option Z :=
  if (len <? 2) || (pos ch <? len) then Some (-1)
  else find_loop (S (Z.to_nat (pos ch))) ch start len 0.

(** ** Printing a frame and the known packets in it *)

(** The loop of [printBufferFrame]; [n] iterations remain, the counter is [i]:
    [for (uint16_t i = 0; i < ch.pos; i++)]. *)
Fixpoint dump_loop (n : nat) (ch : ChanState) (i : Z) : string :=
  match n with
  | O => ""
  | S n' =>
      printHex2 (buf_at ch i) +:+ " " +:+
      (if wrap16 (i + 1) mod 16 =? 0 then CRLF else "") +:+
      dump_loop n' ch (wrap16 (i + 1))
  end.

Definition printBufferFrame (tag : string) (ch : ChanState) : string :=
  tag +:+ " frame (" +:+ print_dec (pos ch) +:+ " bytes" +:+
  (if overflow ch then ", OVERFLOW" else "") +:+ "):" +:+ CRLF +:+
  dump_loop (Z.to_nat (pos ch)) ch 0 +:+ CRLF.

(** [for (uint8_t i = 0; i < LEN; i++) { printHex2(ch.buf[p + i]); print(' '); }] *)
Fixpoint known_loop (n : nat) (ch : ChanState) (p i : Z) : string :=
  match n with
  | O => ""
  | S n' =>
      printHex2 (buf_at ch (p + i)) +:+ " " +:+ known_loop n' ch p (wrap8 (i + 1))
  end.

Definition printKnownPacketsIfAny (tag : string) (ch : ChanState)
  : option string :=
  outM ← (if Ascii.eqb (tag0 tag) "M" then
            p ← findPacket ch START_MOTOR LEN_MOTOR;
            Some (if 0 <=? p then
                    "KNOWN Motor packet @" +:+ print_dec p +:+ ": " +:+
                    known_loop (Z.to_nat LEN_MOTOR) ch p 0 +:+ CRLF
                  else "")
          else Some "");
  outL ← (if Ascii.eqb (tag0 tag) "L" then
            p ← findPacket ch START_LCD LEN_LCD;
            Some (if 0 <=? p then
                    "KNOWN LCD packet @" +:+ print_dec p +:+ ": " +:+
                    known_loop (Z.to_nat LEN_LCD) ch p 0 +:+ CRLF
                  else "")
          else Some "");
  Some (outM +:+ outL).

(** ** Silence-gap segmentation *)

(** [maybeFlushOnGap(ch, tag)]; [now] is the [millis()] reading. The result
    is the channel afterwards and the text printed. *)
Definition maybeFlushOnGap (ch : ChanState) (tag : string) (now : Z)
  : option (ChanState * string) :=
  if pos ch =? 0 then Some (ch, "")
  else if FRAME_GAP_MS <=? sub32 now (lastByteMs ch) then
    known ← printKnownPacketsIfAny tag ch;
    Some (bufClear ch, printBufferFrame tag ch +:+ known)
  else Some (ch, "").

(** ** The whole sketch: globals, commands, the polling loop *)

Record World := mkWorld {
  chM : ChanState;          (* Serial2 *)
  chL : ChanState;          (* Serial3 *)
  sniffBaud : Z;
  debugBytes : bool;
  uart2 : option Z;         (* rate Serial2 runs at; None when ended *)
  uart3 : option Z;
  cmdline : string;         (* static String line of pollPCCommands *)
  serial : string           (* everything printed to Serial so far *)
}.

Definition pcBaud : Z := 115200.

Definition set_chM (c : ChanState) (w : World) : World :=
  mkWorld c (chL w) (sniffBaud w) (debugBytes w) (uart2 w) (uart3 w)
          (cmdline w) (serial w).
Definition set_chL (c : ChanState) (w : World) : World :=
  mkWorld (chM w) c (sniffBaud w) (debugBytes w) (uart2 w) (uart3 w)
          (cmdline w) (serial w).
Definition set_sniffBaud (b : Z) (w : World) : World :=
  mkWorld (chM w) (chL w) b (debugBytes w) (uart2 w) (uart3 w)
          (cmdline w) (serial w).
Definition set_debugBytes (d : bool) (w : World) : World :=
  mkWorld (chM w) (chL w) (sniffBaud w) d (uart2 w) (uart3 w)
          (cmdline w) (serial w).
Definition set_uart2 (u : option Z) (w : World) : World :=
  mkWorld (chM w) (chL w) (sniffBaud w) (debugBytes w) u (uart3 w)
          (cmdline w) (serial w).
Definition set_uart3 (u : option Z) (w : World) : World :=
  mkWorld (chM w) (chL w) (sniffBaud w) (debugBytes w) (uart2 w) u
          (cmdline w) (serial w).
Definition set_cmdline (l : string) (w : World) : World :=
  mkWorld (chM w) (chL w) (sniffBaud w) (debugBytes w) (uart2 w) (uart3 w)
          l (serial w).
Definition print (s : string) (w : World) : World :=
  mkWorld (chM w) (chL w) (sniffBaud w) (debugBytes w) (uart2 w) (uart3 w)
          (cmdline w) (serial w +:+ s).
Definition println (s : string) (w : World) : World := print (s +:+ CRLF) w.

Definition applySniffBaud (newBaud : Z) (w : World) : World :=
  let w := set_sniffBaud newBaud w in
  let w := set_uart2 None w in            (* Serial2.end() *)
  let w := set_uart3 None w in            (* Serial3.end() *)
  (* delay(20) *)
  let w := set_uart2 (Some (sniffBaud w)) w in
  let w := set_uart3 (Some (sniffBaud w)) w in
  let w := print "OK Baud set to " w in
  println (print_dec (sniffBaud w)) w.

Definition setDebug (on : bool) (w : World) : World :=
  let w := set_debugBytes on w in
  let w := print "OK Debug bytes = " w in
  println (if debugBytes w then "true" else "false") w.

Definition handleCommandLine {TI : StringToInt} (line : string) (w : World)
  : World :=
  let line := trim line in
  if (String.length line =? 0)%nat then w else
  let u := toUpperCase line in
  if startsWith u "B=" then
    let num := trim (substring_from 2 line) in
    let b := toInt num in                       (* long *)
    if b <=? 0 then println "ERR Invalid baud. Example: B=9600" w
    else applySniffBaud (wrap32 b) w
  else if startsWith u "D=" then
    let val := toLowerCase (trim (substring_from 2 line)) in
    if String.eqb val "true" || String.eqb val (quoted "true") ||
       String.eqb val "1" || String.eqb val "on" then setDebug true w
    else if String.eqb val "false" || String.eqb val (quoted "false") ||
            String.eqb val "0" || String.eqb val "off" then setDebug false w
    else println "ERR Invalid D. Use D=true or D=false" w
  else
    let w := print "ERR Unknown command: " w in
    let w := println line w in
    println "Commands: B=9600 | D=true | D=false" w.

(** [pollPCCommands()]; [input] is what [Serial] has available. *)
Fixpoint pollPCCommands {TI : StringToInt} (input : list ascii) (w : World)
  : World :=
  match input with
  | [] => w
  | c :: rest =>
      if Ascii.eqb c "013" then pollPCCommands rest w
      else if Ascii.eqb c "010" then
        pollPCCommands rest (set_cmdline "" (handleCommandLine (cmdline w) w))
      else if (String.length (cmdline w) <? 64)%nat then
        pollPCCommands rest (set_cmdline (cmdline w +:+ String c "") w)
      else pollPCCommands rest w
  end.

(** The two channels, in place of the [ChanState &] a function receives. *)
Inductive Chan := ChM | ChL.

Definition get_ch (c : Chan) (w : World) : ChanState :=
  match c with ChM => chM w | ChL => chL w end.
Definition set_ch (c : Chan) (s : ChanState) (w : World) : World :=
  match c with ChM => set_chM s w | ChL => set_chL s w end.

(** [drainChannel(port, ch, tag)]; [rx] lists the bytes the port has
    available, each with the [millis()] reading of its [bufAdd]. *)
Fixpoint drainChannel (rx : list (Z * Z)) (c : Chan) (tag : string) (w : World)
  : World :=
  match rx with
  | [] => w
  | (b, now) :: rest =>
      let w := set_ch c (bufAdd (get_ch c w) b now) w in
      let w := if debugBytes w then
                 println (printHex2 b) (print " byte: " (print tag w))
               else w in
      drainChannel rest c tag w
  end.

Definition flushChannel (c : Chan) (tag : string) (now : Z) (w : World)
  : option World :=
  '(ch, out) ← maybeFlushOnGap (get_ch c w) tag now;
  Some (print out (set_ch c ch w)).

(** What one pass of [loop()] receives from outside. *)
Record CycleInput := mkCycle {
  in_pc : list ascii;       (* characters waiting on Serial *)
  in_rx2 : list (Z * Z);    (* bytes waiting on Serial2, with clock readings *)
  in_rx3 : list (Z * Z);    (* bytes waiting on Serial3, with clock readings *)
  now_flushM : Z;           (* millis() in maybeFlushOnGap(chM, ..) *)
  now_flushL : Z            (* millis() in maybeFlushOnGap(chL, ..) *)
}.

Definition loop {TI : StringToInt} (inp : CycleInput) (w : World)
  : option World :=
  let w := pollPCCommands (in_pc inp) w in
  let w := drainChannel (in_rx2 inp) ChM "M" w in
  let w := drainChannel (in_rx3 inp) ChL "L" w in
  w ← flushChannel ChM "M" (now_flushM inp) w;
  flushChannel ChL "L" (now_flushL inp) w.

(** The globals as their initialisers leave them, and [setup()]. *)
Definition boot : World :=
  mkWorld chan_init chan_init 9600 false None None "" "".

Definition setup (w : World) : World :=
  let w := set_uart2 (Some (sniffBaud w)) w in
  let w := set_uart3 (Some (sniffBaud w)) w in
  let w := set_chM (bufClear (chM w)) w in
  let w := set_chL (bufClear (chL w)) w in
  let w := println "=== Dual UART Sniffer (Mega) ===" w in
  let w := println (print_dec pcBaud) (print "PC Baud: " w) in
  let w := println (print_dec (sniffBaud w)) (print "Sniff Baud (Serial2/3): " w) in
  let w := println "Commands: B=9600 | D=true | D=false" w in
  println "Debug bytes default: false" w.


End Mega.

(** * The shared-receiver sketch (ESP8266, SoftwareSerial) *)

Module Esp.

Definition SWITCH_TIMEOUT_MS : Z := 50.
Definition PC_BAUD_DEFAULT : Z := 115200.

(** ** The two software receivers *)

(** The sketch's two [SoftwareSerial] objects. *)
Inductive Port := SoftM | SoftL.

Global Instance Port_eq_dec : EqDecision Port.
Proof. solve_decision. Defined.

Definition other (p : Port) : Port :=
  match p with SoftM => SoftL | SoftL => SoftM end.

(** Modelled from the spec: the SoftwareSerial library, which the sketch
    includes and which is not part of the repository. The sketch calls
    [begin], [end], [listen] and [isListening] on its two ports; [S] is
    whatever state the library keeps for the pair. *)
Class SoftwareSerial (S : Type) := {
  ss_begin : Port -> Z -> S -> S;
  ss_end : Port -> S -> S;
  ss_listen : Port -> S -> S;
  ss_isListening : Port -> S -> bool
}.

(** Modelled from the spec: the receive resource is shared, one port is
    receivable at a time ("which channel is currently active ... exactly one
    channel active at any instant", "only one can listen at a time" in the
    sketch). [listen] makes its port the active one and the other port
    inactive. Nothing is assumed of [begin] and [end]: what stopping and
    restarting a receiver does to the active port is the library's own. *)
Class SoftwareSerialLaws (S : Type) {SS : SoftwareSerial S} : Prop := {
  listen_self : forall p s, ss_isListening p (ss_listen p s) = true;
  listen_other : forall p q s, p <> q -> ss_isListening q (ss_listen p s) = false
}.

(** Modelled from the spec: the least state with these operations, the
    active port and the rate of each receiver ([None] while stopped). On
    this pair stopping and starting a receiver leaves the active port as it
    is. *)
Record SoftPair := mkPair {
  listener : Port;
  rateM : option Z;
  rateL : option Z
}.

Definition pair_begin (p : Port) (b : Z) (s : SoftPair) : SoftPair :=
  match p with
  | SoftM => mkPair (listener s) (Some b) (rateL s)
  | SoftL => mkPair (listener s) (rateM s) (Some b)
  end.

Definition pair_end (p : Port) (s : SoftPair) : SoftPair :=
  match p with
  | SoftM => mkPair (listener s) None (rateL s)
  | SoftL => mkPair (listener s) (rateM s) None
  end.

Definition pair_listen (p : Port) (s : SoftPair) : SoftPair :=
  mkPair p (rateM s) (rateL s).

Definition pair_isListening (p : Port) (s : SoftPair) : bool :=
  bool_decide (listener s = p).

Global Instance SoftPair_serial : SoftwareSerial SoftPair :=
  {| ss_begin := pair_begin; ss_end := pair_end;
     ss_listen := pair_listen; ss_isListening := pair_isListening |}.

(** ** Printing a frame *)

(** The loop of [printFrame]; [int] is 32 bits wide on this board, so
    [(i + 1) % 16] does not wrap. *)
Fixpoint dump_loop (n : nat) (ch : ChanState) (i : Z) : string :=
  match n with
  | O => ""
  | S n' =>
      printHex2 (buf_at ch i) +:+ " " +:+
      (if (i + 1) mod 16 =? 0 then CRLF else "") +:+
      dump_loop n' ch (wrap16 (i + 1))
  end.

(** [printFrame(tag, ch)]: the text printed, and the channel cleared. *)
Definition printFrame (tag : string) (ch : ChanState) : ChanState * string :=
  (bufClear ch,
   tag +:+ " frame (" +:+ print_dec (pos ch) +:+
   (if overflow ch then ", OVERFLOW" else "") +:+ "):" +:+ CRLF +:+
   dump_loop (Z.to_nat (pos ch)) ch 0 +:+ CRLF).

Definition checkFlush (ch : ChanState) (tag : string) (now : Z)
  : ChanState * string :=
  if pos ch =? 0 then (ch, "")
  else if FRAME_GAP_MS <=? sub32 now (lastByteMs ch) then printFrame tag ch
  else (ch, "").

(** ** The whole sketch *)

Section Sketch.
Context {S : Type} {SS : SoftwareSerial S} {TI : StringToInt}.

Record World := mkWorld {
  chM : ChanState;
  chL : ChanState;
  sniffBaud : Z;
  debugBytes : bool;
  lastSwitchMs : Z;
  soft : S;                 (* the state behind SoftM and SoftL *)
  cmdline : string;         (* static String line of pollPCCommands *)
  serial : string           (* everything printed to Serial so far *)
}.

Definition set_chM (c : ChanState) (w : World) : World :=
  mkWorld c (chL w) (sniffBaud w) (debugBytes w) (lastSwitchMs w) (soft w)
          (cmdline w) (serial w).
Definition set_chL (c : ChanState) (w : World) : World :=
  mkWorld (chM w) c (sniffBaud w) (debugBytes w) (lastSwitchMs w) (soft w)
          (cmdline w) (serial w).
Definition set_sniffBaud (b : Z) (w : World) : World :=
  mkWorld (chM w) (chL w) b (debugBytes w) (lastSwitchMs w) (soft w)
          (cmdline w) (serial w).
Definition set_debugBytes (d : bool) (w : World) : World :=
  mkWorld (chM w) (chL w) (sniffBaud w) d (lastSwitchMs w) (soft w)
          (cmdline w) (serial w).
Definition set_lastSwitchMs (t : Z) (w : World) : World :=
  mkWorld (chM w) (chL w) (sniffBaud w) (debugBytes w) t (soft w)
          (cmdline w) (serial w).
Definition set_soft (s : S) (w : World) : World :=
  mkWorld (chM w) (chL w) (sniffBaud w) (debugBytes w) (lastSwitchMs w) s
          (cmdline w) (serial w).
Definition set_cmdline (l : string) (w : World) : World :=
  mkWorld (chM w) (chL w) (sniffBaud w) (debugBytes w) (lastSwitchMs w) (soft w)
          l (serial w).
Definition print (s : string) (w : World) : World :=
  mkWorld (chM w) (chL w) (sniffBaud w) (debugBytes w) (lastSwitchMs w) (soft w)
          (cmdline w) (serial w +:+ s).
Definition println (s : string) (w : World) : World := print (s +:+ CRLF) w.

(** The port the sketch treats as active: it only ever asks [SoftM]. *)
Definition active (w : World) : Port :=
  if ss_isListening SoftM (soft w) then SoftM else SoftL.

Definition restartSoftSerial (w : World) : World :=
  let w := set_soft (ss_end SoftM (soft w)) w in
  let w := set_soft (ss_end SoftL (soft w)) w in
  (* delay(20) *)
  let w := set_soft (ss_begin SoftM (sniffBaud w) (soft w)) w in
  let w := set_soft (ss_begin SoftL (sniffBaud w) (soft w)) w in
  (* restore current listener *)
  if ss_isListening SoftM (soft w) then set_soft (ss_listen SoftM (soft w)) w
  else set_soft (ss_listen SoftL (soft w)) w.

Definition applySniffBaud (b : Z) (w : World) : World :=
  if b =? 0 then println "ERR Invalid baud. Example: B=9600" w
  else
    let w := set_sniffBaud b w in
    let w := restartSoftSerial w in
    let w := print "OK Baud = " w in
    println (print_dec (sniffBaud w)) w.

Definition setDebug (on : bool) (w : World) : World :=
  let w := set_debugBytes on w in
  let w := print "OK Debug bytes = " w in
  println (if debugBytes w then "true" else "false") w.

Definition handleCommandLine (line : string) (w : World) : World :=
  let line := trim line in
  if (String.length line =? 0)%nat then w else
  let u := toUpperCase line in
  if startsWith u "B=" then
    let num := trim (substring_from 2 line) in
    applySniffBaud (wrap32 (toInt num)) w        (* (uint32_t)num.toInt() *)
  else if startsWith u "D=" then
    let val := toLowerCase (trim (substring_from 2 line)) in
    if String.eqb val "true" || String.eqb val (quoted "true") ||
       String.eqb val "1" || String.eqb val "on" then setDebug true w
    else if String.eqb val "false" || String.eqb val (quoted "false") ||
            String.eqb val "0" || String.eqb val "off" then setDebug false w
    else println "ERR Use D=true or D=false" w
  else
    let w := println "ERR Unknown command." w in
    println "Commands: B=9600 | D=true | D=false" w.

Fixpoint pollPCCommands (input : list ascii) (w : World) : World :=
  match input with
  | [] => w
  | c :: rest =>
      if Ascii.eqb c "013" then pollPCCommands rest w
      else if Ascii.eqb c "010" then
        pollPCCommands rest (set_cmdline "" (handleCommandLine (cmdline w) w))
      else if (String.length (cmdline w) <? 64)%nat then
        pollPCCommands rest (set_cmdline (cmdline w +:+ String c "") w)
      else pollPCCommands rest w
  end.

Definition get_ch (p : Port) (w : World) : ChanState :=
  match p with SoftM => chM w | SoftL => chL w end.
Definition set_ch (p : Port) (s : ChanState) (w : World) : World :=
  match p with SoftM => set_chM s w | SoftL => set_chL s w end.

(** [drain(port, ch, tag)]; [rx] lists the bytes the port has available,
    each with the [millis()] reading of its [bufAdd]. *)
Fixpoint drain (rx : list (Z * Z)) (p : Port) (tag : string) (w : World)
  : World :=
  match rx with
  | [] => w
  | (b, now) :: rest =>
      let w := set_ch p (bufAdd (get_ch p w) b now) w in
      let w := if debugBytes w then
                 println (printHex2 b) (print " byte: " (print tag w))
               else w in
      drain rest p tag w
  end.

Definition flushChannel (p : Port) (tag : string) (now : Z) (w : World)
  : World :=
  let '(ch, out) := checkFlush (get_ch p w) tag now in
  print out (set_ch p ch w).

(** [switchListener()]; [now] is its [millis()] reading. *)
Definition switchListener (now : Z) (w : World) : World :=
  let w := if ss_isListening SoftM (soft w)
           then set_soft (ss_listen SoftL (soft w)) w
           else set_soft (ss_listen SoftM (soft w)) w in
  set_lastSwitchMs now w.

(** What one pass of [loop()] receives from outside. *)
Record CycleInput := mkCycle {
  in_pc : list ascii;       (* characters waiting on Serial *)
  in_rxM : list (Z * Z);    (* what SoftM has available, with clock readings *)
  in_rxL : list (Z * Z);    (* what SoftL has available, with clock readings *)
  now_flushM : Z;           (* millis() in checkFlush(chM, ..) *)
  now_flushL : Z;           (* millis() in checkFlush(chL, ..) *)
  now_check : Z;            (* millis() in the time-slice test *)
  now_switch : Z            (* millis() in switchListener() *)
}.

(** The first three steps of [loop()]: commands, drain, flush. *)
Definition loop_flush (inp : CycleInput) (w : World) : World :=
  let w := pollPCCommands (in_pc inp) w in
  let w := if ss_isListening SoftM (soft w)
           then drain (in_rxM inp) SoftM "M" w
           else drain (in_rxL inp) SoftL "L" w in
  let w := flushChannel SoftM "M" (now_flushM inp) w in
  flushChannel SoftL "L" (now_flushL inp) w.

(** The time-slice test that ends [loop()]. *)
Definition loop_switch (inp : CycleInput) (w : World) : World :=
  if SWITCH_TIMEOUT_MS <? sub32 (now_check inp) (lastSwitchMs w)
  then switchListener (now_switch inp) w
  else w.

Definition loop (inp : CycleInput) (w : World) : World :=
  loop_switch inp (loop_flush inp w).

(** The globals as their initialisers leave them, and [setup()]. *)
Definition boot (s0 : S) : World :=
  mkWorld chan_init chan_init 9600 false 0 s0 "" "".

Definition setup (now : Z) (w : World) : World :=
  (* Serial.begin(PC_BAUD_DEFAULT); delay(50); *)
  let w := set_soft (ss_begin SoftM (sniffBaud w) (soft w)) w in
  let w := set_soft (ss_begin SoftL (sniffBaud w) (soft w)) w in
  let w := set_soft (ss_listen SoftM (soft w)) w in
  let w := set_lastSwitchMs now w in
  let w := set_chM (bufClear (chM w)) w in
  let w := set_chL (bufClear (chL w)) w in
  let w := println "=== ESP8266MOD Dual Sniffer (timesliced) ===" w in
  let w := println (print_dec PC_BAUD_DEFAULT) (print "USB Serial Baud: " w) in
  let w := println (print_dec (sniffBaud w)) (print "Sniff Baud: " w) in
  let w := println "RX pins: Motor=D5(GPIO14), LCD=D6(GPIO12)" w in
  let w := println "Commands: B=9600 | D=true | D=false" w in
  println "Default debug: OFF" w.

End Sketch.

Global Arguments World : clear implicits.

End Esp.


(** * Specification-side definitions *)

(** *** What the specification asks of the scanner

    Stated on the frame bytes alone: a packet sits at offset [i] when the
    window [i .. i+L-1] lies inside the buffer, starts with the start byte
    and ends with the additive checksum of the [L-1] bytes before it. *)

Definition sumZ (l : list Z) : Z := foldr Z.add 0 l.

Definition window_sum (bytes : list Z) (i L : Z) : Z :=
  sumZ (take (Z.to_nat (L - 1)) (drop (Z.to_nat i) bytes)).

Definition is_packet (bytes : list Z) (start L i : Z) : Prop :=
  0 <= i /\ i + L <= Z.of_nat (length bytes) /\
  bytes !! Z.to_nat i = Some start /\
  bytes !! Z.to_nat (i + L - 1) = Some (window_sum bytes i L mod 256).


(** *** The known-packet report, one packet kind at a time

    [printKnownPacketsIfAny] runs the scan and prints this line, for the
    motor packet under a tag that starts with M and for the LCD packet
    under a tag that starts with L. *)

Definition known_line (name : string) (ch : ChanState) (start len : Z)
  : option string :=
  p ← Mega.findPacket ch start len;
  Some (if 0 <=? p then
          "KNOWN " +:+ name +:+ " packet @" +:+ print_dec p +:+ ": " +:+
          Mega.known_loop (Z.to_nat len) ch p 0 +:+ CRLF
        else "").

(** *** What the specification asks of a printed frame

    A header line, then every byte as two upper-case hex digits and a
    space, a line break after every 16th byte, and a closing line break.
    [unit_word] is the text between the byte count and the overflow mark. *)

Definition hex2 (b : Z) : string :=
  String (hex_digit (b / 16)) (String (hex_digit (b mod 16)) "").

Definition string_concat (l : list string) : string :=
  foldr String.append "" l.

(** One byte of the dump, at index [k] of the frame. *)
Definition dump_cell (k : Z) (b : Z) : string :=
  hex2 b +:+ " " +:+ (if (k + 1) mod 16 =? 0 then CRLF else "").

Definition dump_format (bytes : list Z) : string :=
  string_concat (imap (fun k b => dump_cell (Z.of_nat k) b) bytes).

Definition frame_format (unit_word tag : string) (bytes : list Z) (ov : bool)
  : string :=
  tag +:+ " frame (" +:+ print_dec (Z.of_nat (length bytes)) +:+ unit_word +:+
  (if ov then ", OVERFLOW" else "") +:+ "):" +:+ CRLF +:+
  dump_format bytes +:+ CRLF.

(** ** One channel over time

    What a channel sees is a sequence of byte arrivals ([bufAdd]) and of
    gap-flush checks, each at a time in milliseconds since start-up;
    [millis()] shows that time modulo 2^32. A flush function returns the
    channel afterwards and the text it printed. *)

Inductive chan_event :=
  | Arrive (b : Z) (t : Z)
  | Poll (t : Z).

Definition flush_fn := ChanState -> Z -> option (ChanState * string).

Definition mega_flush (tag : string) : flush_fn :=
  fun ch now => Mega.maybeFlushOnGap ch tag now.

Definition esp_flush (tag : string) : flush_fn :=
  fun ch now => Some (Esp.checkFlush ch tag now).

Definition chan_step (flush : flush_fn) (ev : chan_event) (ch : ChanState)
  : option (ChanState * string) :=
  match ev with
  | Arrive b t => Some (bufAdd ch b (wrap32 t), "")
  | Poll t => flush ch (wrap32 t)
  end.

(** The channel after the events, and what each event printed. *)
Fixpoint run_chan (flush : flush_fn) (evs : list chan_event) (ch : ChanState)
  : option (ChanState * list string) :=
  match evs with
  | [] => Some (ch, [])
  | ev :: rest =>
      '(ch1, out) ← chan_step flush ev ch;
      '(ch2, outs) ← run_chan flush rest ch1;
      Some (ch2, out :: outs)
  end.

Fixpoint arrivals (evs : list chan_event) : list Z :=
  match evs with
  | [] => []
  | Arrive b _ :: rest => b :: arrivals rest
  | Poll _ :: rest => arrivals rest
  end.

(** The time of the last arrival among the events, [last] if there is none. *)
Fixpoint last_arrival (last : option Z) (evs : list chan_event) : option Z :=
  match evs with
  | [] => last
  | Arrive _ t :: rest => last_arrival (Some t) rest
  | Poll _ :: rest => last_arrival last rest
  end.

(** A burst: every event comes less than [FRAME_GAP_MS] after the latest
    arrival before it, and not before it. *)
Definition soon_after (last : option Z) (t : Z) : bool :=
  match last with
  | Some l => (l <=? t) && (t <? l + FRAME_GAP_MS)
  | None => 0 <=? t
  end.

Fixpoint burst (last : option Z) (evs : list chan_event) : bool :=
  match evs with
  | [] => true
  | Arrive _ t :: rest => soon_after last t && burst (Some t) rest
  | Poll t :: rest => soon_after last t && burst last rest
  end.

Definition is_poll (ev : chan_event) : bool :=
  match ev with Poll _ => true | Arrive _ _ => false end.

(** The channel after the arrivals among the events, checks left out. *)
Fixpoint deliver (ch : ChanState) (evs : list chan_event) : ChanState :=
  match evs with
  | [] => ch
  | Arrive b t :: rest => deliver (bufAdd ch b (wrap32 t)) rest
  | Poll _ :: rest => deliver ch rest
  end.

(** Nothing printed at any of these events. *)
Definition silent (evs : list chan_event) : list string :=
  (fun _ => "") <$> evs.

(** A channel whose frame is [bytes]. *)
Definition chan_of_bytes (bytes : list Z) (ov : bool) (last : Z) : ChanState :=
  {| buf := take (Z.to_nat BUFLEN) (bytes ++ replicate (Z.to_nat BUFLEN) 0);
     pos := Z.of_nat (length bytes); overflow := ov; lastByteMs := last |}.

(** ** The shared-receiver sketch over many cycles *)

Section EspRuns.
Context {S : Type} {SS : Esp.SoftwareSerial S} {TI : StringToInt}.

(** Does the time-slice test of this cycle succeed? *)
Definition switch_due (inp : Esp.CycleInput) (w : Esp.World S) : bool :=
  Esp.SWITCH_TIMEOUT_MS <?
  sub32 (Esp.now_check inp) (Esp.lastSwitchMs (Esp.loop_flush inp w)).

(** The ports the switches of a run select, in order. *)
Fixpoint switch_trace (inps : list Esp.CycleInput) (w : Esp.World S)
  : list Esp.Port :=
  match inps with
  | [] => []
  | inp :: rest =>
      (if switch_due inp w then [Esp.active (Esp.loop inp w)] else []) ++
      switch_trace rest (Esp.loop inp w)
  end.

(** The states between cycles, from [setup()] on. *)
Inductive reachable : Esp.World S -> Prop :=
  | reach_setup s0 now : reachable (Esp.setup now (Esp.boot s0))
  | reach_loop inp w : reachable w -> reachable (Esp.loop inp w).

(** Exactly one of the two ports is listening. *)
Definition one_listener (s : S) : Prop :=
  Esp.ss_isListening Esp.SoftL s = negb (Esp.ss_isListening Esp.SoftM s).

(** The arbiter is in [w'] as it is in [w]: the same time of the last
    switch, and each port listening or not as before. *)
Definition arbiter_kept (w w' : Esp.World S) : Prop :=
  Esp.lastSwitchMs w' = Esp.lastSwitchMs w /\
  forall q, Esp.ss_isListening q (Esp.soft w') =
            Esp.ss_isListening q (Esp.soft w).

End EspRuns.

(** Each element of the list is the other port than the one before it. *)
Fixpoint alternates (prev : Esp.Port) (l : list Esp.Port) : Prop :=
  match l with
  | [] => True
  | p :: rest => p = Esp.other prev /\ alternates p rest
  end.


(** * Reading the printed text back

    What a tool that reads the serial stream does with a byte dump: split
    the text at blanks and line breaks, and read every word as two hex
    digits. *)

Definition hex_val (c : ascii) : option Z :=
  let n := Z.of_nat (nat_of_ascii c) in
  if (48 <=? n) && (n <=? 57) then Some (n - 48)
  else if (65 <=? n) && (n <=? 70) then Some (n - 55)
  else None.

Definition parse_hex2 (s : string) : option Z :=
  match s with
  | String a (String b EmptyString) =>
      hi ← hex_val a; lo ← hex_val b; Some (16 * hi + lo)
  | _ => None
  end.

Definition parse_dump (text : string) : list (option Z) :=
  parse_hex2 <$> String.words text.

(** The header line of a printed frame; [unit_word] as in [frame_format]. *)
Definition frame_header (unit_word tag : string) (n : Z) (ov : bool) : string :=
  tag +:+ " frame (" +:+ print_dec n +:+ unit_word +:+
  (if ov then ", OVERFLOW" else "") +:+ "):" +:+ CRLF.

(** The bytes of a window as the known-packet line shows them. *)
Definition hex_cells (bytes : list Z) : string :=
  string_concat ((fun b => hex2 b +:+ " ") <$> bytes).

(** The window of [len] bytes at offset [p] of a frame. *)
Definition window (bytes : list Z) (p len : Z) : list Z :=
  take (Z.to_nat len) (drop (Z.to_nat p) bytes).

(** ** Command input *)

(** A line of blanks only. *)
Fixpoint all_space (s : string) : bool :=
  match s with
  | String c r => Ascii.is_space c && all_space r
  | EmptyString => true
  end.

(** The first [n] characters of a string. *)
Fixpoint str_take (n : nat) (s : string) : string :=
  match n, s with
  | S n', String c r => String c (str_take n' r)
  | _, _ => EmptyString
  end.

(** Characters other than carriage return and line feed. *)
Definition no_line_end (chars : list ascii) : bool :=
  forallb (fun c => negb (Ascii.eqb c "013") && negb (Ascii.eqb c "010")) chars.

(** ** Draining a receiver *)

(** All bytes a receiver has available, added in turn. *)
Definition add_all (ch : ChanState) (rx : list (Z * Z)) : ChanState :=
  foldl (fun c bt => bufAdd c bt.1 bt.2) ch rx.

(** The debug echo of those bytes: one line per byte. *)
Definition debug_echo (tag : string) (rx : list (Z * Z)) : string :=
  string_concat
    ((fun bt => tag +:+ " byte: " +:+ printHex2 bt.1 +:+ CRLF) <$> rx).

(** Bytes are [uint8_t] and clock readings [uint32_t]. *)
Definition rx_ok (rx : list (Z * Z)) : Prop :=
  Forall (fun bt => is_u8 bt.1 /\ is_u32 bt.2) rx.

(** ** The state of a sketch between cycles *)

(** The dedicated-receiver sketch: both channels well-formed, the line
    buffer within its 64 characters, both receivers at the sniff rate. *)
Record mega_ok (w : Mega.World) : Prop := {
  mok_chM : chan_ok (Mega.chM w);
  mok_chL : chan_ok (Mega.chL w);
  mok_line : (String.length (Mega.cmdline w) <= 64)%nat;
  mok_uart2 : Mega.uart2 w = Some (Mega.sniffBaud w);
  mok_uart3 : Mega.uart3 w = Some (Mega.sniffBaud w)
}.

(** What a cycle of the dedicated-receiver sketch reads: bytes and clock
    readings of their C types. *)
Record mega_cycle_ok (inp : Mega.CycleInput) : Prop := {
  cok_rx2 : rx_ok (Mega.in_rx2 inp);
  cok_rx3 : rx_ok (Mega.in_rx3 inp);
  cok_nowM : is_u32 (Mega.now_flushM inp);
  cok_nowL : is_u32 (Mega.now_flushL inp)
}.

(** The shared-receiver sketch: both channels well-formed and the line
    buffer within its 64 characters. *)
Record esp_ok {S : Type} (w : Esp.World S) : Prop := {
  eok_chM : chan_ok (Esp.chM w);
  eok_chL : chan_ok (Esp.chL w);
  eok_line : (String.length (Esp.cmdline w) <= 64)%nat
}.

Record esp_cycle_ok (inp : Esp.CycleInput) : Prop := {
  ecok_rxM : rx_ok (Esp.in_rxM inp);
  ecok_rxL : rx_ok (Esp.in_rxL inp)
}.

(** The same cycle with other bytes waiting on one of the two ports. *)
Definition with_rxM (rx : list (Z * Z)) (inp : Esp.CycleInput) : Esp.CycleInput :=
  Esp.mkCycle (Esp.in_pc inp) rx (Esp.in_rxL inp) (Esp.now_flushM inp)
              (Esp.now_flushL inp) (Esp.now_check inp) (Esp.now_switch inp).

Definition with_rxL (rx : list (Z * Z)) (inp : Esp.CycleInput) : Esp.CycleInput :=
  Esp.mkCycle (Esp.in_pc inp) (Esp.in_rxM inp) rx (Esp.now_flushM inp)
              (Esp.now_flushL inp) (Esp.now_check inp) (Esp.now_switch inp).

(** ** The shared receivers across a change of rate *)

Section Restarted.
Context {S : Type} {SS : Esp.SoftwareSerial S}.

(** The port the sketch takes as active on library state [s]: it asks
    [SoftM] only. *)
Definition listening (s : S) : Esp.Port :=
  if Esp.ss_isListening Esp.SoftM s then Esp.SoftM else Esp.SoftL.

(** What [restartSoftSerial] asks of the library, in the order of its
    calls: both receivers stopped, then both started at rate [b]; and then
    [listen] on the port it finds listening. *)
Definition receivers_restarted (b : Z) (s : S) : S :=
  Esp.ss_begin Esp.SoftL b
    (Esp.ss_begin Esp.SoftM b (Esp.ss_end Esp.SoftL (Esp.ss_end Esp.SoftM s))).

Definition listener_restored (s : S) : S := Esp.ss_listen (listening s) s.

End Restarted.

(** Modelled from the spec: a second pair of receivers, the one for which
    4.5 of the specification asks for the active channel to be restored
    after a restart: starting a receiver makes it the active one (the
    [begin()] of the Arduino SoftwareSerial ends in [listen()]). The state
    is that of [Esp.SoftPair]; [end], [listen] and [isListening] are the
    same. *)
Record StartPair := mkStart { start_pair : Esp.SoftPair }.

Global Instance StartPair_serial : Esp.SoftwareSerial StartPair :=
  {| Esp.ss_begin p b s :=
       mkStart (Esp.pair_listen p (Esp.pair_begin p b (start_pair s)));
     Esp.ss_end p s := mkStart (Esp.pair_end p (start_pair s));
     Esp.ss_listen p s := mkStart (Esp.pair_listen p (start_pair s));
     Esp.ss_isListening p s := Esp.pair_isListening p (start_pair s) |}.

(** ** Runs in which no command restarts the receivers *)

Section Steady.
Context {S : Type} {SS : Esp.SoftwareSerial S} {TI : StringToInt}.

(** In every cycle of the run the command step leaves the library state
    as it found it. *)
Fixpoint steady (inps : list Esp.CycleInput) (w : Esp.World S) : Prop :=
  match inps with
  | [] => True
  | inp :: rest =>
      Esp.soft (Esp.pollPCCommands (Esp.in_pc inp) w) = Esp.soft w /\
      steady rest (Esp.loop inp w)
  end.

End Steady.

(** * The shared-receiver loop on an explicit clock

    In [Esp] every step that calls [millis()] is handed the reading. Here
    the clock is explicit: [clk k] is what the [k]-th call of [millis()]
    since start-up returns, and every step takes the number of calls made
    so far and returns the new number, so that the order in which the steps
    of [loop()] read the clock shows. *)

Module EspClock.
Section Clocked.
Context {Lib : Type} {SS : Esp.SoftwareSerial Lib} {TI : StringToInt}.
Variable clk : nat -> Z.

(** [drain(port, ch, tag)]: one clock reading for each byte, in [bufAdd]. *)
Fixpoint drain (bytes : list Z) (p : Esp.Port) (tag : string)
    (w : Esp.World Lib) (n : nat) : Esp.World Lib * nat :=
  match bytes with
  | [] => (w, n)
  | b :: rest =>
      let w := Esp.set_ch p (bufAdd (Esp.get_ch p w) b (clk n)) w in
      let w := if Esp.debugBytes w then
                 Esp.println (printHex2 b)
                   (Esp.print " byte: " (Esp.print tag w))
               else w in
      drain rest p tag w (S n)
  end.

(** [checkFlush(ch, tag)]: no clock reading on an empty channel. *)
Definition checkFlush (ch : ChanState) (tag : string) (n : nat)
  : ChanState * string * nat :=
  if pos ch =? 0 then (ch, "", n)
  else if FRAME_GAP_MS <=? sub32 (clk n) (lastByteMs ch)
       then (Esp.printFrame tag ch, S n)
       else (ch, "", S n).

Definition flushChannel (p : Esp.Port) (tag : string) (w : Esp.World Lib)
    (n : nat) : Esp.World Lib * nat :=
  let '(ch, out, n') := checkFlush (Esp.get_ch p w) tag n in
  (Esp.print out (Esp.set_ch p ch w), n').

Definition switchListener (w : Esp.World Lib) (n : nat) : Esp.World Lib * nat :=
  let w := if Esp.ss_isListening Esp.SoftM (Esp.soft w)
           then Esp.set_soft (Esp.ss_listen Esp.SoftL (Esp.soft w)) w
           else Esp.set_soft (Esp.ss_listen Esp.SoftM (Esp.soft w)) w in
  (Esp.set_lastSwitchMs (clk n) w, S n).

(** [loop()]; [pc] is what [Serial] has available, [bytesM] and [bytesL]
    what the two ports have. *)
Definition loop (pc : list ascii) (bytesM bytesL : list Z) (w : Esp.World Lib)
    (n : nat) : Esp.World Lib * nat :=
  let w := Esp.pollPCCommands pc w in
  let '(w, n) := if Esp.ss_isListening Esp.SoftM (Esp.soft w)
                 then drain bytesM Esp.SoftM "M" w n
                 else drain bytesL Esp.SoftL "L" w n in
  let '(w, n) := flushChannel Esp.SoftM "M" w n in
  let '(w, n) := flushChannel Esp.SoftL "L" w n in
  if Esp.SWITCH_TIMEOUT_MS <? sub32 (clk n) (Esp.lastSwitchMs w)
  then switchListener w (S n)
  else (w, S n).

End Clocked.
End EspClock.

(** ** The clock readings of one cycle, by name *)

Section ClockCycle.
Context {Lib : Type} {SS : Esp.SoftwareSerial Lib} {TI : StringToInt}.

(** Bytes with the clock reading of each, the first being reading [n]. *)
Fixpoint stamp (clk : nat -> Z) (n : nat) (bytes : list Z) : list (Z * Z) :=
  match bytes with
  | [] => []
  | b :: rest => (b, clk n) :: stamp clk (S n) rest
  end.

(** The clock readings a gap-flush check of channel [ch] takes. *)
Definition reads (ch : ChanState) : nat := if pos ch =? 0 then 0 else 1.

(** The state of a cycle after its commands and its drain, the bytes of
    the port that is drained taking the readings from [n] on. *)
Definition clock_drained (clk : nat -> Z) (n : nat) (pc : list ascii)
    (bytesM bytesL : list Z) (w : Esp.World Lib) : Esp.World Lib :=
  let wp := Esp.pollPCCommands pc w in
  if Esp.ss_isListening Esp.SoftM (Esp.soft wp)
  then Esp.drain (stamp clk n bytesM) Esp.SoftM "M" wp
  else Esp.drain (stamp clk n bytesL) Esp.SoftL "L" wp.

(** The cycle of [Esp.loop] that the clock gives when [n] readings have
    been taken before it: the bytes of the port that is drained take the
    first readings, then come the two gap-flush checks, each with a reading
    unless its channel is empty, then the time-slice test, and last
    [switchListener]. *)
Definition clock_cycle (clk : nat -> Z) (n : nat) (pc : list ascii)
    (bytesM bytesL : list Z) (w : Esp.World Lib) : Esp.CycleInput :=
  let wp := Esp.pollPCCommands pc w in
  let onM := Esp.ss_isListening Esp.SoftM (Esp.soft wp) in
  let wd := clock_drained clk n pc bytesM bytesL w in
  let iM := (n + (if onM then length bytesM else length bytesL))%nat in
  let iL := (iM + reads (Esp.chM wd))%nat in
  let iC := (iL + reads (Esp.chL wd))%nat in
  Esp.mkCycle pc (stamp clk n bytesM) (stamp clk n bytesL)
              (clk iM) (clk iL) (clk iC) (clk (S iC)).

End ClockCycle.

(** * Example data *)

(** A frame with a junk byte and then two motor packets. *)
Definition two_packets : list Z :=
  [9; 67; 1; 2; 3; 4; 5; 6; 7; 95; 67; 1; 2; 3; 4; 5; 6; 7; 95].

(** The scanner example of the specification. *)
Definition c8_chk : Z := (1 + 2 + 3 + 4 + 5 + 6 + 67) mod 256.
Definition c8_buffer : list Z := [0; 67; 1; 2; 3; 4; 5; 6; c8_chk].

(** A channel holding the example frame, with stale bytes of an earlier,
    longer frame behind it. *)
Definition c8_chan : ChanState :=
  {| buf := take (Z.to_nat BUFLEN) (c8_buffer ++ replicate (Z.to_nat BUFLEN) 95);
     pos := 9; overflow := false; lastByteMs := 0 |}.

(** A burst of 129 bytes, one per millisecond: one more than the buffer holds. *)
Definition long_burst : list chan_event :=
  (fun i => Arrive (i mod 256) i) <$> seqZ 0 129.

(** The channel after that burst, and the bytes it kept. *)
Definition full_chan : ChanState := deliver chan_init long_burst.
Definition kept_bytes : list Z := take (Z.to_nat BUFLEN) (arrivals long_burst).

(** Three bytes two milliseconds apart, checked in between. *)
Definition short_burst : list chan_event :=
  [Poll 3; Arrive 67 10; Poll 11; Arrive 1 12; Arrive 2 14; Poll 20; Poll 38].

(** The dedicated-receiver sketch after [setup()], with two bytes of a
    frame waiting on the motor channel and its overflow flag set. *)
Definition mega_pending : Mega.World :=
  Mega.set_chM (chan_of_bytes [67; 1] true 0) (Mega.setup Mega.boot).

(** The shared-receiver sketch after [setup()] at time 0, on the pair of
    receivers above; the same with two bytes waiting on the motor channel;
    and the same after one switch, with [SoftL] active. *)
Definition esp_start : Esp.World Esp.SoftPair :=
  Esp.setup 0 (Esp.boot (Esp.mkPair Esp.SoftL None None)).

Definition esp_pending : Esp.World Esp.SoftPair :=
  Esp.set_chM (chan_of_bytes [67; 1] true 0) esp_start.

Definition esp_on_lcd : Esp.World Esp.SoftPair :=
  Esp.switchListener 60 esp_pending.

(** A cycle with nothing to read, every clock reading being [t]. *)
Definition quiet_cycle (t : Z) : Esp.CycleInput :=
  Esp.mkCycle [] [] [] t t t t.

(** A channel whose last byte came 10 ms before the clock rolls over, and
    the shared-receiver sketch with its last switch at that time. *)
Definition late_chan : ChanState := chan_of_bytes [67; 1] false 4294967286.

Definition esp_late : Esp.World Esp.SoftPair :=
  Esp.set_lastSwitchMs 4294967286 esp_start.

(** A command of 67 characters: a baud command, then blanks. *)
Definition long_command : list ascii :=
  list_ascii_of_string "B=19200" ++ replicate 60 " "%char.

(** A cycle of the dedicated-receiver sketch: a debug command, two bytes
    on the motor line and one on the display line. *)
Definition busy_cycle : Mega.CycleInput :=
  Mega.mkCycle (list_ascii_of_string "D=1" ++ ["010"%char])
               [(67, 5); (1, 6)] [(89, 7)] 40 41.

(** Two bytes of a frame arriving on the motor line, and the states of the
    two sketches one cycle after [setup()] in which they arrived and are
    not yet flushed. *)
Definition two_bytes : list (Z * Z) := [(67, 5); (1, 6)].

Definition mega_partial : Mega.World :=
  default Mega.boot
    (Mega.loop (TI:=atol_model) (Mega.mkCycle [] two_bytes [] 7 7)
               (Mega.setup Mega.boot)).

Definition esp_partial : Esp.World Esp.SoftPair :=
  Esp.loop (TI:=atol_model) (with_rxM two_bytes (quiet_cycle 7)) esp_start.

(** A cycle in which the command [B=19200] arrives, every clock reading
    being [t]. *)
Definition baud_cycle (t : Z) : Esp.CycleInput :=
  Esp.mkCycle (list_ascii_of_string "B=19200" ++ ["010"%char]) [] [] t t t t.

(** The shared-receiver sketch after [setup()] at time 0 on a pair of
    receivers whose [begin] listens. *)
Definition start_world : Esp.World StartPair :=
  Esp.setup 0 (Esp.boot (mkStart (Esp.mkPair Esp.SoftL None None))).

(** A clock that shows 40 ms at its first reading and 4 ms more at each
    further one. *)
Definition slow_clock (k : nat) : Z := 40 + 4 * Z.of_nat k.


(** * Proofs *)

(** ** Machine-integer facts *)

Lemma wrap8_small x : 0 <= x < 256 -> wrap8 x = x.
Proof. intros H. unfold wrap8. apply Z.mod_small. lia. Qed.

Lemma wrap16_small x : 0 <= x < 65536 -> wrap16 x = x.
Proof. intros H. unfold wrap16. apply Z.mod_small. lia. Qed.

Lemma wrap32_small x : 0 <= x < 4294967296 -> wrap32 x = x.
Proof. intros H. unfold wrap32. apply Z.mod_small. lia. Qed.

Lemma to_int16_small x : 0 <= x < 32768 -> to_int16 x = x.
Proof.
  intros H. unfold to_int16. rewrite wrap16_small by lia.
  destruct (Z.ltb_spec x 32768); lia.
Qed.

Lemma chk8_add_mod b c : Mega.chk8_add b c = (b + c) mod 256.
Proof. unfold Mega.chk8_add. change 255 with (Z.ones 8). by rewrite Z.land_ones. Qed.

(** ** Reading the buffer *)

Lemma frame_bytes_length ch :
  chan_ok ch -> Z.of_nat (length (frame_bytes ch)) = pos ch.
Proof.
  intros [Hl _ Hp _]. unfold frame_bytes. rewrite length_take. lia.
Qed.

Lemma frame_bytes_lookup ch i :
  0 <= i < pos ch ->
  frame_bytes ch !! Z.to_nat i = buf ch !! Z.to_nat i.
Proof. intros H. unfold frame_bytes. apply lookup_take_lt. lia. Qed.

Lemma buf_at_lookup ch i :
  chan_ok ch -> 0 <= i < pos ch ->
  frame_bytes ch !! Z.to_nat i = Some (buf_at ch i).
Proof.
  intros Hok H. rewrite frame_bytes_lookup by done. unfold buf_at.
  destruct (buf ch !! Z.to_nat i) eqn:E; [done|].
  apply lookup_ge_None in E. destruct Hok as [Hl _ Hp _]. lia.
Qed.

Lemma buf_at_u8 ch i : chan_ok ch -> is_u8 (buf_at ch i).
Proof.
  intros [_ Hb _ _]. unfold buf_at.
  destruct (buf ch !! Z.to_nat i) eqn:E; simpl; [|unfold is_u8; lia].
  eapply Forall_lookup_1; eauto.
Qed.

(** ** The scanner computes the additive checksum of a window *)

Lemma sumZ_u8_nonneg l : Forall is_u8 l -> 0 <= sumZ l.
Proof.
  induction 1 as [|x l Hx _ IH]; simpl; [lia|]. unfold is_u8 in Hx. lia.
Qed.

Lemma window_sum_step ch i n :
  chan_ok ch -> 0 <= i -> i + Z.of_nat (S n) <= pos ch ->
  sumZ (take (S n) (drop (Z.to_nat i) (frame_bytes ch))) =
  buf_at ch i + sumZ (take n (drop (Z.to_nat (i + 1)) (frame_bytes ch))).
Proof.
  intros Hok Hi Hn.
  pose proof (buf_at_lookup ch i Hok ltac:(lia)) as Hl.
  rewrite (drop_S _ _ _ Hl). simpl.
  by replace (S (Z.to_nat i)) with (Z.to_nat (i + 1)) by lia.
Qed.

Lemma chk_loop_sum ch i len : forall (n fuel : nat) (ii chk : Z),
  chan_ok ch -> 0 <= i -> i + len <= pos ch + 1 -> len < 256 ->
  0 <= ii -> ii + Z.of_nat n = len - 1 -> (n < fuel)%nat ->
  0 <= chk < 256 ->
  Mega.chk_loop fuel ch i len ii chk =
  Some ((chk + sumZ (take n (drop (Z.to_nat (i + ii)) (frame_bytes ch)))) mod 256).
Proof.
  induction n as [|n IH]; intros fuel ii chk Hok Hi Hlen H8 Hii Hn Hf Hc.
  - destruct fuel as [|fuel]; [lia|]. simpl.
    destruct (Z.ltb_spec ii (len - 1)); [lia|].
    rewrite Z.add_0_r, Z.mod_small by lia. done.
  - destruct fuel as [|fuel]; [lia|]. cbn [Mega.chk_loop].
    destruct (Z.ltb_spec ii (len - 1)); [|lia].
    pose proof (ok_pos _ Hok) as Hp. unfold BUFLEN in Hp.
    rewrite wrap8_small, wrap16_small by lia.
    rewrite IH; try done; try lia.
    + rewrite (window_sum_step ch (i + ii) n) by (done || lia).
      rewrite chk8_add_mod. f_equal.
      replace (i + (ii + 1)) with (i + ii + 1) by lia.
      rewrite Zplus_mod_idemp_l. f_equal. lia.
    + rewrite chk8_add_mod. apply Z.mod_pos_bound. lia.
Qed.

Lemma chk_loop_window ch i len :
  chan_ok ch -> 0 <= i -> 2 <= len < 256 -> i + len <= pos ch + 1 ->
  Mega.chk_loop 256 ch i len 0 0 =
  Some (window_sum (frame_bytes ch) i len mod 256).
Proof.
  intros Hok Hi Hl Hp.
  rewrite (chk_loop_sum ch i len (Z.to_nat (len - 1))); try done; try lia.
  unfold window_sum. by rewrite Z.add_0_r, Z.add_0_l.
Qed.

(** One window of the scan, as the loop body tests it. *)
Lemma is_packet_test ch start len i :
  chan_ok ch -> 0 <= i -> 2 <= len < 256 -> i + len <= pos ch ->
  is_packet (frame_bytes ch) start len i <->
  buf_at ch i = start /\
  window_sum (frame_bytes ch) i len mod 256 = buf_at ch (i + len - 1).
Proof.
  intros Hok Hi Hl Hp. unfold is_packet.
  rewrite (frame_bytes_length ch Hok).
  rewrite !buf_at_lookup by (done || lia).
  split.
  - intros (_ & _ & [= ->] & [= <-]). done.
  - intros [-> <-]. repeat split; (done || lia).
Qed.

Lemma find_loop_spec ch start len :
  chan_ok ch -> 2 <= len < 256 ->
  forall (fuel : nat) (i : Z),
    0 <= i -> i + len <= pos ch + 1 ->
    (Z.to_nat (pos ch + 1 - len - i) < fuel)%nat ->
    (forall j, 0 <= j < i -> ~ is_packet (frame_bytes ch) start len j) ->
    exists r, Mega.find_loop fuel ch start len i = Some r /\
      ((r = -1 /\ forall j, ~ is_packet (frame_bytes ch) start len j) \/
       (0 <= r /\ is_packet (frame_bytes ch) start len r /\
        forall j, 0 <= j < r -> ~ is_packet (frame_bytes ch) start len j)).
Proof.
  intros Hok Hl. pose proof (ok_pos _ Hok) as Hp. unfold BUFLEN in Hp.
  induction fuel as [|fuel IH]; intros i Hi Hb Hf Hprev; [lia|].
  cbn [Mega.find_loop]. rewrite wrap16_small by lia.
  destruct (Z.leb_spec (i + len) (pos ch)) as [Hin|Hout].
  - assert (Hnext : ~ is_packet (frame_bytes ch) start len i ->
              exists r, Mega.find_loop fuel ch start len (wrap16 (i + 1)) = Some r /\
                ((r = -1 /\ forall j, ~ is_packet (frame_bytes ch) start len j) \/
                 (0 <= r /\ is_packet (frame_bytes ch) start len r /\
                  forall j, 0 <= j < r -> ~ is_packet (frame_bytes ch) start len j))).
    { intros Hni. rewrite wrap16_small by lia. apply IH; try lia.
      intros j Hj. destruct (decide (j = i)) as [->|]; [done|]. apply Hprev. lia. }
    rewrite chk_loop_window by (done || lia).
    rewrite wrap16_small by lia.
    pose proof (is_packet_test ch start len i Hok Hi Hl Hin) as Htest.
    destruct (Z.eqb_spec (buf_at ch i) start) as [Hs|Hs].
    + destruct (Z.eqb_spec (window_sum (frame_bytes ch) i len mod 256)
                           (buf_at ch (i + len - 1))) as [Hc|Hc].
      * exists (to_int16 i). rewrite to_int16_small by lia.
        split; [done|]. right. split; [lia|]. split; [|done]. by apply Htest.
      * apply Hnext. rewrite Htest. tauto.
    + apply Hnext. rewrite Htest. tauto.
  - exists (-1). split; [done|]. left. split; [done|].
    intros j Hj. pose proof Hj as (Hj0 & Hjl & _).
    rewrite (frame_bytes_length ch Hok) in Hjl.
    apply (Hprev j); [lia|done].
Qed.

Lemma findPacket_spec ch start len :
  chan_ok ch -> 2 <= len < 256 ->
  exists r, Mega.findPacket ch start len = Some r /\
    ((r = -1 /\ forall i, ~ is_packet (frame_bytes ch) start len i) \/
     (0 <= r /\ is_packet (frame_bytes ch) start len r /\
      forall j, 0 <= j < r -> ~ is_packet (frame_bytes ch) start len j)).
Proof.
  intros Hok Hl. unfold Mega.findPacket.
  destruct (Z.ltb_spec len 2) as [|_]; [lia|]. cbn [orb].
  destruct (Z.ltb_spec (pos ch) len) as [Hshort|Hlong].
  - exists (-1). split; [done|]. left. split; [done|].
    intros i (Hi & Hil & _). rewrite (frame_bytes_length ch Hok) in Hil. lia.
  - apply find_loop_spec; try done; try lia.
Qed.

(** The scan result is a function of the frame bytes alone. *)
Lemma findPacket_ext ch ch' start len :
  chan_ok ch -> chan_ok ch' -> 2 <= len < 256 ->
  frame_bytes ch = frame_bytes ch' ->
  Mega.findPacket ch start len = Mega.findPacket ch' start len.
Proof.
  intros Hok Hok' Hl Hfb.
  destruct (findPacket_spec ch start len Hok Hl) as (r & -> & Hr).
  destruct (findPacket_spec ch' start len Hok' Hl) as (r' & -> & Hr').
  rewrite <- Hfb in Hr'. f_equal.
  destruct Hr as [[-> Hn]|(H0 & Hp & Hm)], Hr' as [[-> Hn']|(H0' & Hp' & Hm')];
    try done.
  - by destruct (Hn _ Hp').
  - by destruct (Hn' _ Hp).
  - destruct (Z.lt_trichotomy r r') as [Hlt|[->|Hgt]]; [|done|].
    + destruct (Hm' r); [lia|done].
    + destruct (Hm r'); [lia|done].
Qed.

Lemma chan_of_bytes_frame bytes ov last :
  Z.of_nat (length bytes) <= BUFLEN ->
  frame_bytes (chan_of_bytes bytes ov last) = bytes.
Proof.
  intros Hl. unfold frame_bytes, chan_of_bytes. cbn [buf pos].
  rewrite Nat2Z.id, take_take, Nat.min_l by lia.
  by rewrite take_app_length.
Qed.

Lemma chan_of_bytes_ok bytes ov last :
  Forall is_u8 bytes -> Z.of_nat (length bytes) <= BUFLEN -> is_u32 last ->
  chan_ok (chan_of_bytes bytes ov last).
Proof.
  intros Hb Hl Ht. split; cbn [chan_of_bytes buf pos lastByteMs]; [| |lia|done].
  - rewrite length_take, length_app, length_replicate. lia.
  - apply Forall_take, Forall_app. split; [done|].
    apply Forall_replicate. unfold is_u8. lia.
Qed.

(** ** C1: the scanner reports the first checksummed packet *)

(** C1. For every channel buffer and every start byte and packet length
    [L] with [2 <= L] (a [uint8_t]), [findPacket] returns; it returns the
    smallest offset at which a packet sits (start byte, then the additive
    checksum modulo 256 of the first [L-1] bytes in the last position, the
    window inside the buffer), and -1 when there is no such offset. *)
Theorem findPacket_first_match ch start len :
  chan_ok ch -> 2 <= len < 256 ->
  exists r, Mega.findPacket ch start len = Some r /\
    ((r = -1 /\ forall i, ~ is_packet (frame_bytes ch) start len i) \/
     (0 <= r /\ is_packet (frame_bytes ch) start len r /\
      forall j, 0 <= j < r -> ~ is_packet (frame_bytes ch) start len j)).
Proof. apply findPacket_spec. Qed.

Lemma two_packets_ok : chan_ok (chan_of_bytes two_packets false 0).
Proof.
  apply chan_of_bytes_ok.
  - by apply (bool_decide_unpack _).
  - vm_compute. discriminate.
  - unfold is_u32. lia.
Defined.

Lemma findPacket_first_match_witness :
  exists r, Mega.findPacket (chan_of_bytes two_packets false 0) 67 9 = Some r /\
    ((r = -1 /\ forall i,
        ~ is_packet (frame_bytes (chan_of_bytes two_packets false 0)) 67 9 i) \/
     (0 <= r /\
      is_packet (frame_bytes (chan_of_bytes two_packets false 0)) 67 9 r /\
      forall j, 0 <= j < r ->
        ~ is_packet (frame_bytes (chan_of_bytes two_packets false 0)) 67 9 j)).
Proof.
  apply (findPacket_first_match (chan_of_bytes two_packets false 0) 67 9).
  - exact two_packets_ok.
  - lia.
Defined.

Example findPacket_two_packets :
  Mega.findPacket (chan_of_bytes two_packets false 0) 67 9 = Some 1.
Proof. reflexivity. Qed.

(** ** C8: the specification's scanner example *)

Lemma c8_chan_ok : chan_ok c8_chan.
Proof.
  split; simpl.
  - reflexivity.
  - by apply (bool_decide_unpack _).
  - unfold BUFLEN. lia.
  - unfold is_u32. lia.
Defined.

(** C8, as stated, fails: on the nine-byte example buffer a scan for
    length 9 does not report offset 1, and only eight bytes start at index 1. *)
Lemma scan_example_counterexample :
  ~ (Mega.findPacket (chan_of_bytes c8_buffer false 0) 67 9 = Some 1 /\
     length (drop 1 c8_buffer) = 9%nat).
Proof. intros [H _]. vm_compute in H. discriminate. Qed.

(** C8, amended. On every channel whose frame is the example buffer, the
    scan for start 0x43 and length 9 reports no match: offset 0 holds 0x00,
    and a window of 9 bytes at offset 1 would end outside the 9-byte buffer.
    The packet the example describes is 8 bytes long (start byte, six data
    bytes, checksum): the scan for length 8 reports offset 1, and the 8
    bytes from index 1 are the packet. *)
Theorem scan_example ch :
  chan_ok ch -> frame_bytes ch = c8_buffer ->
  Mega.findPacket ch 67 9 = Some (-1) /\
  ~ is_packet (frame_bytes ch) 67 9 0 /\
  ~ is_packet (frame_bytes ch) 67 9 1 /\
  Mega.findPacket ch 67 8 = Some 1 /\
  take 8 (drop 1 (frame_bytes ch)) = [67; 1; 2; 3; 4; 5; 6; c8_chk].
Proof.
  intros Hok Hfb.
  assert (Hc : chan_ok (chan_of_bytes c8_buffer false 0)).
  { apply chan_of_bytes_ok; [by apply (bool_decide_unpack _)|done|done]. }
  assert (He : frame_bytes ch = frame_bytes (chan_of_bytes c8_buffer false 0)).
  { by rewrite chan_of_bytes_frame. }
  rewrite (findPacket_ext ch _ 67 9 Hok Hc ltac:(lia) He).
  rewrite (findPacket_ext ch _ 67 8 Hok Hc ltac:(lia) He).
  rewrite Hfb. repeat split; try reflexivity.
  - intros (_ & _ & H & _). vm_compute in H. discriminate.
  - intros (_ & H & _). vm_compute in H. by apply H.
Qed.

Lemma scan_example_witness :
  Mega.findPacket c8_chan 67 9 = Some (-1) /\
  ~ is_packet (frame_bytes c8_chan) 67 9 0 /\
  ~ is_packet (frame_bytes c8_chan) 67 9 1 /\
  Mega.findPacket c8_chan 67 8 = Some 1 /\
  take 8 (drop 1 (frame_bytes c8_chan)) = [67; 1; 2; 3; 4; 5; 6; c8_chk].
Proof. apply (scan_example c8_chan); [exact c8_chan_ok | reflexivity]. Defined.

(** ** Strings *)

Lemma string_app_assoc (a b c : string) : (a +:+ b) +:+ c = a +:+ (b +:+ c).
Proof.
  induction a as [|x a IH]; [done|].
  change (String x ((a +:+ b) +:+ c) = String x (a +:+ (b +:+ c))).
  by rewrite IH.
Qed.

Lemma string_app_nil_r (a : string) : a +:+ "" = a.
Proof.
  induction a as [|x a IH]; [done|].
  change (String x (a +:+ "") = String x a). by rewrite IH.
Qed.

Lemma printHex2_hex2 b : is_u8 b -> printHex2 b = hex2 b.
Proof.
  intros Hb. unfold is_u8 in Hb. unfold printHex2, print_hex, hex2.
  destruct (Z.ltb_spec b 16); [|done].
  rewrite Z.div_small, Z.mod_small by lia. reflexivity.
Qed.

(** ** C9: the printed frame *)

Lemma dump_format_from bytes (i : Z) :
  string_concat (imap (fun k b => dump_cell (Z.of_nat k + i) b) bytes) =
  match bytes with
  | [] => ""
  | b :: rest =>
      dump_cell i b +:+
      string_concat (imap (fun k b => dump_cell (Z.of_nat k + (i + 1)) b) rest)
  end.
Proof.
  destruct bytes as [|b rest]; [done|]. simpl. f_equal. f_equal.
  apply imap_ext. intros k x _. simpl. f_equal. lia.
Qed.

Lemma mega_dump_loop ch : forall (n : nat) (i : Z),
  chan_ok ch -> 0 <= i -> i + Z.of_nat n = pos ch ->
  Mega.dump_loop n ch i =
  string_concat (imap (fun k b => dump_cell (Z.of_nat k + i) b)
                      (drop (Z.to_nat i) (frame_bytes ch))).
Proof.
  induction n as [|n IH]; intros i Hok Hi Hn.
  - rewrite drop_ge; [done|].
    pose proof (frame_bytes_length ch Hok). lia.
  - pose proof (ok_pos _ Hok) as Hp. unfold BUFLEN in Hp.
    pose proof (buf_at_lookup ch i Hok ltac:(lia)) as Hl.
    rewrite dump_format_from, (drop_S _ _ _ Hl).
    cbn [Mega.dump_loop]. rewrite wrap16_small by lia.
    rewrite IH by (done || lia).
    replace (S (Z.to_nat i)) with (Z.to_nat (i + 1)) by lia.
    unfold dump_cell. rewrite printHex2_hex2 by (by apply buf_at_u8).
    by rewrite !string_app_assoc.
Qed.

Lemma esp_dump_loop ch : forall (n : nat) (i : Z),
  chan_ok ch -> 0 <= i -> i + Z.of_nat n = pos ch ->
  Esp.dump_loop n ch i =
  string_concat (imap (fun k b => dump_cell (Z.of_nat k + i) b)
                      (drop (Z.to_nat i) (frame_bytes ch))).
Proof.
  induction n as [|n IH]; intros i Hok Hi Hn.
  - rewrite drop_ge; [done|].
    pose proof (frame_bytes_length ch Hok). lia.
  - pose proof (ok_pos _ Hok) as Hp. unfold BUFLEN in Hp.
    pose proof (buf_at_lookup ch i Hok ltac:(lia)) as Hl.
    rewrite dump_format_from, (drop_S _ _ _ Hl).
    cbn [Esp.dump_loop]. rewrite wrap16_small by lia.
    rewrite IH by (done || lia).
    replace (S (Z.to_nat i)) with (Z.to_nat (i + 1)) by lia.
    unfold dump_cell. rewrite printHex2_hex2 by (by apply buf_at_u8).
    by rewrite !string_app_assoc.
Qed.

Lemma dump_format_cells bytes :
  dump_format bytes =
  string_concat (imap (fun k b => dump_cell (Z.of_nat k + 0) b) bytes).
Proof.
  unfold dump_format. f_equal. apply imap_ext. intros k b _.
  by rewrite Z.add_0_r.
Qed.

Lemma mega_printBufferFrame_format tag ch :
  chan_ok ch ->
  Mega.printBufferFrame tag ch =
  frame_format " bytes" tag (frame_bytes ch) (overflow ch).
Proof.
  intros Hok. unfold Mega.printBufferFrame, frame_format.
  rewrite (frame_bytes_length ch Hok), dump_format_cells.
  pose proof (ok_pos _ Hok).
  rewrite (mega_dump_loop ch _ 0) by (done || lia). done.
Qed.

Lemma esp_printFrame_format tag ch :
  chan_ok ch ->
  Esp.printFrame tag ch =
  (bufClear ch, frame_format "" tag (frame_bytes ch) (overflow ch)).
Proof.
  intros Hok. unfold Esp.printFrame, frame_format.
  rewrite (frame_bytes_length ch Hok), dump_format_cells.
  pose proof (ok_pos _ Hok).
  rewrite (esp_dump_loop ch _ 0) by (done || lia). done.
Qed.

(** C9, as stated, fails in the shared-receiver sketch: its header has no
    word [bytes]. *)
Lemma frame_text_counterexample :
  (Esp.printFrame "M" (chan_of_bytes [67; 1] false 0)).2 <>
  frame_format " bytes" "M" [67; 1] false.
Proof. vm_compute. discriminate. Qed.

(** C9, amended. A frame of [n] bytes with tag [TAG] is printed as the
    header line, then every byte as two upper-case hex digits and a space,
    a line break after every 16th byte, and a closing line break. In the
    dedicated-receiver sketch the header is [TAG frame (n bytes):], with
    [, OVERFLOW] before the closing parenthesis exactly when the overflow
    flag is set; in the shared-receiver sketch the header is the same
    without the word [bytes], and the dump is the same. *)
Theorem frame_text tag ch :
  chan_ok ch ->
  Mega.printBufferFrame tag ch =
    frame_format " bytes" tag (frame_bytes ch) (overflow ch) /\
  (Esp.printFrame tag ch).2 =
    frame_format "" tag (frame_bytes ch) (overflow ch).
Proof.
  intros Hok. split.
  - by apply mega_printBufferFrame_format.
  - by rewrite esp_printFrame_format.
Qed.

Lemma frame_text_witness :
  Mega.printBufferFrame "M" (chan_of_bytes two_packets true 0) =
    frame_format " bytes" "M"
      (frame_bytes (chan_of_bytes two_packets true 0)) true /\
  (Esp.printFrame "M" (chan_of_bytes two_packets true 0)).2 =
    frame_format "" "M" (frame_bytes (chan_of_bytes two_packets true 0)) true.
Proof.
  apply (frame_text "M" (chan_of_bytes two_packets true 0)).
  apply chan_of_bytes_ok.
  - by apply (bool_decide_unpack _).
  - vm_compute. discriminate.
  - unfold is_u32. lia.
Defined.

Example frame_format_17 :
  frame_format " bytes" "L" (seqZ 0 17) true =
  "L frame (17 bytes, OVERFLOW):" +:+ CRLF +:+
  "00 01 02 03 04 05 06 07 08 09 0A 0B 0C 0D 0E 0F " +:+ CRLF +:+
  "10 " +:+ CRLF.
Proof. reflexivity. Qed.

(** ** The frame accumulator *)

Lemma bufClear_ok ch : chan_ok ch -> chan_ok (bufClear ch).
Proof.
  intros [Hl Hb Hp Ht]. split; simpl; first [done | unfold BUFLEN; lia].
Qed.

Lemma bufAdd_ok ch b now :
  chan_ok ch -> is_u8 b -> is_u32 now -> chan_ok (bufAdd ch b now).
Proof.
  intros [Hl Hb Hp Ht] Hu8 Hu32. unfold bufAdd, BUFLEN in *.
  destruct (Z.ltb_spec (pos ch) 128); split; simpl.
  - by rewrite length_insert.
  - by apply Forall_insert.
  - unfold BUFLEN. rewrite wrap16_small; lia.
  - done.
  - done.
  - done.
  - unfold BUFLEN. lia.
  - done.
Qed.

Lemma bufAdd_lastByteMs ch b now : lastByteMs (bufAdd ch b now) = now.
Proof. unfold bufAdd. by destruct (pos ch <? BUFLEN). Qed.

Lemma bufAdd_room ch b now :
  chan_ok ch -> pos ch < BUFLEN ->
  pos (bufAdd ch b now) = pos ch + 1 /\
  frame_bytes (bufAdd ch b now) = frame_bytes ch ++ [b] /\
  overflow (bufAdd ch b now) = overflow ch.
Proof.
  intros [Hl Hb Hp Ht] Hroom. unfold bufAdd, frame_bytes, BUFLEN in *.
  destruct (Z.ltb_spec (pos ch) 128); [|lia]. simpl.
  rewrite wrap16_small by lia. split; [done|]. split; [|done].
  replace (Z.to_nat (pos ch + 1)) with (S (Z.to_nat (pos ch))) by lia.
  assert (Hlt : (Z.to_nat (pos ch) < length (buf ch))%nat) by lia.
  pose proof (list_lookup_insert_eq (buf ch) _ b Hlt) as Hi.
  rewrite (take_S_r _ _ _ Hi). f_equal.
  by rewrite take_insert_ge by lia.
Qed.

Lemma bufAdd_full ch b now :
  BUFLEN <= pos ch ->
  pos (bufAdd ch b now) = pos ch /\
  buf (bufAdd ch b now) = buf ch /\
  frame_bytes (bufAdd ch b now) = frame_bytes ch /\
  overflow (bufAdd ch b now) = true.
Proof.
  intros Hfull. unfold bufAdd, frame_bytes.
  destruct (Z.ltb_spec (pos ch) BUFLEN); [lia|]. done.
Qed.

Lemma bufAdd_overflow_sticky ch b now :
  overflow ch = true -> overflow (bufAdd ch b now) = true.
Proof. intros Ho. unfold bufAdd. by destruct (pos ch <? BUFLEN). Qed.

(** ** Elapsed time on the 32-bit millisecond clock *)

Lemma sub32_wrap t l :
  l <= t < l + 4294967296 -> sub32 (wrap32 t) (wrap32 l) = t - l.
Proof.
  intros H. unfold sub32, wrap32.
  rewrite <- Zminus_mod. apply Z.mod_small. lia.
Qed.

Lemma wrap32_u32 t : is_u32 (wrap32 t).
Proof. unfold is_u32, wrap32. apply Z.mod_pos_bound. lia. Qed.

(** ** A burst of arrivals, as the channel records it *)

Lemma deliver_ok ch evs :
  chan_ok ch -> Forall is_u8 (arrivals evs) -> chan_ok (deliver ch evs).
Proof.
  revert ch. induction evs as [|[b t|t] evs IH]; intros ch Hok Hb; simpl in *.
  - done.
  - inversion Hb; subst. apply IH; [|done].
    apply bufAdd_ok; [done|done|apply wrap32_u32].
  - by apply IH.
Qed.

Lemma deliver_frame ch evs :
  chan_ok ch -> Forall is_u8 (arrivals evs) ->
  frame_bytes (deliver ch evs) =
    take (Z.to_nat BUFLEN) (frame_bytes ch ++ arrivals evs) /\
  overflow (deliver ch evs) =
    overflow ch || (BUFLEN <? pos ch + Z.of_nat (length (arrivals evs))).
Proof.
  revert ch. induction evs as [|[b t|t] evs IH]; intros ch Hok Hb; simpl in *.
  - pose proof (frame_bytes_length ch Hok) as Hl.
    pose proof (ok_pos _ Hok) as Hp.
    rewrite app_nil_r, take_ge by lia.
    match goal with
    | |- context [BUFLEN <? ?x] => destruct (Z.ltb_spec BUFLEN x); [lia|]
    end.
    by rewrite orb_false_r.
  - inversion Hb as [|? ? Hb1 Hb2]; subst.
    assert (Hok' : chan_ok (bufAdd ch b (wrap32 t))).
    { apply bufAdd_ok; [done|done|apply wrap32_u32]. }
    destruct (IH _ Hok' Hb2) as [IHf IHo]. rewrite IHf, IHo. clear IH IHf IHo.
    pose proof (frame_bytes_length ch Hok) as Hl.
    pose proof (ok_pos _ Hok) as Hp.
    destruct (Z.lt_ge_cases (pos ch) BUFLEN) as [Hroom|Hfull].
    + destruct (bufAdd_room ch b (wrap32 t) Hok Hroom) as (Hp1 & Hf1 & Ho1).
      rewrite Hp1, Hf1, Ho1, <- app_assoc. simpl. split; [done|].
      f_equal. f_equal. lia.
    + destruct (bufAdd_full ch b (wrap32 t) Hfull) as (Hp1 & _ & Hf1 & Ho1).
      rewrite Hp1, Hf1, Ho1. split.
      * rewrite !take_app_le by lia. done.
      * rewrite orb_true_l.
        match goal with
        | |- context [BUFLEN <? ?x] => destruct (Z.ltb_spec BUFLEN x); [|lia]
        end.
        by rewrite orb_true_r.
  - by apply IH.
Qed.

Lemma deliver_last ch evs last l :
  last_arrival last evs = Some l ->
  (forall l0, last = Some l0 -> lastByteMs ch = wrap32 l0) ->
  lastByteMs (deliver ch evs) = wrap32 l.
Proof.
  revert ch last. induction evs as [|[b t|t] evs IH]; intros ch last Hl Hinv;
    simpl in *.
  - by apply Hinv.
  - apply (IH _ (Some t)); [done|].
    intros l0 [= <-]. apply bufAdd_lastByteMs.
  - by apply (IH _ last).
Qed.

Lemma last_arrival_nonempty evs :
  arrivals evs <> [] -> exists l, last_arrival None evs = Some l.
Proof.
  assert (G : forall last, arrivals evs <> [] \/ is_Some last ->
                exists l, last_arrival last evs = Some l).
  { induction evs as [|[b t|t] evs IH]; intros last H; simpl in *.
    - destruct H as [H|[l ->]]; [done|eauto].
    - apply IH. right. eauto.
    - by apply IH. }
  intros H. apply G. by left.
Qed.

(** ** Runs of one channel under a gap-flush function *)

Lemma run_chan_app flush evs1 evs2 ch :
  run_chan flush (evs1 ++ evs2) ch =
  '(ch1, outs1) ← run_chan flush evs1 ch;
  '(ch2, outs2) ← run_chan flush evs2 ch1;
  Some (ch2, outs1 ++ outs2).
Proof.
  revert ch. induction evs1 as [|ev evs1 IH]; intros ch; simpl.
  - by destruct (run_chan flush evs2 ch) as [[? ?]|].
  - destruct (chan_step flush ev ch) as [[ch1 out]|]; simpl; [|done].
    rewrite IH.
    destruct (run_chan flush evs1 ch1) as [[ch2 outs1]|]; simpl; [|done].
    by destruct (run_chan flush evs2 ch2) as [[? ?]|].
Qed.

Section FlushRuns.
(** A flush function and the text it prints when it fires. *)
Variable flush : flush_fn.
Variable emit : ChanState -> string.

(** It leaves an empty channel alone, waits while the silence is short,
    and otherwise prints once and clears the channel. *)
Hypothesis flush_idle : forall ch now,
  pos ch = 0 -> flush ch now = Some (ch, "").
Hypothesis flush_wait : forall ch now,
  sub32 now (lastByteMs ch) < FRAME_GAP_MS -> flush ch now = Some (ch, "").
Hypothesis flush_fire : forall ch now,
  chan_ok ch -> pos ch <> 0 -> FRAME_GAP_MS <= sub32 now (lastByteMs ch) ->
  flush ch now = Some (bufClear ch, emit ch).

Lemma run_burst evs : forall ch last,
  burst last evs = true ->
  (pos ch = 0 \/ exists l, last = Some l /\ lastByteMs ch = wrap32 l) ->
  run_chan flush evs ch = Some (deliver ch evs, silent evs).
Proof.
  induction evs as [|[b t|t] evs IH]; intros ch last Hb Hinv; simpl in *.
  - done.
  - apply andb_prop in Hb as [_ Hb].
    rewrite (IH _ (Some t)); [done|done|].
    right. exists t. split; [done|]. apply bufAdd_lastByteMs.
  - apply andb_prop in Hb as [Hs Hb].
    assert (Hq : flush ch (wrap32 t) = Some (ch, "")).
    { destruct Hinv as [H0|(l & -> & Hl)]; [by apply flush_idle|].
      apply flush_wait. rewrite Hl. simpl in Hs.
      apply andb_prop in Hs as [H1 H2].
      apply Z.leb_le in H1. apply Z.ltb_lt in H2.
      unfold FRAME_GAP_MS in *. rewrite sub32_wrap; lia. }
    rewrite Hq. simpl. by rewrite (IH _ last).
Qed.

Lemma run_polls_idle later : forall ch,
  forallb is_poll later = true -> pos ch = 0 ->
  run_chan flush later ch = Some (ch, silent later).
Proof.
  induction later as [|[b t|t] later IH]; intros ch Hp H0; simpl in *.
  - done.
  - done.
  - rewrite flush_idle by done. simpl. by rewrite IH.
Qed.

(** A burst from a cleared channel, then the first check after the
    silence: one print, of the channel as the burst left it. *)
Lemma run_burst_then_gap evs T later ch0 l :
  chan_ok ch0 -> pos ch0 = 0 ->
  Forall is_u8 (arrivals evs) -> arrivals evs <> [] ->
  burst None evs = true ->
  last_arrival None evs = Some l ->
  l + FRAME_GAP_MS <= T < l + 4294967296 ->
  forallb is_poll later = true ->
  run_chan flush (evs ++ Poll T :: later) ch0 =
  Some (bufClear (deliver ch0 evs),
        silent evs ++ emit (deliver ch0 evs) :: silent later).
Proof.
  intros Hok H0 Hu8 Hne Hb Hl HT Hp.
  rewrite run_chan_app, (run_burst evs ch0 None) by (done || by left).
  simpl.
  pose proof (deliver_ok ch0 evs Hok Hu8) as HokF.
  destruct (deliver_frame ch0 evs Hok Hu8) as [Hf _].
  assert (HposF : pos (deliver ch0 evs) <> 0).
  { pose proof (frame_bytes_length _ HokF) as HlF. rewrite Hf in HlF.
    pose proof (frame_bytes_length _ Hok) as Hl0. rewrite H0 in Hl0.
    destruct (frame_bytes ch0); [|simpl in Hl0; lia]. simpl in HlF.
    destruct (arrivals evs) as [|b bs]; [done|].
    rewrite <- HlF. unfold BUFLEN. simpl. lia. }
  rewrite flush_fire; [|done|done|].
  - simpl. rewrite run_polls_idle by done. done.
  - rewrite (deliver_last ch0 evs None l) by done.
    rewrite sub32_wrap by (unfold FRAME_GAP_MS in HT; lia). lia.
Qed.
End FlushRuns.

(** ** The known-packet report depends on the frame bytes alone *)

Lemma buf_at_ext ch ch' i :
  chan_ok ch -> chan_ok ch' -> frame_bytes ch = frame_bytes ch' ->
  0 <= i < pos ch -> buf_at ch i = buf_at ch' i.
Proof.
  intros Hok Hok' Hfb Hi.
  pose proof (buf_at_lookup ch i Hok Hi) as H1.
  assert (Hp : pos ch' = pos ch).
  { rewrite <- (frame_bytes_length ch Hok), <- (frame_bytes_length ch' Hok').
    by rewrite Hfb. }
  pose proof (buf_at_lookup ch' i Hok' ltac:(lia)) as H2.
  rewrite Hfb, H2 in H1. by injection H1.
Qed.

Lemma known_loop_ext ch ch' p : forall (n : nat) (i : Z),
  chan_ok ch -> chan_ok ch' -> frame_bytes ch = frame_bytes ch' ->
  0 <= p -> 0 <= i -> p + i + Z.of_nat n <= pos ch -> i + Z.of_nat n < 256 ->
  Mega.known_loop n ch p i = Mega.known_loop n ch' p i.
Proof.
  induction n as [|n IH]; intros i Hok Hok' Hfb Hp Hi Hn H8; [done|].
  cbn [Mega.known_loop]. rewrite wrap8_small by lia.
  rewrite (buf_at_ext ch ch' (p + i)) by (done || lia).
  by rewrite IH by (done || lia).
Qed.

Lemma known_line_ext name ch ch' start len :
  chan_ok ch -> chan_ok ch' -> frame_bytes ch = frame_bytes ch' ->
  2 <= len < 256 ->
  known_line name ch start len = known_line name ch' start len.
Proof.
  intros Hok Hok' Hfb Hl. unfold known_line.
  rewrite (findPacket_ext ch ch' start len) by done.
  destruct (findPacket_spec ch' start len Hok' Hl) as (r & -> & Hr). simpl.
  destruct Hr as [[-> _]|(H0 & (_ & Hin & _) & _)]; [done|].
  rewrite (frame_bytes_length ch' Hok') in Hin.
  assert (Hp : pos ch' = pos ch).
  { rewrite <- (frame_bytes_length ch Hok), <- (frame_bytes_length ch' Hok').
    by rewrite Hfb. }
  rewrite (known_loop_ext ch ch' r) by (done || lia). done.
Qed.

Lemma known_line_total name ch start len :
  chan_ok ch -> 2 <= len < 256 -> is_Some (known_line name ch start len).
Proof.
  intros Hok Hl. unfold known_line.
  destruct (findPacket_spec ch start len Hok Hl) as (r & -> & _). by eexists.
Qed.

Lemma printKnown_lines tag ch :
  Mega.printKnownPacketsIfAny tag ch =
  outM ← (if Ascii.eqb (tag0 tag) "M"
          then known_line "Motor" ch Mega.START_MOTOR Mega.LEN_MOTOR
          else Some "");
  outL ← (if Ascii.eqb (tag0 tag) "L"
          then known_line "LCD" ch Mega.START_LCD Mega.LEN_LCD
          else Some "");
  Some (outM +:+ outL).
Proof. reflexivity. Qed.

Lemma printKnown_ext tag ch ch' :
  chan_ok ch -> chan_ok ch' -> frame_bytes ch = frame_bytes ch' ->
  Mega.printKnownPacketsIfAny tag ch = Mega.printKnownPacketsIfAny tag ch'.
Proof.
  intros Hok Hok' Hfb. rewrite !printKnown_lines.
  rewrite (known_line_ext "Motor" ch ch') by (done || (unfold Mega.LEN_MOTOR; lia)).
  rewrite (known_line_ext "LCD" ch ch') by (done || (unfold Mega.LEN_LCD; lia)).
  done.
Qed.

Lemma printKnown_total tag ch :
  chan_ok ch -> is_Some (Mega.printKnownPacketsIfAny tag ch).
Proof.
  intros Hok. rewrite printKnown_lines.
  destruct (known_line_total "Motor" ch Mega.START_MOTOR Mega.LEN_MOTOR Hok)
    as [m Hm]; [unfold Mega.LEN_MOTOR; lia|].
  destruct (known_line_total "LCD" ch Mega.START_LCD Mega.LEN_LCD Hok)
    as [l Hl]; [unfold Mega.LEN_LCD; lia|].
  rewrite Hm, Hl.
  destruct (Ascii.eqb (tag0 tag) "M"), (Ascii.eqb (tag0 tag) "L"); by eexists.
Qed.

Lemma printKnown_cleared tag ch :
  Mega.printKnownPacketsIfAny tag (bufClear ch) = Some "".
Proof.
  unfold Mega.printKnownPacketsIfAny, Mega.findPacket. cbn [bufClear pos].
  destruct (Ascii.eqb (tag0 tag) "M"), (Ascii.eqb (tag0 tag) "L"); reflexivity.
Qed.

Lemma maybeFlushOnGap_fire ch tag now known :
  pos ch <> 0 -> FRAME_GAP_MS <= sub32 now (lastByteMs ch) ->
  Mega.printKnownPacketsIfAny tag ch = Some known ->
  Mega.maybeFlushOnGap ch tag now =
  Some (bufClear ch, Mega.printBufferFrame tag ch +:+ known).
Proof.
  intros Hp Hg Hk. unfold Mega.maybeFlushOnGap.
  destruct (Z.eqb_spec (pos ch) 0); [done|].
  destruct (Z.leb_spec FRAME_GAP_MS (sub32 now (lastByteMs ch))); [|lia].
  by rewrite Hk.
Qed.

(** ** C10: the dedicated-receiver flush scans before it clears *)

(** C10. In the dedicated-receiver sketch, whenever the gap-flush fires
    (the channel is not empty and the silence has lasted [FRAME_GAP_MS]),
    whatever the overflow flag is: the known-packet scan runs on the
    channel as it is printed, its report follows the frame text, and only
    then is the channel cleared. The report is a function of the bytes of
    the frame just printed; on the cleared channel the scan would find
    nothing. *)
Theorem flush_scans_before_clear ch tag now :
  chan_ok ch -> pos ch <> 0 -> FRAME_GAP_MS <= sub32 now (lastByteMs ch) ->
  exists known,
    Mega.printKnownPacketsIfAny tag ch = Some known /\
    Mega.maybeFlushOnGap ch tag now =
      Some (bufClear ch, Mega.printBufferFrame tag ch +:+ known) /\
    (forall ch', chan_ok ch' -> frame_bytes ch' = frame_bytes ch ->
       Mega.printKnownPacketsIfAny tag ch' = Some known) /\
    (tag = "M" ->
       known_line "Motor" ch Mega.START_MOTOR Mega.LEN_MOTOR = Some known) /\
    (tag = "L" ->
       known_line "LCD" ch Mega.START_LCD Mega.LEN_LCD = Some known) /\
    Mega.printKnownPacketsIfAny tag (bufClear ch) = Some "".
Proof.
  intros Hok Hp Hg.
  destruct (printKnown_total tag ch Hok) as [known Hk].
  exists known. split; [done|]. split; [by apply maybeFlushOnGap_fire|].
  split; [|split; [|split]].
  - intros ch' Hok' Hfb. by rewrite (printKnown_ext tag ch' ch).
  - intros ->. rewrite printKnown_lines in Hk. simpl in Hk.
    destruct (known_line "Motor" ch Mega.START_MOTOR Mega.LEN_MOTOR)
      as [m|]; [|done].
    simpl in Hk. by rewrite string_app_nil_r in Hk.
  - intros ->. rewrite printKnown_lines in Hk. simpl in Hk.
    by destruct (known_line "LCD" ch Mega.START_LCD Mega.LEN_LCD).
  - apply printKnown_cleared.
Qed.

Lemma flush_scans_before_clear_witness :
  exists known,
    Mega.printKnownPacketsIfAny "M" (chan_of_bytes two_packets true 0)
      = Some known /\
    Mega.maybeFlushOnGap (chan_of_bytes two_packets true 0) "M" 25 =
      Some (bufClear (chan_of_bytes two_packets true 0),
            Mega.printBufferFrame "M" (chan_of_bytes two_packets true 0)
            +:+ known) /\
    (forall ch', chan_ok ch' ->
       frame_bytes ch' = frame_bytes (chan_of_bytes two_packets true 0) ->
       Mega.printKnownPacketsIfAny "M" ch' = Some known) /\
    ("M" = "M" ->
       known_line "Motor" (chan_of_bytes two_packets true 0)
         Mega.START_MOTOR Mega.LEN_MOTOR = Some known) /\
    ("M" = "L" ->
       known_line "LCD" (chan_of_bytes two_packets true 0)
         Mega.START_LCD Mega.LEN_LCD = Some known) /\
    Mega.printKnownPacketsIfAny "M"
      (bufClear (chan_of_bytes two_packets true 0)) = Some "".
Proof.
  apply (flush_scans_before_clear (chan_of_bytes two_packets true 0) "M" 25).
  - apply chan_of_bytes_ok.
    + by apply (bool_decide_unpack _).
    + vm_compute. discriminate.
    + unfold is_u32. lia.
  - vm_compute. discriminate.
  - vm_compute. discriminate.
Defined.

(** An overflowed buffer is scanned all the same. *)
Example flush_overflowed_scanned :
  Mega.maybeFlushOnGap (chan_of_bytes two_packets true 0) "M" 25 =
  Some (bufClear (chan_of_bytes two_packets true 0),
        "M frame (19 bytes, OVERFLOW):" +:+ CRLF +:+
        "09 43 01 02 03 04 05 06 07 5F 43 01 02 03 04 05 " +:+ CRLF +:+
        "06 07 5F " +:+ CRLF +:+
        "KNOWN Motor packet @1: 43 01 02 03 04 05 06 07 5F " +:+ CRLF).
Proof. vm_compute. reflexivity. Qed.

(** ** A burst and the frame it becomes, in both sketches *)

Lemma mega_flush_idle tag ch now :
  pos ch = 0 -> mega_flush tag ch now = Some (ch, "").
Proof.
  intros H0. unfold mega_flush, Mega.maybeFlushOnGap.
  by destruct (Z.eqb_spec (pos ch) 0).
Qed.

Lemma mega_flush_wait tag ch now :
  sub32 now (lastByteMs ch) < FRAME_GAP_MS -> mega_flush tag ch now = Some (ch, "").
Proof.
  intros Hw. unfold mega_flush, Mega.maybeFlushOnGap.
  destruct (Z.eqb_spec (pos ch) 0); [done|].
  by destruct (Z.leb_spec FRAME_GAP_MS (sub32 now (lastByteMs ch))); [lia|].
Qed.

Lemma mega_flush_fire tag ch now :
  chan_ok ch -> pos ch <> 0 -> FRAME_GAP_MS <= sub32 now (lastByteMs ch) ->
  mega_flush tag ch now =
  Some (bufClear ch,
        Mega.printBufferFrame tag ch +:+
        default "" (Mega.printKnownPacketsIfAny tag ch)).
Proof.
  intros Hok Hp Hg. destruct (printKnown_total tag ch Hok) as [known Hk].
  unfold mega_flush. rewrite Hk. by apply maybeFlushOnGap_fire.
Qed.

Lemma esp_flush_idle tag ch now :
  pos ch = 0 -> esp_flush tag ch now = Some (ch, "").
Proof.
  intros H0. unfold esp_flush, Esp.checkFlush.
  by destruct (Z.eqb_spec (pos ch) 0).
Qed.

Lemma esp_flush_wait tag ch now :
  sub32 now (lastByteMs ch) < FRAME_GAP_MS -> esp_flush tag ch now = Some (ch, "").
Proof.
  intros Hw. unfold esp_flush, Esp.checkFlush.
  destruct (Z.eqb_spec (pos ch) 0); [done|].
  by destruct (Z.leb_spec FRAME_GAP_MS (sub32 now (lastByteMs ch))); [lia|].
Qed.

Lemma esp_flush_fire tag ch now :
  chan_ok ch -> pos ch <> 0 -> FRAME_GAP_MS <= sub32 now (lastByteMs ch) ->
  esp_flush tag ch now = Some (bufClear ch, (Esp.printFrame tag ch).2).
Proof.
  intros Hok Hp Hg. unfold esp_flush, Esp.checkFlush.
  destruct (Z.eqb_spec (pos ch) 0); [done|].
  by destruct (Z.leb_spec FRAME_GAP_MS (sub32 now (lastByteMs ch))); [|lia].
Qed.

Lemma cleared_frame ch : chan_ok ch -> pos ch = 0 -> frame_bytes ch = [].
Proof. intros _ H0. unfold frame_bytes. by rewrite H0. Qed.

(** A burst from a cleared channel and the first check after the silence:
    the frame holds the first [BUFLEN] bytes of the burst, and the overflow
    mark is there exactly when the burst was longer. *)
Lemma burst_frame tag evs T later ch0 l :
  chan_ok ch0 -> pos ch0 = 0 -> overflow ch0 = false ->
  Forall is_u8 (arrivals evs) -> arrivals evs <> [] ->
  burst None evs = true ->
  last_arrival None evs = Some l ->
  l + FRAME_GAP_MS <= T < l + 4294967296 ->
  forallb is_poll later = true ->
  let fb := take (Z.to_nat BUFLEN) (arrivals evs) in
  let ov := BUFLEN <? Z.of_nat (length (arrivals evs)) in
  exists ch' known,
    Mega.printKnownPacketsIfAny tag (chan_of_bytes fb ov 0) = Some known /\
    run_chan (mega_flush tag) (evs ++ Poll T :: later) ch0 =
      Some (ch', silent evs ++
                 (frame_format " bytes" tag fb ov +:+ known) :: silent later) /\
    run_chan (esp_flush tag) (evs ++ Poll T :: later) ch0 =
      Some (ch', silent evs ++ frame_format "" tag fb ov :: silent later) /\
    chan_ok ch' /\ pos ch' = 0 /\ overflow ch' = false.
Proof.
  intros Hok H0 Hov Hu8 Hne Hb Hl HT Hp fb ov.
  pose proof (deliver_ok ch0 evs Hok Hu8) as HokF.
  destruct (deliver_frame ch0 evs Hok Hu8) as [Hf Ho].
  rewrite (cleared_frame ch0 Hok H0) in Hf. simpl in Hf.
  rewrite Hov, H0, orb_false_l, Z.add_0_l in Ho.
  fold fb in Hf. fold ov in Ho.
  destruct (printKnown_total tag (deliver ch0 evs) HokF) as [known Hk].
  assert (Hc : chan_ok (chan_of_bytes fb ov 0)).
  { apply chan_of_bytes_ok; [by apply Forall_take| |done].
    unfold fb, BUFLEN. rewrite length_take. lia. }
  assert (Hcf : frame_bytes (chan_of_bytes fb ov 0) = fb).
  { apply chan_of_bytes_frame. unfold fb, BUFLEN. rewrite length_take. lia. }
  exists (bufClear (deliver ch0 evs)), known.
  split; [|split; [|split; [|split]]].
  - rewrite <- Hk. apply printKnown_ext; [done|done|]. by rewrite Hcf.
  - rewrite (run_burst_then_gap (mega_flush tag) _ (mega_flush_idle tag)
               (mega_flush_wait tag) (mega_flush_fire tag) evs T later ch0 l)
      by done.
    by rewrite Hk, mega_printBufferFrame_format, Hf, Ho.
  - rewrite (run_burst_then_gap (esp_flush tag) _ (esp_flush_idle tag)
               (esp_flush_wait tag) (esp_flush_fire tag) evs T later ch0 l)
      by done.
    by rewrite esp_printFrame_format, Hf, Ho.
  - by apply bufClear_ok.
  - done.
Qed.

(** ** C2: one burst, one frame *)

(** C2, as stated, fails for a burst longer than the buffer: of 129 bytes
    delivered one millisecond apart, the frame printed after the silence
    is not the frame of all 129 bytes without overflow mark. *)
Lemma gap_flush_counterexample :
  burst None long_burst = true /\
  ~ exists ch' known,
      run_chan (mega_flush "M") (long_burst ++ [Poll 200]) chan_init =
      Some (ch', silent long_burst ++
                 [frame_format " bytes" "M" (arrivals long_burst) false
                  +:+ known]).
Proof.
  split; [by vm_compute|].
  intros (ch' & known & H). vm_compute in H. discriminate H.
Qed.

(** C2, amended. For every non-empty sequence of at most [BUFLEN] bytes
    delivered to one cleared channel with every gap between bytes shorter
    than [FRAME_GAP_MS], and checked at will in between: the first gap-flush
    check that comes [FRAME_GAP_MS] or more after the last byte (and less
    than 2^32 ms after it, the period of the clock) prints exactly one
    frame, no check before or after it prints anything, the frame holds all
    delivered bytes in arrival order without overflow mark, and the channel
    is cleared by that check. This holds in both sketches; the dedicated
    one appends its known-packet report to the frame. A check of a channel
    of length 0 prints nothing and changes nothing. *)
Theorem gap_flush_one_frame tag evs T later ch0 l :
  chan_ok ch0 -> pos ch0 = 0 -> overflow ch0 = false ->
  Forall is_u8 (arrivals evs) -> arrivals evs <> [] ->
  Z.of_nat (length (arrivals evs)) <= BUFLEN ->
  burst None evs = true ->
  last_arrival None evs = Some l ->
  l + FRAME_GAP_MS <= T < l + 4294967296 ->
  forallb is_poll later = true ->
  (exists ch' known,
    Mega.printKnownPacketsIfAny tag (chan_of_bytes (arrivals evs) false 0)
      = Some known /\
    run_chan (mega_flush tag) (evs ++ Poll T :: later) ch0 =
      Some (ch', silent evs ++
                 (frame_format " bytes" tag (arrivals evs) false +:+ known)
                 :: silent later) /\
    run_chan (esp_flush tag) (evs ++ Poll T :: later) ch0 =
      Some (ch', silent evs ++
                 frame_format "" tag (arrivals evs) false :: silent later) /\
    pos ch' = 0 /\ overflow ch' = false) /\
  (forall ch now, pos ch = 0 ->
     Mega.maybeFlushOnGap ch tag now = Some (ch, "") /\
     Esp.checkFlush ch tag now = (ch, "")).
Proof.
  intros Hok H0 Hov Hu8 Hne Hlen Hb Hl HT Hp. split.
  - destruct (burst_frame tag evs T later ch0 l)
      as (ch' & known & Hk & Hm & He & _ & Hp' & Ho'); try done.
    rewrite take_ge in Hk, Hm, He by lia.
    destruct (Z.ltb_spec BUFLEN (Z.of_nat (length (arrivals evs)))); [lia|].
    by exists ch', known.
  - intros ch now Hz. split.
    + by apply mega_flush_idle.
    + pose proof (esp_flush_idle tag ch now Hz) as H. by injection H.
Qed.

Lemma gap_flush_one_frame_witness :
  (exists ch' known,
    Mega.printKnownPacketsIfAny "M"
      (chan_of_bytes (arrivals short_burst) false 0) = Some known /\
    run_chan (mega_flush "M") (short_burst ++ Poll 39 :: [Poll 40; Poll 100])
             chan_init =
      Some (ch', silent short_burst ++
                 (frame_format " bytes" "M" (arrivals short_burst) false
                  +:+ known) :: silent [Poll 40; Poll 100]) /\
    run_chan (esp_flush "M") (short_burst ++ Poll 39 :: [Poll 40; Poll 100])
             chan_init =
      Some (ch', silent short_burst ++
                 frame_format "" "M" (arrivals short_burst) false
                 :: silent [Poll 40; Poll 100]) /\
    pos ch' = 0 /\ overflow ch' = false) /\
  (forall ch now, pos ch = 0 ->
     Mega.maybeFlushOnGap ch "M" now = Some (ch, "") /\
     Esp.checkFlush ch "M" now = (ch, "")).
Proof.
  apply (gap_flush_one_frame "M" short_burst 39 [Poll 40; Poll 100]
           chan_init 14).
  - split; simpl.
    + reflexivity.
    + by apply (bool_decide_unpack _).
    + unfold BUFLEN. lia.
    + unfold is_u32. lia.
  - reflexivity.
  - reflexivity.
  - by apply (bool_decide_unpack _).
  - discriminate.
  - vm_compute. discriminate.
  - reflexivity.
  - reflexivity.
  - unfold FRAME_GAP_MS. lia.
  - reflexivity.
Defined.

Example short_burst_frame :
  run_chan (esp_flush "M") (short_burst ++ [Poll 39; Poll 40]) chan_init =
  Some (bufClear (deliver chan_init short_burst),
        [""; ""; ""; ""; ""; ""; "";
         "M frame (3):" +:+ CRLF +:+ "43 01 02 " +:+ CRLF; ""]).
Proof. vm_compute. reflexivity. Qed.

(** ** C3: the bounded buffer *)

Lemma maybeFlushOnGap_ok ch tag now ch' out :
  chan_ok ch -> Mega.maybeFlushOnGap ch tag now = Some (ch', out) -> chan_ok ch'.
Proof.
  intros Hok. unfold Mega.maybeFlushOnGap.
  destruct (pos ch =? 0); [by intros [= <- _]|].
  destruct (FRAME_GAP_MS <=? sub32 now (lastByteMs ch)); [|by intros [= <- _]].
  destruct (Mega.printKnownPacketsIfAny tag ch); simpl; [|done].
  intros [= <- _]. by apply bufClear_ok.
Qed.

Lemma checkFlush_ok ch tag now :
  chan_ok ch -> chan_ok (Esp.checkFlush ch tag now).1.
Proof.
  intros Hok. unfold Esp.checkFlush.
  destruct (pos ch =? 0); [done|].
  destruct (FRAME_GAP_MS <=? sub32 now (lastByteMs ch)); [|done].
  by apply bufClear_ok.
Qed.

(** C3. Every operation on a channel keeps its length within [BUFLEN]
    (and the rest of the representation invariant). An add to a full
    buffer drops the byte: length and stored bytes stay as they are, the
    overflow flag is set, and the last-activity time is updated all the
    same. No add resets the overflow flag; the clear does. So a burst of
    [BUFLEN + k] bytes, [k > 0], followed by a silence yields one frame: the
    first [BUFLEN] bytes of the burst with the overflow mark, and no other
    text, so the [k] bytes in excess are in no frame. *)
Theorem bounded_buffer ch b now tag evs T later ch0 l k :
  chan_ok ch -> is_u8 b -> is_u32 now ->
  chan_ok ch0 -> pos ch0 = 0 -> overflow ch0 = false ->
  Forall is_u8 (arrivals evs) ->
  0 < k -> Z.of_nat (length (arrivals evs)) = BUFLEN + k ->
  burst None evs = true ->
  last_arrival None evs = Some l ->
  l + FRAME_GAP_MS <= T < l + 4294967296 ->
  forallb is_poll later = true ->
  (* the invariant, under every operation *)
  (chan_ok (bufAdd ch b now) /\ chan_ok (bufClear ch) /\
   (forall ch' out, Mega.maybeFlushOnGap ch tag now = Some (ch', out) ->
      chan_ok ch') /\
   chan_ok (Esp.checkFlush ch tag now).1) /\
  (* an add to a full buffer *)
  (pos ch = BUFLEN ->
   pos (bufAdd ch b now) = BUFLEN /\
   frame_bytes (bufAdd ch b now) = frame_bytes ch /\
   buf (bufAdd ch b now) = buf ch /\
   overflow (bufAdd ch b now) = true) /\
  lastByteMs (bufAdd ch b now) = now /\
  (* the overflow flag until the next clear *)
  (overflow ch = true -> overflow (bufAdd ch b now) = true) /\
  overflow (bufClear ch) = false /\ pos (bufClear ch) = 0 /\
  (* the burst that is too long *)
  (exists ch' known,
    Mega.printKnownPacketsIfAny tag
      (chan_of_bytes (take (Z.to_nat BUFLEN) (arrivals evs)) true 0)
      = Some known /\
    run_chan (mega_flush tag) (evs ++ Poll T :: later) ch0 =
      Some (ch', silent evs ++
                 (frame_format " bytes" tag
                    (take (Z.to_nat BUFLEN) (arrivals evs)) true +:+ known)
                 :: silent later) /\
    run_chan (esp_flush tag) (evs ++ Poll T :: later) ch0 =
      Some (ch', silent evs ++
                 frame_format "" tag
                   (take (Z.to_nat BUFLEN) (arrivals evs)) true
                 :: silent later) /\
    Z.of_nat (length (take (Z.to_nat BUFLEN) (arrivals evs))) = BUFLEN /\
    pos ch' = 0 /\ overflow ch' = false).
Proof.
  intros Hok Hb Hnow Hok0 H0 Hov Hu8 Hk Hlen Hburst Hl HT Hp.
  split; [|split; [|split; [|split; [|split; [|split]]]]].
  - split; [by apply bufAdd_ok|]. split; [by apply bufClear_ok|].
    split; [|by apply checkFlush_ok].
    intros ch' out. by apply maybeFlushOnGap_ok.
  - intros Hfull.
    destruct (bufAdd_full ch b now) as (H1 & H2 & H3 & H4); [lia|].
    by rewrite H1, Hfull.
  - apply bufAdd_lastByteMs.
  - apply bufAdd_overflow_sticky.
  - done.
  - done.
  - destruct (burst_frame tag evs T later ch0 l)
      as (ch' & known & Hkn & Hm & He & _ & Hp' & Ho'); try done.
    { intros Hnil. rewrite Hnil in Hlen. simpl in Hlen. unfold BUFLEN in Hlen. lia. }
    destruct (Z.ltb_spec BUFLEN (Z.of_nat (length (arrivals evs)))); [|lia].
    exists ch', known. repeat (split; [done|]). split; [|done].
    rewrite length_take. unfold BUFLEN in *. lia.
Qed.

Lemma bounded_buffer_witness_ok : chan_ok full_chan.
Proof.
  apply deliver_ok.
  - split; simpl.
    + reflexivity.
    + by apply (bool_decide_unpack _).
    + unfold BUFLEN. lia.
    + unfold is_u32. lia.
  - by apply (bool_decide_unpack _).
Defined.

Lemma bounded_buffer_witness :
  (chan_ok (bufAdd full_chan 7 500) /\ chan_ok (bufClear full_chan) /\
   (forall ch' out, Mega.maybeFlushOnGap full_chan "M" 500 = Some (ch', out) ->
      chan_ok ch') /\
   chan_ok (Esp.checkFlush full_chan "M" 500).1) /\
  (pos full_chan = BUFLEN ->
   pos (bufAdd full_chan 7 500) = BUFLEN /\
   frame_bytes (bufAdd full_chan 7 500) = frame_bytes full_chan /\
   buf (bufAdd full_chan 7 500) = buf full_chan /\
   overflow (bufAdd full_chan 7 500) = true) /\
  lastByteMs (bufAdd full_chan 7 500) = 500 /\
  (overflow full_chan = true -> overflow (bufAdd full_chan 7 500) = true) /\
  overflow (bufClear full_chan) = false /\ pos (bufClear full_chan) = 0 /\
  (exists ch' known,
    Mega.printKnownPacketsIfAny "M" (chan_of_bytes kept_bytes true 0) = Some known /\
    run_chan (mega_flush "M") (long_burst ++ Poll 200 :: [Poll 300]) chan_init =
      Some (ch', silent long_burst ++
                 (frame_format " bytes" "M" kept_bytes true +:+ known)
                 :: silent [Poll 300]) /\
    run_chan (esp_flush "M") (long_burst ++ Poll 200 :: [Poll 300]) chan_init =
      Some (ch', silent long_burst ++
                 frame_format "" "M" kept_bytes true :: silent [Poll 300]) /\
    Z.of_nat (length kept_bytes) = BUFLEN /\
    pos ch' = 0 /\ overflow ch' = false).
Proof.
  apply (bounded_buffer full_chan 7 500 "M" long_burst 200 [Poll 300]
           chan_init 128 1).
  - exact bounded_buffer_witness_ok.
  - unfold is_u8. lia.
  - unfold is_u32. lia.
  - split; simpl.
    + reflexivity.
    + by apply (bool_decide_unpack _).
    + unfold BUFLEN. lia.
    + unfold is_u32. lia.
  - reflexivity.
  - reflexivity.
  - by apply (bool_decide_unpack _).
  - lia.
  - reflexivity.
  - by vm_compute.
  - reflexivity.
  - unfold FRAME_GAP_MS. lia.
  - reflexivity.
Defined.

Example full_buffer_add :
  pos full_chan = 128 /\ overflow full_chan = true /\
  frame_bytes full_chan = seqZ 0 128 /\
  pos (bufAdd full_chan 7 500) = 128 /\
  frame_bytes (bufAdd full_chan 7 500) = seqZ 0 128.
Proof. by vm_compute. Qed.

(** ** C4: reconfiguration and the channel buffers *)

Lemma mega_applySniffBaud_channels b w :
  Mega.chM (Mega.applySniffBaud b w) = Mega.chM w /\
  Mega.chL (Mega.applySniffBaud b w) = Mega.chL w /\
  Mega.sniffBaud (Mega.applySniffBaud b w) = b /\
  Mega.uart2 (Mega.applySniffBaud b w) = Some b /\
  Mega.uart3 (Mega.applySniffBaud b w) = Some b.
Proof. done. Qed.

Section EspCommands.
Context {S : Type} {SS : Esp.SoftwareSerial S} {TI : StringToInt}.

Lemma esp_restart_channels (w : Esp.World S) :
  Esp.chM (Esp.restartSoftSerial w) = Esp.chM w /\
  Esp.chL (Esp.restartSoftSerial w) = Esp.chL w /\
  Esp.sniffBaud (Esp.restartSoftSerial w) = Esp.sniffBaud w /\
  Esp.debugBytes (Esp.restartSoftSerial w) = Esp.debugBytes w /\
  Esp.lastSwitchMs (Esp.restartSoftSerial w) = Esp.lastSwitchMs w /\
  Esp.serial (Esp.restartSoftSerial w) = Esp.serial w.
Proof.
  unfold Esp.restartSoftSerial. cbn -[Esp.ss_isListening].
  by destruct (Esp.ss_isListening _ _).
Qed.

Lemma esp_applySniffBaud_channels b (w : Esp.World S) :
  Esp.chM (Esp.applySniffBaud b w) = Esp.chM w /\
  Esp.chL (Esp.applySniffBaud b w) = Esp.chL w /\
  Esp.debugBytes (Esp.applySniffBaud b w) = Esp.debugBytes w /\
  Esp.lastSwitchMs (Esp.applySniffBaud b w) = Esp.lastSwitchMs w.
Proof.
  unfold Esp.applySniffBaud. destruct (b =? 0); [done|].
  cbn -[Esp.restartSoftSerial].
  by destruct (esp_restart_channels (Esp.set_sniffBaud b w))
    as (-> & -> & _ & -> & -> & _).
Qed.

Lemma esp_applySniffBaud_rate b (w : Esp.World S) :
  b <> 0 -> Esp.sniffBaud (Esp.applySniffBaud b w) = b.
Proof.
  intros Hb. unfold Esp.applySniffBaud.
  destruct (Z.eqb_spec b 0); [done|]. cbn -[Esp.restartSoftSerial].
  by destruct (esp_restart_channels (Esp.set_sniffBaud b w))
    as (_ & _ & -> & _).
Qed.
End EspCommands.

Lemma checkFlush_fire tag ch now :
  chan_ok ch -> pos ch <> 0 -> FRAME_GAP_MS <= sub32 now (lastByteMs ch) ->
  Esp.checkFlush ch tag now =
  (bufClear ch, frame_format "" tag (frame_bytes ch) (overflow ch)).
Proof.
  intros Hok Hp Hg. unfold Esp.checkFlush.
  destruct (Z.eqb_spec (pos ch) 0); [done|].
  destruct (Z.leb_spec FRAME_GAP_MS (sub32 now (lastByteMs ch))); [|lia].
  by apply esp_printFrame_format.
Qed.

Lemma esp_restart_soft {S : Type} {SS : Esp.SoftwareSerial S} (w : Esp.World S) :
  Esp.soft (Esp.restartSoftSerial w) =
  listener_restored (receivers_restarted (Esp.sniffBaud w) (Esp.soft w)).
Proof.
  unfold Esp.restartSoftSerial, listener_restored, listening,
    receivers_restarted.
  cbn -[Esp.ss_isListening Esp.ss_listen Esp.ss_begin Esp.ss_end].
  by destruct (Esp.ss_isListening _ _).
Qed.

Lemma esp_applySniffBaud_soft {S : Type} {SS : Esp.SoftwareSerial S} b
    (w : Esp.World S) :
  b <> 0 ->
  Esp.soft (Esp.applySniffBaud b w) =
  listener_restored (receivers_restarted b (Esp.soft w)).
Proof.
  intros Hb. unfold Esp.applySniffBaud.
  destruct (Z.eqb_spec b 0); [done|].
  cbn -[Esp.restartSoftSerial]. by rewrite esp_restart_soft.
Qed.

(** C4, as stated, fails. One cycle after [setup()] two bytes of a frame
    have arrived on the motor line; a successful baud command then sets the
    rate and restarts the receivers, and the motor channel still holds its
    two bytes, in both sketches; the next gap-flush check prints them as a
    frame. *)
Lemma setBaud_discard_counterexample :
  Mega.loop (TI:=atol_model) (Mega.mkCycle [] two_bytes [] 7 7)
            (Mega.setup Mega.boot) = Some mega_partial /\
  Mega.sniffBaud (Mega.handleCommandLine (TI:=atol_model) "B=19200" mega_partial)
    = 19200 /\
  Mega.uart2 (Mega.handleCommandLine (TI:=atol_model) "B=19200" mega_partial)
    = Some 19200 /\
  pos (Mega.chM (Mega.handleCommandLine (TI:=atol_model) "B=19200" mega_partial))
    = 2 /\
  Mega.maybeFlushOnGap
    (Mega.chM (Mega.handleCommandLine (TI:=atol_model) "B=19200" mega_partial))
    "M" 100 =
  Some (bufClear (Mega.chM mega_partial),
        "M frame (2 bytes):" +:+ CRLF +:+ "43 01 " +:+ CRLF) /\
  Esp.sniffBaud (Esp.handleCommandLine (TI:=atol_model) "B=19200" esp_partial)
    = 19200 /\
  pos (Esp.chM (Esp.handleCommandLine (TI:=atol_model) "B=19200" esp_partial))
    = 2 /\
  Esp.checkFlush
    (Esp.chM (Esp.handleCommandLine (TI:=atol_model) "B=19200" esp_partial))
    "M" 100 =
  (bufClear (Esp.chM esp_partial),
   "M frame (2):" +:+ CRLF +:+ "43 01 " +:+ CRLF).
Proof. by vm_compute. Qed.

(** C4, amended. In both sketches a successful change of the baud rate
    sets the new rate and restarts the receivers at it (both UARTs of the
    dedicated-receiver sketch run at the new rate; the shared-receiver
    sketch stops both software receivers, starts both at the new rate and
    calls [listen] on the port it then finds listening), and leaves every
    channel as it was: buffer, length, overflow flag and last-activity
    time. It does not clear or discard a partially accumulated frame: the
    next gap-flush check of either channel that finds the silence elapsed
    prints that channel's frame. *)
Theorem setBaud_keeps_buffers :
  (forall b w,
     Mega.sniffBaud (Mega.applySniffBaud b w) = b /\
     Mega.uart2 (Mega.applySniffBaud b w) = Some b /\
     Mega.uart3 (Mega.applySniffBaud b w) = Some b /\
     Mega.chM (Mega.applySniffBaud b w) = Mega.chM w /\
     Mega.chL (Mega.applySniffBaud b w) = Mega.chL w /\
     forall c tag now,
       chan_ok (Mega.get_ch c w) -> pos (Mega.get_ch c w) <> 0 ->
       FRAME_GAP_MS <= sub32 now (lastByteMs (Mega.get_ch c w)) ->
       exists known,
         Mega.maybeFlushOnGap (Mega.get_ch c (Mega.applySniffBaud b w)) tag now =
         Some (bufClear (Mega.get_ch c w),
               frame_format " bytes" tag (frame_bytes (Mega.get_ch c w))
                            (overflow (Mega.get_ch c w)) +:+ known)) /\
  (forall (S : Type) (SS : Esp.SoftwareSerial S) b (w : Esp.World S),
     b <> 0 ->
     Esp.sniffBaud (Esp.applySniffBaud b w) = b /\
     Esp.soft (Esp.applySniffBaud b w) =
       listener_restored (receivers_restarted b (Esp.soft w)) /\
     Esp.chM (Esp.applySniffBaud b w) = Esp.chM w /\
     Esp.chL (Esp.applySniffBaud b w) = Esp.chL w /\
     forall p tag now,
       chan_ok (Esp.get_ch p w) -> pos (Esp.get_ch p w) <> 0 ->
       FRAME_GAP_MS <= sub32 now (lastByteMs (Esp.get_ch p w)) ->
       Esp.checkFlush (Esp.get_ch p (Esp.applySniffBaud b w)) tag now =
       (bufClear (Esp.get_ch p w),
        frame_format "" tag (frame_bytes (Esp.get_ch p w))
                     (overflow (Esp.get_ch p w)))).
Proof.
  split.
  - intros b w. repeat (split; [done|]). intros c tag now Hok Hp Hg.
    destruct (printKnown_total tag _ Hok) as [known Hk]. exists known.
    assert (Hc : Mega.get_ch c (Mega.applySniffBaud b w) = Mega.get_ch c w)
      by by destruct c.
    rewrite Hc, (maybeFlushOnGap_fire _ _ _ known) by done.
    by rewrite mega_printBufferFrame_format.
  - intros S SS b w Hb.
    destruct (esp_applySniffBaud_channels b w) as (HM & HL & _).
    split; [by apply esp_applySniffBaud_rate|].
    split; [by apply esp_applySniffBaud_soft|].
    split; [done|]. split; [done|]. intros p tag now Hok Hp Hg.
    assert (Hc : Esp.get_ch p (Esp.applySniffBaud b w) = Esp.get_ch p w)
      by by destruct p.
    rewrite Hc. by apply checkFlush_fire.
Qed.

Lemma pending_chan_ok : chan_ok (chan_of_bytes [67; 1] true 0).
Proof.
  apply chan_of_bytes_ok.
  - by apply (bool_decide_unpack _).
  - vm_compute. discriminate.
  - unfold is_u32. lia.
Defined.

Lemma partial_chan_ok : chan_ok (chan_of_bytes [67; 1] false 6).
Proof.
  apply chan_of_bytes_ok.
  - by apply (bool_decide_unpack _).
  - vm_compute. discriminate.
  - unfold is_u32. lia.
Defined.

Lemma mega_partial_chM : Mega.chM mega_partial = chan_of_bytes [67; 1] false 6.
Proof. by vm_compute. Defined.

Lemma esp_partial_chM : Esp.chM esp_partial = chan_of_bytes [67; 1] false 6.
Proof. by vm_compute. Defined.

Lemma setBaud_keeps_buffers_witness :
  (Mega.sniffBaud (Mega.applySniffBaud 19200 mega_partial) = 19200 /\
   Mega.uart2 (Mega.applySniffBaud 19200 mega_partial) = Some 19200 /\
   Mega.uart3 (Mega.applySniffBaud 19200 mega_partial) = Some 19200 /\
   Mega.chM (Mega.applySniffBaud 19200 mega_partial) = Mega.chM mega_partial /\
   Mega.chL (Mega.applySniffBaud 19200 mega_partial) = Mega.chL mega_partial /\
   exists known,
     Mega.maybeFlushOnGap
       (Mega.get_ch Mega.ChM (Mega.applySniffBaud 19200 mega_partial)) "M" 100 =
     Some (bufClear (Mega.get_ch Mega.ChM mega_partial),
           frame_format " bytes" "M"
             (frame_bytes (Mega.get_ch Mega.ChM mega_partial))
             (overflow (Mega.get_ch Mega.ChM mega_partial)) +:+ known)) /\
  (Esp.sniffBaud (Esp.applySniffBaud 19200 esp_partial) = 19200 /\
   Esp.soft (Esp.applySniffBaud 19200 esp_partial) =
     listener_restored (receivers_restarted 19200 (Esp.soft esp_partial)) /\
   Esp.chM (Esp.applySniffBaud 19200 esp_partial) = Esp.chM esp_partial /\
   Esp.chL (Esp.applySniffBaud 19200 esp_partial) = Esp.chL esp_partial /\
   Esp.checkFlush
     (Esp.get_ch Esp.SoftM (Esp.applySniffBaud 19200 esp_partial)) "M" 100 =
   (bufClear (Esp.get_ch Esp.SoftM esp_partial),
    frame_format "" "M" (frame_bytes (Esp.get_ch Esp.SoftM esp_partial))
                 (overflow (Esp.get_ch Esp.SoftM esp_partial)))).
Proof.
  destruct setBaud_keeps_buffers as [Hm He]. split.
  - destruct (Hm 19200 mega_partial) as (H1 & H2 & H3 & H4 & H5 & H6).
    repeat (split; [assumption|]).
    apply (H6 Mega.ChM "M" 100).
    + cbn [Mega.get_ch]. rewrite mega_partial_chM. exact partial_chan_ok.
    + vm_compute. discriminate.
    + vm_compute. discriminate.
  - destruct (He _ _ 19200 esp_partial ltac:(lia)) as (H1 & H2 & H3 & H4 & H5).
    repeat (split; [assumption|]).
    apply (H5 Esp.SoftM "M" 100).
    + cbn [Esp.get_ch]. rewrite esp_partial_chM. exact partial_chan_ok.
    + vm_compute. discriminate.
    + vm_compute. discriminate.
Defined.

Example setBaud_restarts_receivers :
  Esp.rateM (Esp.soft (Esp.applySniffBaud 19200 esp_partial)) = Some 19200 /\
  Esp.rateL (Esp.soft (Esp.applySniffBaud 19200 esp_partial)) = Some 19200 /\
  Esp.rateM (start_pair (Esp.soft (Esp.applySniffBaud 19200 start_world)))
    = Some 19200 /\
  Esp.rateL (start_pair (Esp.soft (Esp.applySniffBaud 19200 start_world)))
    = Some 19200.
Proof. by vm_compute. Qed.

(** ** C5: the baud command *)

(** What the dedicated-receiver parser does with a baud command. *)
Lemma mega_handle_baud {TI : StringToInt} line w :
  startsWith (toUpperCase (trim line)) "B=" = true ->
  Mega.handleCommandLine line w =
  if toInt (trim (substring_from 2 (trim line))) <=? 0
  then Mega.println "ERR Invalid baud. Example: B=9600" w
  else Mega.applySniffBaud
         (wrap32 (toInt (trim (substring_from 2 (trim line))))) w.
Proof.
  intros Hs. unfold Mega.handleCommandLine.
  assert (Hn : (String.length (trim line) =? 0)%nat = false).
  { destruct (trim line); [done|done]. }
  by rewrite Hn, Hs.
Qed.

(** In the dedicated-receiver sketch a baud command whose number is zero
    or negative is answered with the error line and changes nothing else;
    a positive number is applied. *)
Lemma mega_baud_command {TI : StringToInt} line w :
  startsWith (toUpperCase (trim line)) "B=" = true ->
  let b := toInt (trim (substring_from 2 (trim line))) in
  let w' := Mega.handleCommandLine line w in
  (b <= 0 ->
   Mega.serial w' =
     Mega.serial w +:+ "ERR Invalid baud. Example: B=9600" +:+ CRLF /\
   Mega.sniffBaud w' = Mega.sniffBaud w /\
   Mega.debugBytes w' = Mega.debugBytes w /\
   Mega.chM w' = Mega.chM w /\ Mega.chL w' = Mega.chL w /\
   Mega.uart2 w' = Mega.uart2 w /\ Mega.uart3 w' = Mega.uart3 w) /\
  (0 < b -> Mega.sniffBaud w' = wrap32 b).
Proof.
  intros Hs b w'. unfold w'. rewrite (mega_handle_baud line w Hs). fold b.
  destruct (Z.leb_spec b 0); split; intros; (done || lia).
Qed.

(** What the shared-receiver parser does with a baud command: the number
    is cast to [uint32_t] before it is checked, and only 0 is refused. *)
Lemma esp_handle_baud {S : Type} {SS : Esp.SoftwareSerial S}
      {TI : StringToInt} line (w : Esp.World S) :
  startsWith (toUpperCase (trim line)) "B=" = true ->
  Esp.handleCommandLine line w =
  Esp.applySniffBaud (wrap32 (toInt (trim (substring_from 2 (trim line))))) w.
Proof.
  intros Hs. unfold Esp.handleCommandLine.
  assert (Hn : (String.length (trim line) =? 0)%nat = false).
  { destruct (trim line); [done|done]. }
  by rewrite Hn, Hs.
Qed.

Lemma esp_baud_command {S : Type} {SS : Esp.SoftwareSerial S}
      {TI : StringToInt} line (w : Esp.World S) :
  startsWith (toUpperCase (trim line)) "B=" = true ->
  let b := toInt (trim (substring_from 2 (trim line))) in
  let w' := Esp.handleCommandLine line w in
  (b = 0 ->
   w' = Esp.println "ERR Invalid baud. Example: B=9600" w) /\
  (- 4294967296 < b < 0 -> Esp.sniffBaud w' = b + 4294967296) /\
  (0 < b < 4294967296 -> Esp.sniffBaud w' = b).
Proof.
  intros Hs b w'. unfold w'. rewrite (esp_handle_baud line w Hs). fold b.
  split; [|split].
  - intros ->. reflexivity.
  - intros Hb. rewrite esp_applySniffBaud_rate.
    + unfold wrap32. rewrite <- (Z_mod_plus_full b 1 4294967296).
      apply Z.mod_small. lia.
    + unfold wrap32. rewrite <- (Z_mod_plus_full b 1 4294967296).
      rewrite Z.mod_small; lia.
  - intros Hb. rewrite wrap32_small by lia.
    apply esp_applySniffBaud_rate. lia.
Qed.

(** C5 holds in the dedicated-receiver sketch and fails in the
    shared-receiver sketch: there the command [B=-5] is not refused. The
    rate becomes 4294967291, both receivers are restarted at that rate, and
    the reply is the acknowledgement; the dedicated-receiver sketch answers
    the same line with the error and changes no state. *)
Theorem negative_baud_shared_sketch :
  Esp.sniffBaud esp_pending = 9600 /\
  Esp.sniffBaud (Esp.handleCommandLine (TI:=atol_model) "B=-5" esp_pending)
    = 4294967291 /\
  Esp.rateM (Esp.soft (Esp.handleCommandLine (TI:=atol_model) "B=-5" esp_pending))
    = Some 4294967291 /\
  Esp.serial (Esp.handleCommandLine (TI:=atol_model) "B=-5" esp_pending) =
    Esp.serial esp_pending +:+ "OK Baud = 4294967291" +:+ CRLF /\
  Mega.handleCommandLine (TI:=atol_model) "B=-5" mega_pending =
    Mega.println "ERR Invalid baud. Example: B=9600" mega_pending.
Proof. by vm_compute. Qed.

Example baud_commands_dedicated :
  Mega.handleCommandLine (TI:=atol_model) "B=0" mega_pending =
    Mega.println "ERR Invalid baud. Example: B=9600" mega_pending /\
  Mega.handleCommandLine (TI:=atol_model) " b=fast " mega_pending =
    Mega.println "ERR Invalid baud. Example: B=9600" mega_pending /\
  Mega.sniffBaud (Mega.handleCommandLine (TI:=atol_model) "b= 19200" mega_pending)
    = 19200.
Proof. by vm_compute. Qed.

Example baud_commands_shared :
  Esp.handleCommandLine (TI:=atol_model) "B=0" esp_pending =
    Esp.println "ERR Invalid baud. Example: B=9600" esp_pending /\
  Esp.handleCommandLine (TI:=atol_model) "B=fast" esp_pending =
    Esp.println "ERR Invalid baud. Example: B=9600" esp_pending /\
  Esp.sniffBaud (Esp.handleCommandLine (TI:=atol_model) "B=19200" esp_pending)
    = 19200.
Proof. by vm_compute. Qed.

(** ** The time-slice arbiter *)

Global Instance SoftPair_laws : Esp.SoftwareSerialLaws Esp.SoftPair.
Proof.
  split.
  - intros p s. simpl. unfold Esp.pair_isListening. simpl.
    by apply bool_decide_eq_true.
  - intros p q s Hpq. simpl. unfold Esp.pair_isListening. simpl.
    by apply bool_decide_eq_false.
Qed.

Global Instance StartPair_laws : Esp.SoftwareSerialLaws StartPair.
Proof.
  split.
  - intros p s. simpl. unfold Esp.pair_isListening. simpl.
    by apply bool_decide_eq_true.
  - intros p q s Hpq. simpl. unfold Esp.pair_isListening. simpl.
    by apply bool_decide_eq_false.
Qed.

(** *** What holds of every library *)

Section Steps.
Context {S : Type} {SS : Esp.SoftwareSerial S} {TI : StringToInt}.

Implicit Types (w : Esp.World S) (s : S).

Lemma arbiter_kept_refl w : arbiter_kept w w.
Proof. by split. Qed.

Lemma arbiter_kept_trans w1 w2 w3 :
  arbiter_kept w1 w2 -> arbiter_kept w2 w3 -> arbiter_kept w1 w3.
Proof.
  intros [Ht1 Hl1] [Ht2 Hl2]. split; [congruence|].
  intros q. by rewrite Hl2, Hl1.
Qed.

Lemma kept_active w w' : arbiter_kept w w' -> Esp.active w' = Esp.active w.
Proof. intros [_ Hl]. unfold Esp.active. by rewrite Hl. Qed.

Lemma kept_one w w' :
  arbiter_kept w w' -> one_listener (Esp.soft w) -> one_listener (Esp.soft w').
Proof. intros [_ Hl] H1. unfold one_listener in *. by rewrite !Hl. Qed.

Lemma active_listening_port w : Esp.active w = listening (Esp.soft w).
Proof. done. Qed.

(** No command touches the time of the last switch. *)
Lemma handleCommandLine_lastSwitch line w :
  Esp.lastSwitchMs (Esp.handleCommandLine line w) = Esp.lastSwitchMs w.
Proof.
  unfold Esp.handleCommandLine.
  destruct (String.length (trim line) =? 0)%nat; [done|].
  destruct (startsWith _ "B=").
  { by destruct (esp_applySniffBaud_channels
                   (wrap32 (toInt (trim (substring_from 2 (trim line))))) w)
      as (_ & _ & _ & ->). }
  destruct (startsWith _ "D="); [|done].
  destruct (_ || _); [done|]. by destruct (_ || _).
Qed.

Lemma pollPCCommands_lastSwitch input : forall w,
  Esp.lastSwitchMs (Esp.pollPCCommands input w) = Esp.lastSwitchMs w.
Proof.
  induction input as [|c rest IH]; intros w; simpl; [done|].
  destruct (Ascii.eqb c "013"); [by apply IH|].
  destruct (Ascii.eqb c "010").
  - rewrite IH. simpl. apply handleCommandLine_lastSwitch.
  - destruct (String.length (Esp.cmdline w) <? 64)%nat; [|by apply IH].
    by rewrite IH.
Qed.

(** A command input that comes without a line feed completes no line, and
    leaves the receivers alone. *)
Lemma pollPCCommands_no_line input : forall w,
  "010"%char ∉ input ->
  Esp.soft (Esp.pollPCCommands input w) = Esp.soft w.
Proof.
  induction input as [|c rest IH]; intros w Hn; simpl; [done|].
  apply not_elem_of_cons in Hn as [Hc Hn].
  destruct (Ascii.eqb c "013"); [by apply IH|].
  destruct (Ascii.eqb_spec c "010"); [congruence|].
  destruct (String.length (Esp.cmdline w) <? 64)%nat; [|by apply IH].
  by rewrite IH.
Qed.

Lemma drain_kept rx p tag : forall w, arbiter_kept w (Esp.drain rx p tag w).
Proof.
  induction rx as [|[b now] rest IH]; intros w; simpl.
  - apply arbiter_kept_refl.
  - eapply arbiter_kept_trans; [|apply IH].
    destruct p; simpl; destruct (Esp.debugBytes w); by split.
Qed.

Lemma drain_soft rx p tag : forall w,
  Esp.soft (Esp.drain rx p tag w) = Esp.soft w.
Proof.
  induction rx as [|[b now] rest IH]; intros w; simpl; [done|].
  rewrite IH. by destruct p; simpl; destruct (Esp.debugBytes w).
Qed.

Lemma flushChannel_kept p tag now w :
  arbiter_kept w (Esp.flushChannel p tag now w).
Proof.
  unfold Esp.flushChannel. destruct (Esp.checkFlush _ _ _) as [ch out].
  by destruct p; split.
Qed.

Lemma flushChannel_soft p tag now w :
  Esp.soft (Esp.flushChannel p tag now w) = Esp.soft w.
Proof.
  unfold Esp.flushChannel. destruct (Esp.checkFlush _ _ _) as [ch out].
  by destruct p.
Qed.

Lemma flushChannel_other p q tag now w :
  q <> p -> Esp.get_ch q (Esp.flushChannel p tag now w) = Esp.get_ch q w.
Proof.
  intros Hq. unfold Esp.flushChannel.
  destruct (Esp.checkFlush _ _ _) as [ch out]. by destruct p, q.
Qed.

(** The commands, the drain and the two gap-flush checks of a cycle leave
    the time of the last switch; the receivers are as the commands left
    them. *)
Lemma loop_flush_arbiter inp w :
  Esp.lastSwitchMs (Esp.loop_flush inp w) = Esp.lastSwitchMs w /\
  Esp.soft (Esp.loop_flush inp w) =
    Esp.soft (Esp.pollPCCommands (Esp.in_pc inp) w).
Proof.
  unfold Esp.loop_flush.
  set (wp := Esp.pollPCCommands (Esp.in_pc inp) w).
  set (wd := if Esp.ss_isListening Esp.SoftM (Esp.soft wp)
             then Esp.drain (Esp.in_rxM inp) Esp.SoftM "M" wp
             else Esp.drain (Esp.in_rxL inp) Esp.SoftL "L" wp).
  assert (Hd : arbiter_kept wp wd /\ Esp.soft wd = Esp.soft wp).
  { unfold wd. destruct (Esp.ss_isListening _ _);
      (split; [apply drain_kept|apply drain_soft]). }
  destruct Hd as [[Hdt _] Hds].
  destruct (flushChannel_kept Esp.SoftM "M" (Esp.now_flushM inp) wd) as [HM _].
  destruct (flushChannel_kept Esp.SoftL "L" (Esp.now_flushL inp)
              (Esp.flushChannel Esp.SoftM "M" (Esp.now_flushM inp) wd))
    as [HL _].
  split.
  - rewrite HL, HM, Hdt. apply pollPCCommands_lastSwitch.
  - by rewrite !flushChannel_soft.
Qed.

Lemma loop_switch_channels inp w :
  Esp.chM (Esp.loop_switch inp w) = Esp.chM w /\
  Esp.chL (Esp.loop_switch inp w) = Esp.chL w /\
  Esp.serial (Esp.loop_switch inp w) = Esp.serial w.
Proof.
  unfold Esp.loop_switch, Esp.switchListener.
  destruct (_ <? _); [|done]. by destruct (Esp.ss_isListening _ _).
Qed.

(** *** The clock readings of a cycle *)

Lemma clocked_drain clk bytes p tag : forall w n,
  EspClock.drain clk bytes p tag w n =
  (Esp.drain (stamp clk n bytes) p tag w, (n + length bytes)%nat).
Proof.
  induction bytes as [|b rest IH]; intros w n; simpl.
  - by rewrite Nat.add_0_r.
  - rewrite IH. f_equal. lia.
Qed.

Lemma clocked_flushChannel clk p tag w n :
  EspClock.flushChannel clk p tag w n =
  (Esp.flushChannel p tag (clk n) w, (n + reads (Esp.get_ch p w))%nat).
Proof.
  unfold EspClock.flushChannel, EspClock.checkFlush, Esp.flushChannel,
    Esp.checkFlush, reads.
  destruct (pos (Esp.get_ch p w) =? 0).
  - by rewrite Nat.add_0_r.
  - rewrite Nat.add_1_r. destruct (FRAME_GAP_MS <=? _); [|done].
    by destruct (Esp.printFrame tag (Esp.get_ch p w)).
Qed.

Lemma clocked_switchListener clk w n :
  EspClock.switchListener clk w n = (Esp.switchListener (clk n) w, Datatypes.S n).
Proof. done. Qed.

(** [loop()] on the clock is [Esp.loop] on the readings of [clock_cycle]. *)
Lemma clocked_loop clk pc bytesM bytesL w n :
  (EspClock.loop clk pc bytesM bytesL w n).1 =
  Esp.loop (clock_cycle clk n pc bytesM bytesL w) w.
Proof.
  unfold EspClock.loop, Esp.loop, Esp.loop_flush, Esp.loop_switch, clock_cycle,
    clock_drained.
  cbn [Esp.in_pc Esp.in_rxM Esp.in_rxL Esp.now_flushM Esp.now_flushL
       Esp.now_check Esp.now_switch].
  set (wp := Esp.pollPCCommands pc w).
  destruct (Esp.ss_isListening Esp.SoftM (Esp.soft wp)).
  - rewrite clocked_drain.
    set (wd := Esp.drain (stamp clk n bytesM) Esp.SoftM "M" wp).
    rewrite clocked_flushChannel. cbn [Esp.get_ch].
    rewrite clocked_flushChannel.
    rewrite (flushChannel_other Esp.SoftM Esp.SoftL) by done.
    cbn [Esp.get_ch]. rewrite clocked_switchListener.
    by destruct (_ <? _).
  - rewrite clocked_drain.
    set (wd := Esp.drain (stamp clk n bytesL) Esp.SoftL "L" wp).
    rewrite clocked_flushChannel. cbn [Esp.get_ch].
    rewrite clocked_flushChannel.
    rewrite (flushChannel_other Esp.SoftM Esp.SoftL) by done.
    cbn [Esp.get_ch]. rewrite clocked_switchListener.
    by destruct (_ <? _).
Qed.

(** The readings of a cycle come in the order of its steps: on a clock
    that does not run backwards none is older than the one before it, and
    on a clock that moves on with every reading the time-slice test reads
    later than every gap-flush check that read the clock, and the switch
    later still. *)
Lemma clock_cycle_order clk pc bytesM bytesL w n :
  ((forall i j, (i <= j)%nat -> clk i <= clk j) ->
   Esp.now_flushM (clock_cycle clk n pc bytesM bytesL w) <=
     Esp.now_flushL (clock_cycle clk n pc bytesM bytesL w) /\
   Esp.now_flushL (clock_cycle clk n pc bytesM bytesL w) <=
     Esp.now_check (clock_cycle clk n pc bytesM bytesL w) /\
   Esp.now_check (clock_cycle clk n pc bytesM bytesL w) <=
     Esp.now_switch (clock_cycle clk n pc bytesM bytesL w)) /\
  ((forall i j, (i < j)%nat -> clk i < clk j) ->
   (pos (Esp.chM (clock_drained clk n pc bytesM bytesL w)) <> 0 ->
    Esp.now_flushM (clock_cycle clk n pc bytesM bytesL w) <
      Esp.now_check (clock_cycle clk n pc bytesM bytesL w)) /\
   (pos (Esp.chL (clock_drained clk n pc bytesM bytesL w)) <> 0 ->
    Esp.now_flushL (clock_cycle clk n pc bytesM bytesL w) <
      Esp.now_check (clock_cycle clk n pc bytesM bytesL w)) /\
   Esp.now_check (clock_cycle clk n pc bytesM bytesL w) <
     Esp.now_switch (clock_cycle clk n pc bytesM bytesL w)).
Proof.
  unfold clock_cycle.
  cbn [Esp.now_flushM Esp.now_flushL Esp.now_check Esp.now_switch].
  set (wd := clock_drained clk n pc bytesM bytesL w).
  split; intros Hm.
  - repeat split; apply Hm; lia.
  - unfold reads. repeat split.
    + intros Hp. destruct (Z.eqb_spec (pos (Esp.chM wd)) 0); [done|].
      apply Hm. lia.
    + intros Hp. destruct (Z.eqb_spec (pos (Esp.chL wd)) 0); [done|].
      apply Hm. lia.
    + apply Hm. lia.
Qed.
End Steps.

(** *** What the [listen] laws give *)

Section Arbiter.
Context {S : Type} {SS : Esp.SoftwareSerial S} {TI : StringToInt}.
Context {LAWS : Esp.SoftwareSerialLaws S}.

Implicit Types (w : Esp.World S) (s : S).

Lemma listen_one p s : one_listener (Esp.ss_listen p s).
Proof.
  unfold one_listener. destruct p.
  - rewrite Esp.listen_self, Esp.listen_other; done.
  - rewrite Esp.listen_self, Esp.listen_other; done.
Qed.

Lemma listen_listening p s : listening (Esp.ss_listen p s) = p.
Proof.
  unfold listening. destruct p.
  - by rewrite Esp.listen_self.
  - by rewrite Esp.listen_other.
Qed.

Lemma listen_active p w :
  Esp.active (Esp.set_soft (Esp.ss_listen p (Esp.soft w)) w) = p.
Proof. apply listen_listening. Qed.

(** The restoring [listen] of [restartSoftSerial]: one port is listening
    afterwards, the one the restart left listening. *)
Lemma restart_listener w :
  one_listener (Esp.soft (Esp.restartSoftSerial w)) /\
  Esp.active (Esp.restartSoftSerial w) =
    listening (receivers_restarted (Esp.sniffBaud w) (Esp.soft w)).
Proof.
  rewrite active_listening_port, esp_restart_soft. unfold listener_restored.
  split; [apply listen_one|apply listen_listening].
Qed.

Lemma applySniffBaud_listener b w :
  b <> 0 ->
  one_listener (Esp.soft (Esp.applySniffBaud b w)) /\
  Esp.active (Esp.applySniffBaud b w) =
    listening (receivers_restarted b (Esp.soft w)).
Proof.
  intros Hb. rewrite active_listening_port, esp_applySniffBaud_soft by done.
  unfold listener_restored.
  split; [apply listen_one|apply listen_listening].
Qed.

Lemma applySniffBaud_one b w :
  one_listener (Esp.soft w) -> one_listener (Esp.soft (Esp.applySniffBaud b w)).
Proof.
  intros H1. destruct (Z.eq_dec b 0) as [->|Hb]; [done|].
  by apply applySniffBaud_listener.
Qed.

Lemma handleCommandLine_one line w :
  one_listener (Esp.soft w) ->
  one_listener (Esp.soft (Esp.handleCommandLine line w)).
Proof.
  intros H1. unfold Esp.handleCommandLine.
  destruct (String.length (trim line) =? 0)%nat; [done|].
  destruct (startsWith _ "B="); [by apply applySniffBaud_one|].
  destruct (startsWith _ "D="); [|done].
  destruct (_ || _); [done|]. by destruct (_ || _).
Qed.

Lemma pollPCCommands_one input : forall w,
  one_listener (Esp.soft w) ->
  one_listener (Esp.soft (Esp.pollPCCommands input w)).
Proof.
  induction input as [|c rest IH]; intros w H1; simpl; [done|].
  destruct (Ascii.eqb c "013"); [by apply IH|].
  destruct (Ascii.eqb c "010").
  - apply IH. simpl. by apply handleCommandLine_one.
  - destruct (String.length (Esp.cmdline w) <? 64)%nat; by apply IH.
Qed.

Lemma switchListener_flips now w :
  Esp.active (Esp.switchListener now w) = Esp.other (Esp.active w) /\
  Esp.lastSwitchMs (Esp.switchListener now w) = now /\
  one_listener (Esp.soft (Esp.switchListener now w)) /\
  Esp.chM (Esp.switchListener now w) = Esp.chM w /\
  Esp.chL (Esp.switchListener now w) = Esp.chL w /\
  Esp.serial (Esp.switchListener now w) = Esp.serial w.
Proof.
  unfold Esp.switchListener, Esp.active.
  destruct (Esp.ss_isListening Esp.SoftM (Esp.soft w)) eqn:HM; simpl.
  - rewrite Esp.listen_other by done. repeat split. apply listen_one.
  - rewrite Esp.listen_self. repeat split. apply listen_one.
Qed.

(** One pass of [loop()], seen from the arbiter. *)
Lemma loop_arbiter inp w :
  one_listener (Esp.soft w) ->
  (Esp.SWITCH_TIMEOUT_MS < sub32 (Esp.now_check inp) (Esp.lastSwitchMs w) ->
   switch_due inp w = true /\
   Esp.active (Esp.loop inp w) = Esp.other (Esp.active (Esp.loop_flush inp w)) /\
   Esp.lastSwitchMs (Esp.loop inp w) = Esp.now_switch inp) /\
  (sub32 (Esp.now_check inp) (Esp.lastSwitchMs w) <= Esp.SWITCH_TIMEOUT_MS ->
   switch_due inp w = false /\
   Esp.soft (Esp.loop inp w) = Esp.soft (Esp.loop_flush inp w) /\
   Esp.lastSwitchMs (Esp.loop inp w) = Esp.lastSwitchMs w) /\
  one_listener (Esp.soft (Esp.loop inp w)).
Proof.
  intros H1. destruct (loop_flush_arbiter inp w) as [Ht Hs].
  pose proof (pollPCCommands_one (Esp.in_pc inp) w H1) as H1'.
  rewrite <- Hs in H1'.
  pose proof (switchListener_flips (Esp.now_switch inp) (Esp.loop_flush inp w))
    as (Hs1 & Hs2 & Hs3 & _).
  unfold switch_due, Esp.loop, Esp.loop_switch. rewrite Ht.
  destruct (Z.ltb_spec Esp.SWITCH_TIMEOUT_MS
              (sub32 (Esp.now_check inp) (Esp.lastSwitchMs w))) as [Hd|Hd].
  - split; [done|]. split; [intros; lia|done].
  - split; [intros; lia|]. split; [|done]. by intros _.
Qed.

Lemma setup_one now s0 :
  one_listener (Esp.soft (Esp.setup now (Esp.boot s0))) /\
  Esp.active (Esp.setup now (Esp.boot s0)) = Esp.SoftM.
Proof.
  split.
  - apply listen_one.
  - unfold Esp.active. simpl. by rewrite Esp.listen_self.
Qed.

Lemma reachable_one w : reachable w -> one_listener (Esp.soft w).
Proof.
  induction 1 as [s0 now|inp w _ IH].
  - apply setup_one.
  - by apply loop_arbiter.
Qed.

(** While no command restarts the receivers, each switch selects the
    other port than the switch before it. *)
Lemma switch_trace_alternates inps : forall w,
  one_listener (Esp.soft w) -> steady inps w ->
  alternates (Esp.active w) (switch_trace inps w).
Proof.
  induction inps as [|inp rest IH]; intros w H1 Hst; simpl; [done|].
  destruct Hst as [Hq Hst].
  destruct (loop_arbiter inp w H1) as (Hdue & Hnot & H1').
  destruct (loop_flush_arbiter inp w) as [_ Hs]. rewrite Hq in Hs.
  assert (Ha : Esp.active (Esp.loop_flush inp w) = Esp.active w)
    by (unfold Esp.active; by rewrite Hs).
  specialize (IH _ H1' Hst).
  destruct (Z.lt_ge_cases Esp.SWITCH_TIMEOUT_MS
              (sub32 (Esp.now_check inp) (Esp.lastSwitchMs w))) as [Hd|Hd].
  - destruct (Hdue Hd) as (-> & Hf & _). simpl. split; [|done].
    by rewrite Hf, Ha.
  - destruct (Hnot Hd) as (-> & Hf & _). simpl.
    assert (Hb : Esp.active (Esp.loop inp w) = Esp.active w)
      by (unfold Esp.active; by rewrite Hf, Hs).
    by rewrite <- Hb.
Qed.
End Arbiter.

(** ** C6: when the active receiver changes *)

(** C6, as stated, fails: 50 ms after the last switch, which is
    [SWITCH_TIMEOUT_MS], a cycle does not switch. *)
Lemma time_slice_counterexample :
  Esp.SWITCH_TIMEOUT_MS <=
    sub32 (Esp.now_check (quiet_cycle 50)) (Esp.lastSwitchMs esp_start) /\
  Esp.active (Esp.loop (TI:=atol_model) (quiet_cycle 50) esp_start)
    = Esp.active esp_start /\
  Esp.lastSwitchMs (Esp.loop (TI:=atol_model) (quiet_cycle 50) esp_start)
    <> Esp.now_check (quiet_cycle 50).
Proof. by vm_compute. Qed.

(** C6, amended. In the shared-receiver sketch, in every cycle from
    [setup()] on, for every library in which [listen] makes its port the
    only listening one:

    - the order of the cycle. With [millis()] read from a clock, [loop()]
      is [Esp.loop] on the readings in this order: the drained bytes, the
      gap-flush check of the motor channel, that of the display channel,
      the time-slice test, [switchListener]; on a clock that does not run
      backwards the reading of the time-slice test is not older than those
      of the two gap-flush checks, and not newer than the one stored by the
      switch; on a clock that moves on with every reading it is later than
      the reading of every gap-flush check that read the clock (one on an
      empty channel does not), and earlier than the one stored by the
      switch;
    - the commands, the drain and both gap-flush checks leave the time of
      the last switch, and leave the receivers as the commands left them;
      what the cycle leaves in the channels and prints is what these steps
      left;
    - then, if the clock reading minus [lastSwitchMs], modulo 2^32, is
      strictly greater than [SWITCH_TIMEOUT_MS], the active port becomes
      the other port than the one active at the test, and [lastSwitchMs]
      becomes the clock reading taken in [switchListener]; otherwise
      neither the receivers nor [lastSwitchMs] change;
    - exactly one port is listening before and after the cycle;
    - over a run in which no command restarts the receivers, each switch
      selects the other port than the switch before it. *)
Theorem time_slice_switch {S : Type} {SS : Esp.SoftwareSerial S}
    {TI : StringToInt} {LAWS : Esp.SoftwareSerialLaws S}
    (w : Esp.World S) (inp : Esp.CycleInput) (inps : list Esp.CycleInput)
    (clk : nat -> Z) (n : nat) (pc : list ascii) (bytesM bytesL : list Z) :
  reachable w ->
  ((EspClock.loop clk pc bytesM bytesL w n).1 =
     Esp.loop (clock_cycle clk n pc bytesM bytesL w) w /\
   ((forall i j, (i <= j)%nat -> clk i <= clk j) ->
    Esp.now_flushM (clock_cycle clk n pc bytesM bytesL w) <=
      Esp.now_flushL (clock_cycle clk n pc bytesM bytesL w) /\
    Esp.now_flushL (clock_cycle clk n pc bytesM bytesL w) <=
      Esp.now_check (clock_cycle clk n pc bytesM bytesL w) /\
    Esp.now_check (clock_cycle clk n pc bytesM bytesL w) <=
      Esp.now_switch (clock_cycle clk n pc bytesM bytesL w)) /\
   ((forall i j, (i < j)%nat -> clk i < clk j) ->
    (pos (Esp.chM (clock_drained clk n pc bytesM bytesL w)) <> 0 ->
     Esp.now_flushM (clock_cycle clk n pc bytesM bytesL w) <
       Esp.now_check (clock_cycle clk n pc bytesM bytesL w)) /\
    (pos (Esp.chL (clock_drained clk n pc bytesM bytesL w)) <> 0 ->
     Esp.now_flushL (clock_cycle clk n pc bytesM bytesL w) <
       Esp.now_check (clock_cycle clk n pc bytesM bytesL w)) /\
    Esp.now_check (clock_cycle clk n pc bytesM bytesL w) <
      Esp.now_switch (clock_cycle clk n pc bytesM bytesL w))) /\
  (Esp.lastSwitchMs (Esp.loop_flush inp w) = Esp.lastSwitchMs w /\
   Esp.soft (Esp.loop_flush inp w) =
     Esp.soft (Esp.pollPCCommands (Esp.in_pc inp) w) /\
   Esp.chM (Esp.loop inp w) = Esp.chM (Esp.loop_flush inp w) /\
   Esp.chL (Esp.loop inp w) = Esp.chL (Esp.loop_flush inp w) /\
   Esp.serial (Esp.loop inp w) = Esp.serial (Esp.loop_flush inp w)) /\
  (Esp.SWITCH_TIMEOUT_MS < sub32 (Esp.now_check inp) (Esp.lastSwitchMs w) ->
   Esp.active (Esp.loop inp w) = Esp.other (Esp.active (Esp.loop_flush inp w)) /\
   Esp.lastSwitchMs (Esp.loop inp w) = Esp.now_switch inp) /\
  (sub32 (Esp.now_check inp) (Esp.lastSwitchMs w) <= Esp.SWITCH_TIMEOUT_MS ->
   Esp.soft (Esp.loop inp w) = Esp.soft (Esp.loop_flush inp w) /\
   Esp.lastSwitchMs (Esp.loop inp w) = Esp.lastSwitchMs w) /\
  one_listener (Esp.soft w) /\
  one_listener (Esp.soft (Esp.loop inp w)) /\
  (steady inps w -> alternates (Esp.active w) (switch_trace inps w)).
Proof.
  intros Hr. pose proof (reachable_one w Hr) as H1.
  destruct (loop_arbiter inp w H1) as (Hdue & Hnot & H1').
  destruct (loop_flush_arbiter inp w) as [Ht Hs].
  destruct (loop_switch_channels inp (Esp.loop_flush inp w)) as (HM & HL & HS).
  split; [|split; [|split; [|split; [|split; [|split]]]]].
  - split; [apply clocked_loop|apply clock_cycle_order].
  - done.
  - intros Hd. by destruct (Hdue Hd) as (_ & ? & ?).
  - intros Hd. by destruct (Hnot Hd) as (_ & ? & ?).
  - done.
  - done.
  - by apply switch_trace_alternates.
Qed.

Lemma time_slice_switch_witness :
  ((EspClock.loop (TI:=atol_model) slow_clock [] [67; 1] [] esp_start 0).1 =
     Esp.loop (TI:=atol_model)
       (clock_cycle (TI:=atol_model) slow_clock 0 [] [67; 1] [] esp_start)
       esp_start /\
   Esp.now_flushM (clock_cycle (TI:=atol_model) slow_clock 0 [] [67; 1] [] esp_start)
     <= Esp.now_flushL
          (clock_cycle (TI:=atol_model) slow_clock 0 [] [67; 1] [] esp_start) /\
   Esp.now_flushL (clock_cycle (TI:=atol_model) slow_clock 0 [] [67; 1] [] esp_start)
     <= Esp.now_check
          (clock_cycle (TI:=atol_model) slow_clock 0 [] [67; 1] [] esp_start) /\
   Esp.now_check (clock_cycle (TI:=atol_model) slow_clock 0 [] [67; 1] [] esp_start)
     <= Esp.now_switch
          (clock_cycle (TI:=atol_model) slow_clock 0 [] [67; 1] [] esp_start) /\
   Esp.now_flushM (clock_cycle (TI:=atol_model) slow_clock 0 [] [67; 1] [] esp_start)
     < Esp.now_check
         (clock_cycle (TI:=atol_model) slow_clock 0 [] [67; 1] [] esp_start) /\
   Esp.now_check (clock_cycle (TI:=atol_model) slow_clock 0 [] [67; 1] [] esp_start)
     < Esp.now_switch
         (clock_cycle (TI:=atol_model) slow_clock 0 [] [67; 1] [] esp_start)) /\
  (Esp.lastSwitchMs (Esp.loop_flush (TI:=atol_model) (quiet_cycle 51) esp_start)
     = Esp.lastSwitchMs esp_start /\
   Esp.soft (Esp.loop_flush (TI:=atol_model) (quiet_cycle 51) esp_start) =
     Esp.soft (Esp.pollPCCommands (TI:=atol_model)
                 (Esp.in_pc (quiet_cycle 51)) esp_start) /\
   Esp.chM (Esp.loop (TI:=atol_model) (quiet_cycle 51) esp_start) =
     Esp.chM (Esp.loop_flush (TI:=atol_model) (quiet_cycle 51) esp_start) /\
   Esp.chL (Esp.loop (TI:=atol_model) (quiet_cycle 51) esp_start) =
     Esp.chL (Esp.loop_flush (TI:=atol_model) (quiet_cycle 51) esp_start) /\
   Esp.serial (Esp.loop (TI:=atol_model) (quiet_cycle 51) esp_start) =
     Esp.serial (Esp.loop_flush (TI:=atol_model) (quiet_cycle 51) esp_start)) /\
  (Esp.active (Esp.loop (TI:=atol_model) (quiet_cycle 51) esp_start)
     = Esp.other
         (Esp.active (Esp.loop_flush (TI:=atol_model) (quiet_cycle 51) esp_start)) /\
   Esp.lastSwitchMs (Esp.loop (TI:=atol_model) (quiet_cycle 51) esp_start)
     = Esp.now_switch (quiet_cycle 51)) /\
  one_listener (Esp.soft esp_start) /\
  one_listener (Esp.soft (Esp.loop (TI:=atol_model) (quiet_cycle 51) esp_start)) /\
  alternates (Esp.active esp_start)
    (switch_trace (TI:=atol_model)
       [quiet_cycle 51; quiet_cycle 60; quiet_cycle 102; quiet_cycle 153]
       esp_start).
Proof.
  destruct (time_slice_switch (TI:=atol_model) esp_start (quiet_cycle 51)
              [quiet_cycle 51; quiet_cycle 60; quiet_cycle 102; quiet_cycle 153]
              slow_clock 0%nat [] [67; 1] []
              (reach_setup (TI:=atol_model) _ _))
    as ((Hc & Ho & Hs) & Hf & Hd & _ & H1 & H1' & Ha).
  split; [split; [exact Hc|]|].
  - assert (Hm : forall i j, (i <= j)%nat -> slow_clock i <= slow_clock j)
      by (intros i j Hij; unfold slow_clock; lia).
    assert (Hm' : forall i j, (i < j)%nat -> slow_clock i < slow_clock j)
      by (intros i j Hij; unfold slow_clock; lia).
    destruct (Ho Hm) as (O1 & O2 & O3). destruct (Hs Hm') as (S1 & _ & S3).
    split; [exact O1|]. split; [exact O2|]. split; [exact O3|].
    split; [|exact S3]. apply S1. discriminate.
  - split; [exact Hf|]. split; [|split; [exact H1|split; [exact H1'|]]].
    + apply Hd. reflexivity.
    + apply Ha. repeat split.
Defined.

Example three_switches :
  switch_trace (TI:=atol_model)
    [quiet_cycle 50; quiet_cycle 51; quiet_cycle 60; quiet_cycle 102;
     quiet_cycle 153] esp_start
  = [Esp.SoftL; Esp.SoftM; Esp.SoftL].
Proof. by vm_compute. Qed.

(** The readings of a cycle that drains two bytes: the bytes at 40 and
    44 ms, the gap-flush check of the motor channel at 48 ms, none for the
    empty display channel, the time-slice test at 52 ms, and the switch at
    56 ms. *)
Example clock_cycle_readings :
  clock_cycle (TI:=atol_model) slow_clock 0 [] [67; 1] [] esp_start =
    Esp.mkCycle [] [(67, 40); (1, 44)] [] 48 52 52 56 /\
  Esp.lastSwitchMs
    (EspClock.loop (TI:=atol_model) slow_clock [] [67; 1] [] esp_start 0).1 = 56 /\
  (EspClock.loop (TI:=atol_model) slow_clock [] [67; 1] [] esp_start 0).2 = 5%nat.
Proof. by vm_compute. Qed.

(** ** C7: reconfiguration and the active receiver *)

(** C7 does not hold of the code. [restartSoftSerial] asks which port is
    listening after it has stopped and started both receivers, not before,
    and calls [listen] on that port. So for every library in which [listen]
    makes its port the only listening one, after a successful change of
    rate exactly one port is listening (the arbiter is never left
    undefined), and it is the port that the stopping and starting left
    listening: whenever these move the listener, the port that was active
    before the change is not active after it. *)
Theorem restart_forgets_listener {S : Type} {SS : Esp.SoftwareSerial S}
    {LAWS : Esp.SoftwareSerialLaws S} (w : Esp.World S) (b : Z) :
  b <> 0 ->
  one_listener (Esp.soft (Esp.applySniffBaud b w)) /\
  Esp.active (Esp.applySniffBaud b w) =
    listening (receivers_restarted b (Esp.soft w)) /\
  (listening (receivers_restarted b (Esp.soft w)) <> Esp.active w ->
   Esp.active (Esp.applySniffBaud b w) <> Esp.active w).
Proof.
  intros Hb. destruct (applySniffBaud_listener b w Hb) as [H1 Ha].
  split; [done|]. split; [done|]. by rewrite Ha.
Qed.

Lemma restart_forgets_listener_witness :
  one_listener (Esp.soft (Esp.applySniffBaud 19200 start_world)) /\
  Esp.active (Esp.applySniffBaud 19200 start_world) =
    listening (receivers_restarted 19200 (Esp.soft start_world)) /\
  Esp.active (Esp.applySniffBaud 19200 start_world) <> Esp.active start_world.
Proof.
  destruct (restart_forgets_listener start_world 19200 ltac:(discriminate))
    as (H1 & Ha & Hn).
  split; [exact H1|]. split; [exact Ha|].
  apply Hn. discriminate.
Defined.

(** The command [B=19200] right after [setup()], with [SoftM] active. On
    receivers whose [begin] listens the display port is active afterwards;
    on receivers whose restart leaves the listener, the motor port still
    is. *)
Example restart_moves_listener :
  Esp.active start_world = Esp.SoftM /\
  Esp.active (Esp.handleCommandLine (TI:=atol_model) "B=19200" start_world)
    = Esp.SoftL /\
  Esp.sniffBaud (Esp.handleCommandLine (TI:=atol_model) "B=19200" start_world)
    = 19200 /\
  Esp.serial (Esp.handleCommandLine (TI:=atol_model) "B=19200" start_world)
    = Esp.serial start_world +:+ "OK Baud = 19200" +:+ CRLF /\
  Esp.active esp_start = Esp.SoftM /\
  Esp.active (Esp.handleCommandLine (TI:=atol_model) "B=19200" esp_start)
    = Esp.SoftM.
Proof. by vm_compute. Qed.

(** With such a restart between them, two consecutive switches select
    the same port. *)
Example switches_across_restart :
  switch_trace (TI:=atol_model)
    [quiet_cycle 51; quiet_cycle 102; baud_cycle 110; quiet_cycle 153]
    start_world
  = [Esp.SoftL; Esp.SoftM; Esp.SoftM].
Proof. by vm_compute. Qed.

Example restart_on_lcd :
  Esp.active esp_on_lcd = Esp.SoftL /\
  Esp.active (Esp.handleCommandLine (TI:=atol_model) "B=19200" esp_on_lcd)
    = Esp.SoftL /\
  Esp.rateL (Esp.soft (Esp.handleCommandLine (TI:=atol_model) "B=19200" esp_on_lcd))
    = Some 19200.
Proof. by vm_compute. Qed.

(** * Further properties of the sketches *)

(** ** Hex digits and the dump, read back *)

Lemma string_app_cons c (s t : string) : String c s +:+ t = String c (s +:+ t).
Proof. reflexivity. Qed.

Lemma hex_digit_val d :
  0 <= d < 16 ->
  hex_val (hex_digit d) = Some d /\ Ascii.is_space (hex_digit d) = false.
Proof.
  intros Hd. assert (Hin : d ∈ seqZ 0 16) by (apply elem_of_seqZ; lia).
  vm_compute in Hin.
  repeat (apply elem_of_cons in Hin as [->|Hin]; [by vm_compute|]).
  by apply elem_of_nil in Hin.
Qed.

Lemma parse_hex2_hex2 b : is_u8 b -> parse_hex2 (hex2 b) = Some b.
Proof.
  intros Hb. unfold is_u8 in Hb. unfold hex2, parse_hex2.
  assert (H1 : 0 <= b / 16 < 16).
  { split; [apply Z.div_pos; lia|apply Z.div_lt_upper_bound; lia]. }
  assert (H2 : 0 <= b mod 16 < 16) by (apply Z.mod_pos_bound; lia).
  destruct (hex_digit_val _ H1) as [-> _].
  destruct (hex_digit_val _ H2) as [-> _]. simpl.
  f_equal. rewrite (Z.div_mod b 16) at 3 by lia. done.
Qed.

(** X1. [printHex2] prints every byte as exactly two hex digits, and
    reading the two digits back gives the byte. *)
Theorem printHex2_round_trip b :
  is_u8 b ->
  String.length (printHex2 b) = 2%nat /\ parse_hex2 (printHex2 b) = Some b.
Proof.
  intros Hb. rewrite printHex2_hex2 by done.
  split; [done|]. by apply parse_hex2_hex2.
Qed.

Lemma printHex2_round_trip_witness :
  String.length (printHex2 175) = 2%nat /\ parse_hex2 (printHex2 175) = Some 175.
Proof. apply (printHex2_round_trip 175). unfold is_u8. lia. Defined.

Lemma words_go_none_space c s :
  Ascii.is_space c = true ->
  String.words_go None (String c s) = String.words_go None s.
Proof. intros Hc. simpl. by rewrite Hc. Qed.

Lemma words_two a c s :
  Ascii.is_space a = false -> Ascii.is_space c = false ->
  String.words_go None (String a (String c (String " " s))) =
  String a (String c "") :: String.words_go None s.
Proof. intros Ha Hc. simpl. by rewrite Ha, Hc. Qed.

Lemma words_cell k b rest :
  is_u8 b ->
  String.words_go None (dump_cell k b +:+ rest) =
  hex2 b :: String.words_go None rest.
Proof.
  intros Hb. unfold is_u8 in Hb. unfold dump_cell, hex2.
  assert (H1 : 0 <= b / 16 < 16).
  { split; [apply Z.div_pos; lia|apply Z.div_lt_upper_bound; lia]. }
  assert (H2 : 0 <= b mod 16 < 16) by (apply Z.mod_pos_bound; lia).
  destruct (hex_digit_val _ H1) as [_ Hs1].
  destruct (hex_digit_val _ H2) as [_ Hs2].
  destruct ((k + 1) mod 16 =? 0).
  - change (String.words_go None
              (String (hex_digit (b / 16)) (String (hex_digit (b mod 16))
                 (String " " (String "013" (String "010" rest))))) =
            String (hex_digit (b / 16)) (String (hex_digit (b mod 16)) "")
            :: String.words_go None rest).
    rewrite words_two by done. by rewrite !words_go_none_space.
  - change (String.words_go None
              (String (hex_digit (b / 16)) (String (hex_digit (b mod 16))
                 (String " " rest))) =
            String (hex_digit (b / 16)) (String (hex_digit (b mod 16)) "")
            :: String.words_go None rest).
    by rewrite words_two.
Qed.

Lemma words_dump bytes : forall i,
  Forall is_u8 bytes ->
  String.words
    (string_concat (imap (fun k b => dump_cell (Z.of_nat k + i) b) bytes)
     +:+ CRLF) = hex2 <$> bytes.
Proof.
  induction bytes as [|b bytes IH]; intros i Hb.
  - reflexivity.
  - inversion Hb as [|? ? Hb1 Hb2]; subst.
    rewrite dump_format_from, string_app_assoc. unfold String.words in *.
    rewrite words_cell by done. rewrite IH by done. done.
Qed.

Lemma parse_dump_format bytes :
  Forall is_u8 bytes -> parse_dump (dump_format bytes +:+ CRLF) = Some <$> bytes.
Proof.
  intros Hb. unfold parse_dump. rewrite dump_format_cells, words_dump by done.
  rewrite <- list_fmap_compose. apply Forall_fmap_ext_1.
  eapply Forall_impl; [exact Hb|]. intros b Hu. by apply parse_hex2_hex2.
Qed.

Lemma frame_format_header unit_word tag bytes ov :
  frame_format unit_word tag bytes ov =
  frame_header unit_word tag (Z.of_nat (length bytes)) ov +:+
  (dump_format bytes +:+ CRLF).
Proof.
  unfold frame_format, frame_header. by rewrite !string_app_assoc.
Qed.

(** X2. In both sketches the text of a printed frame is its header line
    followed by a dump that reads back, split at blanks and line breaks
    and taken as hex, to exactly the bytes of the frame, in order. *)
Theorem frame_dump_round_trip tag ch :
  chan_ok ch ->
  exists body,
    Mega.printBufferFrame tag ch =
      frame_header " bytes" tag (pos ch) (overflow ch) +:+ body /\
    (Esp.printFrame tag ch).2 =
      frame_header "" tag (pos ch) (overflow ch) +:+ body /\
    parse_dump body = Some <$> frame_bytes ch.
Proof.
  intros Hok. exists (dump_format (frame_bytes ch) +:+ CRLF).
  rewrite mega_printBufferFrame_format, esp_printFrame_format by done.
  rewrite !frame_format_header, (frame_bytes_length ch Hok).
  repeat split. apply parse_dump_format.
  apply Forall_take. by destruct Hok.
Qed.

Lemma frame_dump_round_trip_witness :
  exists body,
    Mega.printBufferFrame "M" (chan_of_bytes two_packets true 0) =
      frame_header " bytes" "M" (pos (chan_of_bytes two_packets true 0))
        (overflow (chan_of_bytes two_packets true 0)) +:+ body /\
    (Esp.printFrame "M" (chan_of_bytes two_packets true 0)).2 =
      frame_header "" "M" (pos (chan_of_bytes two_packets true 0))
        (overflow (chan_of_bytes two_packets true 0)) +:+ body /\
    parse_dump body = Some <$> frame_bytes (chan_of_bytes two_packets true 0).
Proof.
  apply (frame_dump_round_trip "M" (chan_of_bytes two_packets true 0)).
  apply chan_of_bytes_ok.
  - by apply (bool_decide_unpack _).
  - vm_compute. discriminate.
  - unfold is_u32. lia.
Defined.

(** ** The known-packet line *)

Lemma known_loop_cells ch p : forall (n : nat) (i : Z),
  chan_ok ch -> 0 <= p -> 0 <= i -> p + i + Z.of_nat n <= pos ch ->
  i + Z.of_nat n < 256 ->
  Mega.known_loop n ch p i =
  hex_cells (take n (drop (Z.to_nat (p + i)) (frame_bytes ch))).
Proof.
  induction n as [|n IH]; intros i Hok Hp Hi Hn H8; [done|].
  cbn [Mega.known_loop]. rewrite wrap8_small by lia.
  pose proof (buf_at_lookup ch (p + i) Hok ltac:(lia)) as Hl.
  rewrite (drop_S _ _ _ Hl). cbn [take]. unfold hex_cells. cbn [fmap list_fmap].
  cbn [string_concat foldr]. rewrite IH by (done || lia).
  rewrite printHex2_hex2 by (by apply buf_at_u8).
  rewrite string_app_assoc. unfold hex_cells, string_concat.
  replace (Z.to_nat (p + (i + 1))) with (S (Z.to_nat (p + i))) by lia. done.
Qed.

Lemma known_line_text name ch start len :
  chan_ok ch -> 2 <= len < 256 ->
  exists p,
    Mega.findPacket ch start len = Some p /\
    known_line name ch start len =
      Some (if 0 <=? p then
              "KNOWN " +:+ name +:+ " packet @" +:+ print_dec p +:+ ": " +:+
              hex_cells (window (frame_bytes ch) p len) +:+ CRLF
            else "") /\
    (0 <= p ->
     is_packet (frame_bytes ch) start len p /\
     Z.of_nat (length (window (frame_bytes ch) p len)) = len).
Proof.
  intros Hok Hl. unfold known_line.
  destruct (findPacket_spec ch start len Hok Hl) as (r & Hr & Hcases).
  exists r. rewrite Hr. split; [done|]. cbn [mbind option_bind].
  destruct Hcases as [[-> _]|(H0 & Hp & _)].
  - split; [done|]. lia.
  - pose proof Hp as (_ & Hin & _).
    rewrite (frame_bytes_length ch Hok) in Hin.
    destruct (Z.leb_spec 0 r); [|lia]. split.
    + rewrite (known_loop_cells ch r) by (done || lia).
      by rewrite Z.add_0_r.
    + intros _. split; [done|]. unfold window.
      rewrite length_take, length_drop.
      pose proof (frame_bytes_length ch Hok). lia.
Qed.

(** X3. The known-packet report of the dedicated-receiver sketch: under
    tag M (under tag L) it is empty when the scan for the motor (LCD)
    packet finds nothing, and otherwise the line [KNOWN Motor packet @p: ]
    ([KNOWN LCD packet @p: ]) followed by the 9 (7) bytes of the packet
    found, each as two hex digits and a space, and a line break; [p] is the
    scan result, and the bytes printed all lie inside the frame. Under a
    tag that starts with neither letter nothing is reported. *)
Theorem known_packet_report ch tag :
  chan_ok ch ->
  (exists p,
     Mega.findPacket ch Mega.START_MOTOR Mega.LEN_MOTOR = Some p /\
     Mega.printKnownPacketsIfAny "M" ch =
       Some (if 0 <=? p then
               "KNOWN Motor packet @" +:+ print_dec p +:+ ": " +:+
               hex_cells (window (frame_bytes ch) p Mega.LEN_MOTOR) +:+ CRLF
             else "") /\
     (0 <= p ->
      Z.of_nat (length (window (frame_bytes ch) p Mega.LEN_MOTOR))
        = Mega.LEN_MOTOR)) /\
  (exists p,
     Mega.findPacket ch Mega.START_LCD Mega.LEN_LCD = Some p /\
     Mega.printKnownPacketsIfAny "L" ch =
       Some (if 0 <=? p then
               "KNOWN LCD packet @" +:+ print_dec p +:+ ": " +:+
               hex_cells (window (frame_bytes ch) p Mega.LEN_LCD) +:+ CRLF
             else "") /\
     (0 <= p ->
      Z.of_nat (length (window (frame_bytes ch) p Mega.LEN_LCD))
        = Mega.LEN_LCD)) /\
  (tag0 tag <> "M"%char -> tag0 tag <> "L"%char ->
   Mega.printKnownPacketsIfAny tag ch = Some "").
Proof.
  intros Hok. split; [|split].
  - destruct (known_line_text "Motor" ch Mega.START_MOTOR Mega.LEN_MOTOR Hok)
      as (p & Hf & Hk & Hw); [unfold Mega.LEN_MOTOR; lia|].
    exists p. split; [done|]. split; [|by intros H; apply Hw].
    rewrite printKnown_lines. cbn [tag0 Ascii.eqb]. simpl Ascii.eqb.
    rewrite Hk. cbn. by rewrite string_app_nil_r.
  - destruct (known_line_text "LCD" ch Mega.START_LCD Mega.LEN_LCD Hok)
      as (p & Hf & Hk & Hw); [unfold Mega.LEN_LCD; lia|].
    exists p. split; [done|]. split; [|by intros H; apply Hw].
    rewrite printKnown_lines. simpl Ascii.eqb. cbn iota.
    rewrite Hk. done.
  - intros HM HL. unfold Mega.printKnownPacketsIfAny.
    destruct (Ascii.eqb_spec (tag0 tag) "M"); [done|].
    destruct (Ascii.eqb_spec (tag0 tag) "L"); [done|]. done.
Qed.

Lemma known_packet_report_witness :
  (exists p,
     Mega.findPacket (chan_of_bytes two_packets false 0)
       Mega.START_MOTOR Mega.LEN_MOTOR = Some p /\
     Mega.printKnownPacketsIfAny "M" (chan_of_bytes two_packets false 0) =
       Some (if 0 <=? p then
               "KNOWN Motor packet @" +:+ print_dec p +:+ ": " +:+
               hex_cells (window (frame_bytes (chan_of_bytes two_packets false 0))
                                 p Mega.LEN_MOTOR) +:+ CRLF
             else "") /\
     (0 <= p ->
      Z.of_nat (length (window (frame_bytes (chan_of_bytes two_packets false 0))
                               p Mega.LEN_MOTOR))
        = Mega.LEN_MOTOR)) /\
  (exists p,
     Mega.findPacket (chan_of_bytes two_packets false 0)
       Mega.START_LCD Mega.LEN_LCD = Some p /\
     Mega.printKnownPacketsIfAny "L" (chan_of_bytes two_packets false 0) =
       Some (if 0 <=? p then
               "KNOWN LCD packet @" +:+ print_dec p +:+ ": " +:+
               hex_cells (window (frame_bytes (chan_of_bytes two_packets false 0))
                                 p Mega.LEN_LCD) +:+ CRLF
             else "") /\
     (0 <= p ->
      Z.of_nat (length (window (frame_bytes (chan_of_bytes two_packets false 0))
                               p Mega.LEN_LCD))
        = Mega.LEN_LCD)) /\
  (tag0 "X" <> "M"%char -> tag0 "X" <> "L"%char ->
   Mega.printKnownPacketsIfAny "X" (chan_of_bytes two_packets false 0) = Some "").
Proof.
  apply (known_packet_report (chan_of_bytes two_packets false 0) "X").
  exact two_packets_ok.
Defined.

(** ** The 32-bit clock rolling over *)

(** X4. Elapsed time is measured modulo 2^32, so it is right across a
    roll-over of [millis()]: when the last byte came at time [l] and the
    check runs at time [t], less than 2^32 ms later, a non-empty channel is
    flushed exactly when [t - l] is at least [FRAME_GAP_MS], in both
    sketches, whatever the two clock readings are; and the shared-receiver
    sketch switches the listener exactly when more than [SWITCH_TIMEOUT_MS]
    have passed since the last switch. *)
Theorem elapsed_across_rollover {S : Type} {SS : Esp.SoftwareSerial S}
    ch tag l t (w : Esp.World S) inp :
  chan_ok ch -> pos ch <> 0 ->
  l <= t < l + 4294967296 ->
  lastByteMs ch = wrap32 l ->
  Esp.lastSwitchMs w = wrap32 l -> Esp.now_check inp = wrap32 t ->
  (t - l < FRAME_GAP_MS ->
   Mega.maybeFlushOnGap ch tag (wrap32 t) = Some (ch, "") /\
   Esp.checkFlush ch tag (wrap32 t) = (ch, "")) /\
  (FRAME_GAP_MS <= t - l ->
   (exists known,
      Mega.maybeFlushOnGap ch tag (wrap32 t) =
      Some (bufClear ch, Mega.printBufferFrame tag ch +:+ known)) /\
   Esp.checkFlush ch tag (wrap32 t) = Esp.printFrame tag ch) /\
  (t - l <= Esp.SWITCH_TIMEOUT_MS -> Esp.loop_switch inp w = w) /\
  (Esp.SWITCH_TIMEOUT_MS < t - l ->
   Esp.loop_switch inp w = Esp.switchListener (Esp.now_switch inp) w).
Proof.
  intros Hok Hp Ht Hl Hs Hn.
  assert (He : sub32 (wrap32 t) (lastByteMs ch) = t - l).
  { rewrite Hl. by apply sub32_wrap. }
  assert (He' : sub32 (Esp.now_check inp) (Esp.lastSwitchMs w) = t - l).
  { rewrite Hs, Hn. by apply sub32_wrap. }
  split; [|split; [|split]].
  - intros Hw. split.
    + apply mega_flush_wait. lia.
    + pose proof (esp_flush_wait tag ch (wrap32 t) ltac:(lia)) as H.
      unfold esp_flush in H. congruence.
  - intros Hg. split.
    + destruct (printKnown_total tag ch Hok) as [known Hk]. exists known.
      apply maybeFlushOnGap_fire; [done|lia|done].
    + unfold Esp.checkFlush. destruct (Z.eqb_spec (pos ch) 0); [done|].
      rewrite He. by destruct (Z.leb_spec FRAME_GAP_MS (t - l)); [|lia].
  - intros Hw. unfold Esp.loop_switch. rewrite He'.
    by destruct (Z.ltb_spec Esp.SWITCH_TIMEOUT_MS (t - l)); [lia|].
  - intros Hg. unfold Esp.loop_switch. rewrite He'.
    by destruct (Z.ltb_spec Esp.SWITCH_TIMEOUT_MS (t - l)); [|lia].
Qed.

Lemma elapsed_across_rollover_witness :
  (4294967336 - 4294967286 < FRAME_GAP_MS ->
   Mega.maybeFlushOnGap late_chan "M" (wrap32 4294967336) = Some (late_chan, "") /\
   Esp.checkFlush late_chan "M" (wrap32 4294967336) = (late_chan, "")) /\
  (FRAME_GAP_MS <= 4294967336 - 4294967286 ->
   (exists known,
      Mega.maybeFlushOnGap late_chan "M" (wrap32 4294967336) =
      Some (bufClear late_chan, Mega.printBufferFrame "M" late_chan +:+ known)) /\
   Esp.checkFlush late_chan "M" (wrap32 4294967336) =
     Esp.printFrame "M" late_chan) /\
  (4294967336 - 4294967286 <= Esp.SWITCH_TIMEOUT_MS ->
   Esp.loop_switch (quiet_cycle 40) esp_late = esp_late) /\
  (Esp.SWITCH_TIMEOUT_MS < 4294967336 - 4294967286 ->
   Esp.loop_switch (quiet_cycle 40) esp_late =
   Esp.switchListener (Esp.now_switch (quiet_cycle 40)) esp_late).
Proof.
  apply (elapsed_across_rollover late_chan "M" 4294967286 4294967336
           esp_late (quiet_cycle 40)).
  - apply chan_of_bytes_ok.
    + by apply (bool_decide_unpack _).
    + vm_compute. discriminate.
    + unfold is_u32. lia.
  - vm_compute. discriminate.
  - lia.
  - reflexivity.
  - reflexivity.
  - reflexivity.
Defined.

(** ** Command lines *)

Lemma ltrim_all_space s : all_space s = true -> ltrim s = "".
Proof.
  induction s as [|c s IH]; simpl; [done|].
  intros [Hc Hs]%andb_prop. rewrite Hc. by apply IH.
Qed.

Lemma trim_all_space s : all_space s = true -> trim s = "".
Proof. intros H. unfold trim. rewrite (ltrim_all_space s H). reflexivity. Qed.

(** X5. A command line of blanks only (or an empty one) is dropped by
    both sketches: no reply is printed and nothing changes. *)
Theorem blank_line_ignored {S : Type} {SS : Esp.SoftwareSerial S}
    {TI : StringToInt} line (wm : Mega.World) (we : Esp.World S) :
  all_space line = true ->
  Mega.handleCommandLine line wm = wm /\ Esp.handleCommandLine line we = we.
Proof.
  intros Hb. unfold Mega.handleCommandLine, Esp.handleCommandLine.
  by rewrite (trim_all_space line Hb).
Qed.

Lemma blank_line_ignored_witness :
  Mega.handleCommandLine (TI:=atol_model) "   " mega_pending = mega_pending /\
  Esp.handleCommandLine (TI:=atol_model) "   " esp_pending = esp_pending.
Proof. apply (blank_line_ignored (TI:=atol_model) "   "). reflexivity. Defined.

Lemma mega_handle_channels {TI : StringToInt} line w :
  Mega.chM (Mega.handleCommandLine line w) = Mega.chM w /\
  Mega.chL (Mega.handleCommandLine line w) = Mega.chL w /\
  Mega.cmdline (Mega.handleCommandLine line w) = Mega.cmdline w /\
  (startsWith (toUpperCase (trim line)) "B=" = false ->
   Mega.sniffBaud (Mega.handleCommandLine line w) = Mega.sniffBaud w /\
   Mega.uart2 (Mega.handleCommandLine line w) = Mega.uart2 w /\
   Mega.uart3 (Mega.handleCommandLine line w) = Mega.uart3 w) /\
  (startsWith (toUpperCase (trim line)) "D=" = false ->
   Mega.debugBytes (Mega.handleCommandLine line w) = Mega.debugBytes w).
Proof.
  unfold Mega.handleCommandLine.
  destruct (String.length (trim line) =? 0)%nat; [done|].
  destruct (startsWith _ "B=").
  - destruct (_ <=? 0); repeat split; done.
  - destruct (startsWith _ "D="); [|done].
    destruct (_ || _); [done|]. by destruct (_ || _).
Qed.

Lemma esp_applySniffBaud_cmdline {S : Type} {SS : Esp.SoftwareSerial S}
    b (w : Esp.World S) :
  Esp.cmdline (Esp.applySniffBaud b w) = Esp.cmdline w.
Proof.
  unfold Esp.applySniffBaud, Esp.restartSoftSerial.
  destruct (b =? 0); [done|]. cbn -[Esp.ss_isListening].
  by destruct (Esp.ss_isListening _ _).
Qed.

Lemma esp_handle_channels {S : Type} {SS : Esp.SoftwareSerial S}
    {TI : StringToInt} line (w : Esp.World S) :
  Esp.chM (Esp.handleCommandLine line w) = Esp.chM w /\
  Esp.chL (Esp.handleCommandLine line w) = Esp.chL w /\
  Esp.cmdline (Esp.handleCommandLine line w) = Esp.cmdline w /\
  Esp.lastSwitchMs (Esp.handleCommandLine line w) = Esp.lastSwitchMs w /\
  (startsWith (toUpperCase (trim line)) "B=" = false ->
   Esp.sniffBaud (Esp.handleCommandLine line w) = Esp.sniffBaud w /\
   Esp.soft (Esp.handleCommandLine line w) = Esp.soft w) /\
  (startsWith (toUpperCase (trim line)) "D=" = false ->
   Esp.debugBytes (Esp.handleCommandLine line w) = Esp.debugBytes w).
Proof.
  unfold Esp.handleCommandLine.
  destruct (String.length (trim line) =? 0)%nat; [done|].
  destruct (startsWith _ "B=").
  - destruct (esp_applySniffBaud_channels
                (wrap32 (toInt (trim (substring_from 2 (trim line))))) w)
      as (H1 & H2 & Hd & H3).
    split; [done|]. split; [done|]. split; [apply esp_applySniffBaud_cmdline|].
    split; [done|]. split; intros; [discriminate|done].
  - destruct (startsWith _ "D="); [|done].
    destruct (_ || _); [done|]. by destruct (_ || _).
Qed.

(** X6. No command line changes a channel: buffers, lengths, overflow
    flags and last-activity times are as before, in both sketches. The
    baud rate and the receivers change only under a line that starts with
    [B=], the debug flag only under a line that starts with [D=] (in
    either case of the letter, blanks around the line apart). *)
Theorem commands_leave_channels {S : Type} {SS : Esp.SoftwareSerial S}
    {TI : StringToInt} line (wm : Mega.World) (we : Esp.World S) :
  (Mega.chM (Mega.handleCommandLine line wm) = Mega.chM wm /\
   Mega.chL (Mega.handleCommandLine line wm) = Mega.chL wm /\
   Esp.chM (Esp.handleCommandLine line we) = Esp.chM we /\
   Esp.chL (Esp.handleCommandLine line we) = Esp.chL we) /\
  (startsWith (toUpperCase (trim line)) "B=" = false ->
   Mega.sniffBaud (Mega.handleCommandLine line wm) = Mega.sniffBaud wm /\
   Mega.uart2 (Mega.handleCommandLine line wm) = Mega.uart2 wm /\
   Mega.uart3 (Mega.handleCommandLine line wm) = Mega.uart3 wm /\
   Esp.sniffBaud (Esp.handleCommandLine line we) = Esp.sniffBaud we /\
   Esp.soft (Esp.handleCommandLine line we) = Esp.soft we) /\
  (startsWith (toUpperCase (trim line)) "D=" = false ->
   Mega.debugBytes (Mega.handleCommandLine line wm) = Mega.debugBytes wm /\
   Esp.debugBytes (Esp.handleCommandLine line we) = Esp.debugBytes we).
Proof.
  destruct (mega_handle_channels line wm) as (H1 & H2 & _ & H3 & H4).
  destruct (esp_handle_channels line we) as (H5 & H6 & _ & _ & H7 & H8).
  split; [done|]. split.
  - intros Hb. destruct (H3 Hb) as (? & ? & ?). by destruct (H7 Hb).
  - intros Hd. split; [by apply H4|by apply H8].
Qed.

Lemma commands_leave_channels_witness :
  (Mega.chM (Mega.handleCommandLine (TI:=atol_model) "d=on" mega_pending)
     = Mega.chM mega_pending /\
   Mega.chL (Mega.handleCommandLine (TI:=atol_model) "d=on" mega_pending)
     = Mega.chL mega_pending /\
   Esp.chM (Esp.handleCommandLine (TI:=atol_model) "d=on" esp_pending)
     = Esp.chM esp_pending /\
   Esp.chL (Esp.handleCommandLine (TI:=atol_model) "d=on" esp_pending)
     = Esp.chL esp_pending) /\
  (startsWith (toUpperCase (trim "d=on")) "B=" = false ->
   Mega.sniffBaud (Mega.handleCommandLine (TI:=atol_model) "d=on" mega_pending)
     = Mega.sniffBaud mega_pending /\
   Mega.uart2 (Mega.handleCommandLine (TI:=atol_model) "d=on" mega_pending)
     = Mega.uart2 mega_pending /\
   Mega.uart3 (Mega.handleCommandLine (TI:=atol_model) "d=on" mega_pending)
     = Mega.uart3 mega_pending /\
   Esp.sniffBaud (Esp.handleCommandLine (TI:=atol_model) "d=on" esp_pending)
     = Esp.sniffBaud esp_pending /\
   Esp.soft (Esp.handleCommandLine (TI:=atol_model) "d=on" esp_pending)
     = Esp.soft esp_pending) /\
  (startsWith (toUpperCase (trim "d=on")) "D=" = false ->
   Mega.debugBytes (Mega.handleCommandLine (TI:=atol_model) "d=on" mega_pending)
     = Mega.debugBytes mega_pending /\
   Esp.debugBytes (Esp.handleCommandLine (TI:=atol_model) "d=on" esp_pending)
     = Esp.debugBytes esp_pending).
Proof.
  exact (commands_leave_channels (TI:=atol_model) "d=on" mega_pending esp_pending).
Defined.

(** ** The command line buffer *)

Lemma str_take_all n s : (String.length s <= n)%nat -> str_take n s = s.
Proof.
  revert n. induction s as [|c s IH]; intros [|n] H; simpl in *; try done.
  - lia.
  - f_equal. apply IH. lia.
Qed.

Lemma str_take_app_exact s x : str_take (String.length s) (s +:+ x) = s.
Proof.
  induction s as [|c s IH]; [by destruct x|].
  rewrite string_app_cons. simpl. by rewrite IH.
Qed.

Lemma str_length_snoc s c : String.length (s +:+ String c "") = S (String.length s).
Proof.
  induction s as [|d s IH]; [done|]. rewrite string_app_cons. simpl. by rewrite IH.
Qed.

Lemma str_length_take n s : (String.length (str_take n s) <= n)%nat.
Proof.
  revert s. induction n as [|n IH]; intros [|c s]; simpl; try lia.
  specialize (IH s). lia.
Qed.

Lemma no_line_end_cons c rest :
  no_line_end (c :: rest) = true ->
  Ascii.eqb c "013" = false /\ Ascii.eqb c "010" = false /\
  no_line_end rest = true.
Proof.
  unfold no_line_end. simpl. intros [[H1 H2]%andb_prop H3]%andb_prop.
  apply negb_true_iff in H1, H2. done.
Qed.

Lemma mega_poll_app {TI : StringToInt} a b : forall w,
  Mega.pollPCCommands (a ++ b) w = Mega.pollPCCommands b (Mega.pollPCCommands a w).
Proof.
  induction a as [|c a IH]; intros w; simpl; [done|].
  destruct (Ascii.eqb c "013"); [apply IH|].
  destruct (Ascii.eqb c "010"); [apply IH|].
  destruct (String.length (Mega.cmdline w) <? 64)%nat; apply IH.
Qed.

Lemma esp_poll_app {S : Type} {SS : Esp.SoftwareSerial S} {TI : StringToInt}
    a b : forall w : Esp.World S,
  Esp.pollPCCommands (a ++ b) w = Esp.pollPCCommands b (Esp.pollPCCommands a w).
Proof.
  induction a as [|c a IH]; intros w; simpl; [done|].
  destruct (Ascii.eqb c "013"); [apply IH|].
  destruct (Ascii.eqb c "010"); [apply IH|].
  destruct (String.length (Esp.cmdline w) <? 64)%nat; apply IH.
Qed.

Lemma mega_poll_line {TI : StringToInt} chars : forall w,
  no_line_end chars = true -> (String.length (Mega.cmdline w) <= 64)%nat ->
  Mega.pollPCCommands chars w =
  Mega.set_cmdline
    (str_take 64 (Mega.cmdline w +:+ string_of_list_ascii chars)) w.
Proof.
  induction chars as [|c chars IH]; intros w Hn Hl.
  - cbn [Mega.pollPCCommands Esp.pollPCCommands string_of_list_ascii].
    rewrite string_app_nil_r, str_take_all by done. by destruct w.
  - destruct (no_line_end_cons _ _ Hn) as (H1 & H2 & Hn').
    cbn [Mega.pollPCCommands]. rewrite H1, H2.
    destruct (Nat.ltb_spec (String.length (Mega.cmdline w)) 64) as [Hlt|Hge].
    + rewrite IH; [|done|cbn [Mega.cmdline Esp.cmdline Mega.set_cmdline Esp.set_cmdline]; rewrite str_length_snoc; lia].
      cbn [Mega.cmdline Mega.set_cmdline string_of_list_ascii].
      rewrite string_app_assoc. reflexivity.
    + rewrite IH by done. f_equal.
      assert (He : String.length (Mega.cmdline w) = 64%nat) by lia.
      rewrite <- He. by rewrite !str_take_app_exact.
Qed.

Lemma esp_poll_line {S : Type} {SS : Esp.SoftwareSerial S} {TI : StringToInt}
    chars : forall w : Esp.World S,
  no_line_end chars = true -> (String.length (Esp.cmdline w) <= 64)%nat ->
  Esp.pollPCCommands chars w =
  Esp.set_cmdline
    (str_take 64 (Esp.cmdline w +:+ string_of_list_ascii chars)) w.
Proof.
  induction chars as [|c chars IH]; intros w Hn Hl.
  - cbn [Mega.pollPCCommands Esp.pollPCCommands string_of_list_ascii].
    rewrite string_app_nil_r, str_take_all by done. by destruct w.
  - destruct (no_line_end_cons _ _ Hn) as (H1 & H2 & Hn').
    cbn [Esp.pollPCCommands]. rewrite H1, H2.
    destruct (Nat.ltb_spec (String.length (Esp.cmdline w)) 64) as [Hlt|Hge].
    + rewrite IH; [|done|cbn [Mega.cmdline Esp.cmdline Mega.set_cmdline Esp.set_cmdline]; rewrite str_length_snoc; lia].
      cbn [Esp.cmdline Esp.set_cmdline string_of_list_ascii].
      rewrite string_app_assoc. reflexivity.
    + rewrite IH by done. f_equal.
      assert (He : String.length (Esp.cmdline w) = 64%nat) by lia.
      rewrite <- He. by rewrite !str_take_app_exact.
Qed.

Lemma mega_handle_set_cmdline {TI : StringToInt} line l w :
  Mega.handleCommandLine line (Mega.set_cmdline l w) =
  Mega.set_cmdline l (Mega.handleCommandLine line w).
Proof.
  unfold Mega.handleCommandLine.
  destruct (String.length (trim line) =? 0)%nat; [done|].
  destruct (startsWith _ "B="); [by destruct (_ <=? 0)|].
  destruct (startsWith _ "D="); [|done].
  destruct (_ || _); [done|]. by destruct (_ || _).
Qed.

Lemma esp_handle_set_cmdline {S : Type} {SS : Esp.SoftwareSerial S}
    {TI : StringToInt} line l (w : Esp.World S) :
  Esp.handleCommandLine line (Esp.set_cmdline l w) =
  Esp.set_cmdline l (Esp.handleCommandLine line w).
Proof.
  unfold Esp.handleCommandLine.
  destruct (String.length (trim line) =? 0)%nat; [done|].
  destruct (startsWith _ "B=").
  - unfold Esp.applySniffBaud. destruct (_ =? 0); [done|].
    unfold Esp.restartSoftSerial. cbn -[Esp.ss_isListening].
    by destruct (Esp.ss_isListening _ _).
  - destruct (startsWith _ "D="); [|done].
    destruct (_ || _); [done|]. by destruct (_ || _).
Qed.

(** X7. A command line is cut to its first 64 characters: from an empty
    line buffer, characters without line ends followed by a line feed are
    handled as the command made of the first 64 of them, and the line
    buffer is empty again afterwards. Both sketches. *)
Theorem long_line_truncated {S : Type} {SS : Esp.SoftwareSerial S}
    {TI : StringToInt} chars (wm : Mega.World) (we : Esp.World S) :
  no_line_end chars = true ->
  Mega.cmdline wm = "" -> Esp.cmdline we = "" ->
  Mega.pollPCCommands (chars ++ ["010"%char]) wm =
    Mega.set_cmdline ""
      (Mega.handleCommandLine (str_take 64 (string_of_list_ascii chars)) wm) /\
  Esp.pollPCCommands (chars ++ ["010"%char]) we =
    Esp.set_cmdline ""
      (Esp.handleCommandLine (str_take 64 (string_of_list_ascii chars)) we).
Proof.
  intros Hn Hm He. split.
  - rewrite mega_poll_app, (mega_poll_line chars wm Hn), Hm.
    + cbn [Mega.pollPCCommands]. change (Ascii.eqb "010" "013") with false.
      change (Ascii.eqb "010" "010") with true. cbn iota.
      cbn [Mega.cmdline Mega.set_cmdline]. by rewrite mega_handle_set_cmdline.
    + rewrite Hm. simpl. lia.
  - rewrite esp_poll_app, (esp_poll_line chars we Hn), He.
    + cbn [Esp.pollPCCommands]. change (Ascii.eqb "010" "013") with false.
      change (Ascii.eqb "010" "010") with true. cbn iota.
      cbn [Esp.cmdline Esp.set_cmdline]. by rewrite esp_handle_set_cmdline.
    + rewrite He. simpl. lia.
Qed.

Lemma long_line_truncated_witness :
  Mega.pollPCCommands (TI:=atol_model) (long_command ++ ["010"%char]) mega_pending =
    Mega.set_cmdline ""
      (Mega.handleCommandLine (TI:=atol_model)
         (str_take 64 (string_of_list_ascii long_command)) mega_pending) /\
  Esp.pollPCCommands (TI:=atol_model) (long_command ++ ["010"%char]) esp_pending =
    Esp.set_cmdline ""
      (Esp.handleCommandLine (TI:=atol_model)
         (str_take 64 (string_of_list_ascii long_command)) esp_pending).
Proof.
  apply (long_line_truncated (TI:=atol_model) long_command
           mega_pending esp_pending); reflexivity.
Defined.

Lemma mega_poll_cr {TI : StringToInt} input : forall w,
  Mega.pollPCCommands (filter (fun c => c <> "013"%char) input) w =
  Mega.pollPCCommands input w.
Proof.
  induction input as [|c input IH]; intros w; [done|].
  rewrite filter_cons. cbn [Mega.pollPCCommands].
  destruct (Ascii.eqb_spec c "013") as [->|Hc].
  - rewrite decide_False by (intros H; by apply H). apply IH.
  - rewrite decide_True by done. cbn [Mega.pollPCCommands].
    destruct (Ascii.eqb_spec c "013"); [done|].
    destruct (Ascii.eqb c "010"); [apply IH|].
    destruct (String.length (Mega.cmdline w) <? 64)%nat; apply IH.
Qed.

Lemma esp_poll_cr {S : Type} {SS : Esp.SoftwareSerial S} {TI : StringToInt}
    input : forall w : Esp.World S,
  Esp.pollPCCommands (filter (fun c => c <> "013"%char) input) w =
  Esp.pollPCCommands input w.
Proof.
  induction input as [|c input IH]; intros w; [done|].
  rewrite filter_cons. cbn [Esp.pollPCCommands].
  destruct (Ascii.eqb_spec c "013") as [->|Hc].
  - rewrite decide_False by (intros H; by apply H). apply IH.
  - rewrite decide_True by done. cbn [Esp.pollPCCommands].
    destruct (Ascii.eqb_spec c "013"); [done|].
    destruct (Ascii.eqb c "010"); [apply IH|].
    destruct (String.length (Esp.cmdline w) <? 64)%nat; apply IH.
Qed.

(** X8. Command input may arrive in any chunks: polling the characters
    [a ++ b] at once is polling [a] and then [b], so a command split over
    two cycles is handled as if it had arrived at once. Carriage returns
    are skipped: the input without them is handled the same. Both
    sketches. *)
Theorem command_input_chunks {S : Type} {SS : Esp.SoftwareSerial S}
    {TI : StringToInt} a b (wm : Mega.World) (we : Esp.World S) :
  Mega.pollPCCommands (a ++ b) wm =
    Mega.pollPCCommands b (Mega.pollPCCommands a wm) /\
  Esp.pollPCCommands (a ++ b) we =
    Esp.pollPCCommands b (Esp.pollPCCommands a we) /\
  Mega.pollPCCommands (filter (fun c => c <> "013"%char) a) wm =
    Mega.pollPCCommands a wm /\
  Esp.pollPCCommands (filter (fun c => c <> "013"%char) a) we =
    Esp.pollPCCommands a we.
Proof.
  split; [apply mega_poll_app|]. split; [apply esp_poll_app|].
  split; [apply mega_poll_cr|apply esp_poll_cr].
Qed.

(** ** Draining a receiver *)

Lemma mega_drain_closed rx c tag : forall w,
  Mega.drainChannel rx c tag w =
  Mega.print (if Mega.debugBytes w then debug_echo tag rx else "")
             (Mega.set_ch c (add_all (Mega.get_ch c w) rx) w).
Proof.
  induction rx as [|[b now] rx IH]; intros [cm cl sb d u2 u3 ln se].
  - destruct c, d; cbn;
      unfold debug_echo, Mega.print, Mega.set_ch, Mega.set_chM, Mega.set_chL;
      cbn; by rewrite string_app_nil_r.
  - cbn [Mega.drainChannel]. destruct c, d; cbn; rewrite IH;
      unfold debug_echo, Mega.println, Mega.print, Mega.set_ch, Mega.set_chM,
        Mega.set_chL; cbn; by rewrite ?string_app_assoc.
Qed.

Lemma esp_drain_closed {S : Type} rx p tag : forall w : Esp.World S,
  Esp.drain rx p tag w =
  Esp.print (if Esp.debugBytes w then debug_echo tag rx else "")
            (Esp.set_ch p (add_all (Esp.get_ch p w) rx) w).
Proof.
  induction rx as [|[b now] rx IH]; intros [cm cl sb d ls so ln se].
  - destruct p, d; cbn;
      unfold debug_echo, Esp.print, Esp.set_ch, Esp.set_chM, Esp.set_chL;
      cbn; by rewrite string_app_nil_r.
  - cbn [Esp.drain]. destruct p, d; cbn; rewrite IH;
      unfold debug_echo, Esp.println, Esp.print, Esp.set_ch, Esp.set_chM,
        Esp.set_chL; cbn; by rewrite ?string_app_assoc.
Qed.

(** X9. Draining a receiver adds its available bytes to its own channel,
    in order, one [bufAdd] each, and touches nothing else: the other
    channel, the rate, the flags and the line buffer stay as they are.
    The debug flag only adds text: with the flag set one line
    [TAG byte: XX] per byte is printed, without it nothing; the channel
    ends up the same either way. Both sketches. *)
Theorem drain_adds_all {S : Type} rx tag (wm : Mega.World) (we : Esp.World S)
    (c : Mega.Chan) (p : Esp.Port) :
  Mega.drainChannel rx c tag wm =
    Mega.print (if Mega.debugBytes wm then debug_echo tag rx else "")
               (Mega.set_ch c (add_all (Mega.get_ch c wm) rx) wm) /\
  Esp.drain rx p tag we =
    Esp.print (if Esp.debugBytes we then debug_echo tag rx else "")
              (Esp.set_ch p (add_all (Esp.get_ch p we) rx) we) /\
  Mega.get_ch c (Mega.drainChannel rx c tag wm) = add_all (Mega.get_ch c wm) rx /\
  Esp.get_ch p (Esp.drain rx p tag we) = add_all (Esp.get_ch p we) rx /\
  (forall c', c' <> c ->
     Mega.get_ch c' (Mega.drainChannel rx c tag wm) = Mega.get_ch c' wm) /\
  (forall p', p' <> p ->
     Esp.get_ch p' (Esp.drain rx p tag we) = Esp.get_ch p' we).
Proof.
  rewrite mega_drain_closed, esp_drain_closed.
  split; [done|]. split; [done|].
  split; [by destruct c|]. split; [by destruct p|].
  split.
  - intros c' Hc. by destruct c, c'.
  - intros p' Hp. by destruct p, p'.
Qed.

Example drain_with_debug :
  Mega.serial (Mega.drainChannel [(67, 5); (1, 6)] Mega.ChM "M"
                 (Mega.set_debugBytes true Mega.boot)) =
  "M byte: 43" +:+ CRLF +:+ "M byte: 01" +:+ CRLF.
Proof. by vm_compute. Qed.

(** ** Accumulating onto a channel *)

Lemma add_all_deliver rx : forall ch,
  rx_ok rx ->
  add_all ch rx = deliver ch ((fun bt => Arrive bt.1 bt.2) <$> rx) /\
  arrivals ((fun bt => Arrive bt.1 bt.2) <$> rx) = rx.*1.
Proof.
  induction rx as [|[b now] rx IH]; intros ch Hrx; [done|].
  inversion Hrx as [|? ? [_ Hu] Hrx']; subst. simpl in Hu.
  cbn [fmap list_fmap deliver arrivals add_all foldl fst snd].
  unfold is_u32 in Hu. rewrite wrap32_small by lia.
  destruct (IH (bufAdd ch b now) Hrx') as [IH1 IH2].
  split; [exact IH1|]. by rewrite IH2.
Qed.

Lemma rx_ok_bytes rx : rx_ok rx -> Forall is_u8 rx.*1.
Proof.
  induction 1 as [|[b now] rx [Hb _] _ IH]; constructor; done.
Qed.

Lemma add_all_props ch rx :
  chan_ok ch -> rx_ok rx ->
  chan_ok (add_all ch rx) /\
  frame_bytes (add_all ch rx) =
    take (Z.to_nat BUFLEN) (frame_bytes ch ++ rx.*1) /\
  overflow (add_all ch rx) =
    overflow ch || (BUFLEN <? pos ch + Z.of_nat (length rx)) /\
  (forall b now, last rx = Some (b, now) -> lastByteMs (add_all ch rx) = now).
Proof.
  intros Hok Hrx.
  destruct (add_all_deliver rx ch Hrx) as [Hd Ha].
  pose proof (rx_ok_bytes rx Hrx) as Hb.
  rewrite Hd. rewrite <- Ha in Hb.
  destruct (deliver_frame ch _ Hok Hb) as [Hf Ho].
  split; [by apply deliver_ok|]. split; [by rewrite Hf, Ha|].
  split; [by rewrite Ho, Ha, length_fmap|].
  intros b now Hl. rewrite <- Hd. clear -Hl.
  destruct rx as [|x rx _] using rev_ind; [done|].
  rewrite last_snoc in Hl. injection Hl as ->.
  unfold add_all. rewrite foldl_snoc. apply bufAdd_lastByteMs.
Qed.

(** X10. Any number of adds to a channel, empty or not, leaves the frame
    equal to the first [BUFLEN] bytes of what was there followed by the
    new bytes in arrival order; the overflow flag is set exactly when it
    was set before or the bytes no longer all fit; the last-activity time
    is the clock reading of the last add; and the channel stays
    well-formed. *)
Theorem add_all_frame ch rx :
  chan_ok ch -> rx_ok rx ->
  chan_ok (add_all ch rx) /\
  frame_bytes (add_all ch rx) =
    take (Z.to_nat BUFLEN) (frame_bytes ch ++ rx.*1) /\
  overflow (add_all ch rx) =
    overflow ch || (BUFLEN <? pos ch + Z.of_nat (length rx)) /\
  (forall b now, last rx = Some (b, now) -> lastByteMs (add_all ch rx) = now).
Proof. apply add_all_props. Qed.

Lemma two_more_ok : rx_ok [(2, 5); (3, 9)].
Proof. repeat constructor; simpl; lia. Defined.

Lemma add_all_frame_witness :
  chan_ok (add_all (chan_of_bytes [67; 1] true 0) [(2, 5); (3, 9)]) /\
  frame_bytes (add_all (chan_of_bytes [67; 1] true 0) [(2, 5); (3, 9)]) =
    take (Z.to_nat BUFLEN)
         (frame_bytes (chan_of_bytes [67; 1] true 0) ++ [(2, 5); (3, 9)].*1) /\
  overflow (add_all (chan_of_bytes [67; 1] true 0) [(2, 5); (3, 9)]) =
    overflow (chan_of_bytes [67; 1] true 0) ||
    (BUFLEN <? pos (chan_of_bytes [67; 1] true 0) +
               Z.of_nat (length [(2, 5); (3, 9)])) /\
  (forall b now, last [(2, 5); (3, 9)] = Some (b, now) ->
     lastByteMs (add_all (chan_of_bytes [67; 1] true 0) [(2, 5); (3, 9)]) = now).
Proof.
  apply (add_all_frame (chan_of_bytes [67; 1] true 0) [(2, 5); (3, 9)]).
  - exact pending_chan_ok.
  - exact two_more_ok.
Defined.

(** ** One cycle of the dedicated-receiver sketch *)

Lemma mega_handle_ok {TI : StringToInt} line w :
  mega_ok w -> mega_ok (Mega.handleCommandLine line w).
Proof.
  intros [H1 H2 H3 H4 H5]. unfold Mega.handleCommandLine.
  destruct (String.length (trim line) =? 0)%nat; [done|].
  destruct (startsWith _ "B=").
  - destruct (_ <=? 0); by split.
  - destruct (startsWith _ "D="); [|by split].
    destruct (_ || _); [by split|]. by destruct (_ || _); split.
Qed.

Lemma mega_poll_ok {TI : StringToInt} input : forall w,
  mega_ok w -> mega_ok (Mega.pollPCCommands input w).
Proof.
  induction input as [|c input IH]; intros w Hok; simpl; [done|].
  destruct (Ascii.eqb c "013"); [by apply IH|].
  destruct (Ascii.eqb c "010").
  - apply IH. destruct (mega_handle_ok (Mega.cmdline w) w Hok)
      as [H1 H2 H3 H4 H5].
    split; try done. simpl. lia.
  - destruct (Nat.ltb_spec (String.length (Mega.cmdline w)) 64); [|by apply IH].
    apply IH. destruct Hok as [H1 H2 H3 H4 H5]. split; try done.
    simpl. rewrite str_length_snoc. lia.
Qed.

Lemma mega_poll_channels {TI : StringToInt} input : forall w,
  Mega.chM (Mega.pollPCCommands input w) = Mega.chM w /\
  Mega.chL (Mega.pollPCCommands input w) = Mega.chL w.
Proof.
  induction input as [|c input IH]; intros w; simpl; [done|].
  destruct (Ascii.eqb c "013"); [by apply IH|].
  destruct (Ascii.eqb c "010").
  - destruct (IH (Mega.set_cmdline "" (Mega.handleCommandLine (Mega.cmdline w) w)))
      as [-> ->].
    by destruct (mega_handle_channels (Mega.cmdline w) w) as (? & ? & _).
  - destruct (String.length (Mega.cmdline w) <? 64)%nat; [|by apply IH].
    by destruct (IH (Mega.set_cmdline (Mega.cmdline w +:+ String c "") w))
      as [-> ->].
Qed.

Lemma mega_flush_total ch tag now :
  chan_ok ch ->
  exists ch' out,
    Mega.maybeFlushOnGap ch tag now = Some (ch', out) /\ chan_ok ch'.
Proof.
  intros Hok. unfold Mega.maybeFlushOnGap.
  destruct (pos ch =? 0); [by eexists _, _|].
  destruct (FRAME_GAP_MS <=? _); [|by eexists _, _].
  destruct (printKnown_total tag ch Hok) as [known ->]. simpl.
  eexists _, _. split; [done|]. by apply bufClear_ok.
Qed.

(** The whole of one pass of [loop()], step by step. *)
Lemma mega_loop_steps {TI : StringToInt} inp w :
  mega_ok w -> mega_cycle_ok inp ->
  exists w' outM outL,
    Mega.loop inp w = Some w' /\ mega_ok w' /\
    Mega.maybeFlushOnGap (add_all (Mega.chM w) (Mega.in_rx2 inp)) "M"
                         (Mega.now_flushM inp) = Some (Mega.chM w', outM) /\
    Mega.maybeFlushOnGap (add_all (Mega.chL w) (Mega.in_rx3 inp)) "L"
                         (Mega.now_flushL inp) = Some (Mega.chL w', outL) /\
    Mega.serial w' =
      Mega.serial (Mega.pollPCCommands (Mega.in_pc inp) w) +:+
      (if Mega.debugBytes (Mega.pollPCCommands (Mega.in_pc inp) w)
       then debug_echo "M" (Mega.in_rx2 inp) else "") +:+
      (if Mega.debugBytes (Mega.pollPCCommands (Mega.in_pc inp) w)
       then debug_echo "L" (Mega.in_rx3 inp) else "") +:+
      outM +:+ outL /\
    Mega.sniffBaud w' = Mega.sniffBaud (Mega.pollPCCommands (Mega.in_pc inp) w) /\
    Mega.debugBytes w' = Mega.debugBytes (Mega.pollPCCommands (Mega.in_pc inp) w) /\
    Mega.cmdline w' = Mega.cmdline (Mega.pollPCCommands (Mega.in_pc inp) w).
Proof.
  intros Hok [Hr2 Hr3 HnM HnL].
  pose proof (mega_poll_ok (Mega.in_pc inp) w Hok) as Hp.
  destruct (mega_poll_channels (Mega.in_pc inp) w) as [HcM HcL].
  unfold Mega.loop. rewrite !mega_drain_closed.
  destruct (Mega.pollPCCommands (Mega.in_pc inp) w)
    as [cm cl sb d u2 u3 ln se] eqn:Hw.
  destruct Hp as [P1 P2 P3 P4 P5]. cbn in P1, P2, P3, P4, P5, HcM, HcL.
  subst cm cl.
  destruct (add_all_props _ _ (mok_chM _ Hok) Hr2) as (HaM & _).
  destruct (add_all_props _ _ (mok_chL _ Hok) Hr3) as (HaL & _).
  destruct (mega_flush_total _ "M" (Mega.now_flushM inp) HaM)
    as (chM' & outM & HfM & HokM).
  destruct (mega_flush_total _ "L" (Mega.now_flushL inp) HaL)
    as (chL' & outL & HfL & HokL).
  unfold Mega.flushChannel. cbn. rewrite HfM. cbn. rewrite HfL. cbn.
  eexists _, outM, outL. split; [reflexivity|]. cbn.
  split; [by split|]. split; [done|]. split; [done|].
  split; [by rewrite !string_app_assoc|]. done.
Qed.

Lemma chan_init_ok : chan_ok chan_init.
Proof.
  split; simpl.
  - reflexivity.
  - by apply (bool_decide_unpack _).
  - unfold BUFLEN. lia.
  - unfold is_u32. lia.
Defined.

Lemma mega_setup_ok : mega_ok (Mega.setup Mega.boot).
Proof.
  split; cbn; try done.
  - apply bufClear_ok, chan_init_ok.
  - apply bufClear_ok, chan_init_ok.
  - lia.
Defined.

Lemma busy_cycle_ok : mega_cycle_ok busy_cycle.
Proof.
  split; cbn.
  - repeat constructor; simpl; lia.
  - repeat constructor; simpl; lia.
  - unfold is_u32. lia.
  - unfold is_u32. lia.
Defined.

(** X11. The dedicated-receiver sketch keeps its state well-formed:
    [setup()] leaves both channels well-formed (length within [BUFLEN]),
    the line buffer within 64 characters and both receivers running at
    the sniff rate, and from such a state every pass of [loop()], whatever
    commands and bytes it receives, completes and leaves such a state. *)
Theorem mega_loop_invariant {TI : StringToInt} inp w :
  mega_ok w -> mega_cycle_ok inp ->
  mega_ok (Mega.setup Mega.boot) /\
  exists w', Mega.loop inp w = Some w' /\ mega_ok w'.
Proof.
  intros Hok Hc. split; [exact mega_setup_ok|].
  destruct (mega_loop_steps inp w Hok Hc) as (w' & _ & _ & Hl & Hok' & _).
  by exists w'.
Qed.

Lemma mega_loop_invariant_witness :
  mega_ok (Mega.setup Mega.boot) /\
  exists w', Mega.loop (TI:=atol_model) busy_cycle (Mega.setup Mega.boot)
             = Some w' /\ mega_ok w'.
Proof.
  apply (mega_loop_invariant (TI:=atol_model) busy_cycle (Mega.setup Mega.boot)).
  - exact mega_setup_ok.
  - exact busy_cycle_ok.
Defined.

(** X12. In one pass of [loop()] of the dedicated-receiver sketch the two
    channels do not interfere, with each other or with the commands: each
    channel afterwards is its own state before, its own bytes added, and
    its own gap-flush check applied. The text printed is, in this order,
    the replies to the commands, the debug echo of the motor bytes, that
    of the display bytes, the motor frame and the display frame. *)
Theorem mega_loop_channels {TI : StringToInt} inp w :
  mega_ok w -> mega_cycle_ok inp ->
  exists w' outM outL,
    Mega.loop inp w = Some w' /\
    Mega.maybeFlushOnGap (add_all (Mega.chM w) (Mega.in_rx2 inp)) "M"
                         (Mega.now_flushM inp) = Some (Mega.chM w', outM) /\
    Mega.maybeFlushOnGap (add_all (Mega.chL w) (Mega.in_rx3 inp)) "L"
                         (Mega.now_flushL inp) = Some (Mega.chL w', outL) /\
    Mega.serial w' =
      Mega.serial (Mega.pollPCCommands (Mega.in_pc inp) w) +:+
      (if Mega.debugBytes (Mega.pollPCCommands (Mega.in_pc inp) w)
       then debug_echo "M" (Mega.in_rx2 inp) else "") +:+
      (if Mega.debugBytes (Mega.pollPCCommands (Mega.in_pc inp) w)
       then debug_echo "L" (Mega.in_rx3 inp) else "") +:+
      outM +:+ outL.
Proof.
  intros Hok Hc.
  destruct (mega_loop_steps inp w Hok Hc)
    as (w' & outM & outL & Hl & _ & HM & HL & Hs & _).
  by exists w', outM, outL.
Qed.

Lemma mega_loop_channels_witness :
  exists w' outM outL,
    Mega.loop (TI:=atol_model) busy_cycle (Mega.setup Mega.boot) = Some w' /\
    Mega.maybeFlushOnGap
      (add_all (Mega.chM (Mega.setup Mega.boot)) (Mega.in_rx2 busy_cycle)) "M"
      (Mega.now_flushM busy_cycle) = Some (Mega.chM w', outM) /\
    Mega.maybeFlushOnGap
      (add_all (Mega.chL (Mega.setup Mega.boot)) (Mega.in_rx3 busy_cycle)) "L"
      (Mega.now_flushL busy_cycle) = Some (Mega.chL w', outL) /\
    Mega.serial w' =
      Mega.serial (Mega.pollPCCommands (TI:=atol_model)
                     (Mega.in_pc busy_cycle) (Mega.setup Mega.boot)) +:+
      (if Mega.debugBytes (Mega.pollPCCommands (TI:=atol_model)
                             (Mega.in_pc busy_cycle) (Mega.setup Mega.boot))
       then debug_echo "M" (Mega.in_rx2 busy_cycle) else "") +:+
      (if Mega.debugBytes (Mega.pollPCCommands (TI:=atol_model)
                             (Mega.in_pc busy_cycle) (Mega.setup Mega.boot))
       then debug_echo "L" (Mega.in_rx3 busy_cycle) else "") +:+
      outM +:+ outL.
Proof.
  apply (mega_loop_channels (TI:=atol_model) busy_cycle (Mega.setup Mega.boot)).
  - exact mega_setup_ok.
  - exact busy_cycle_ok.
Defined.

Example busy_cycle_output :
  Mega.serial <$> Mega.loop (TI:=atol_model) busy_cycle (Mega.print "" Mega.boot) =
  Some ("OK Debug bytes = true" +:+ CRLF +:+
        "M byte: 43" +:+ CRLF +:+ "M byte: 01" +:+ CRLF +:+
        "L byte: 59" +:+ CRLF +:+
        "M frame (2 bytes):" +:+ CRLF +:+ "43 01 " +:+ CRLF +:+
        "L frame (1 bytes):" +:+ CRLF +:+ "59 " +:+ CRLF).
Proof. by vm_compute. Qed.

(** ** One cycle of the shared-receiver sketch *)

Section EspCycle.
Context {S : Type} {SS : Esp.SoftwareSerial S} {TI : StringToInt}.
Implicit Types (w : Esp.World S).

Lemma esp_handle_ok line w : esp_ok w -> esp_ok (Esp.handleCommandLine line w).
Proof.
  intros [H1 H2 H3].
  destruct (esp_handle_channels line w) as (HM & HL & Hc & _).
  split; by rewrite ?HM, ?HL, ?Hc.
Qed.

Lemma esp_poll_ok input : forall w,
  esp_ok w -> esp_ok (Esp.pollPCCommands input w).
Proof.
  induction input as [|c input IH]; intros w Hok; simpl; [done|].
  destruct (Ascii.eqb c "013"); [by apply IH|].
  destruct (Ascii.eqb c "010").
  - apply IH. destruct (esp_handle_ok (Esp.cmdline w) w Hok) as [H1 H2 H3].
    split; try done. simpl. lia.
  - destruct (Nat.ltb_spec (String.length (Esp.cmdline w)) 64); [|by apply IH].
    apply IH. destruct Hok as [H1 H2 H3]. split; try done.
    simpl. rewrite str_length_snoc. lia.
Qed.

Lemma esp_poll_channels input : forall w,
  Esp.chM (Esp.pollPCCommands input w) = Esp.chM w /\
  Esp.chL (Esp.pollPCCommands input w) = Esp.chL w.
Proof.
  induction input as [|c input IH]; intros w; simpl; [done|].
  destruct (Ascii.eqb c "013"); [by apply IH|].
  destruct (Ascii.eqb c "010").
  - destruct (IH (Esp.set_cmdline "" (Esp.handleCommandLine (Esp.cmdline w) w)))
      as [-> ->].
    by destruct (esp_handle_channels (Esp.cmdline w) w) as (? & ? & _).
  - destruct (String.length (Esp.cmdline w) <? 64)%nat; [|by apply IH].
    by destruct (IH (Esp.set_cmdline (Esp.cmdline w +:+ String c "") w))
      as [-> ->].
Qed.

Lemma esp_flushChannel_spec p tag now w :
  Esp.get_ch p (Esp.flushChannel p tag now w) =
    (Esp.checkFlush (Esp.get_ch p w) tag now).1 /\
  (forall q, q <> p ->
     Esp.get_ch q (Esp.flushChannel p tag now w) = Esp.get_ch q w) /\
  Esp.serial (Esp.flushChannel p tag now w) =
    Esp.serial w +:+ (Esp.checkFlush (Esp.get_ch p w) tag now).2 /\
  Esp.cmdline (Esp.flushChannel p tag now w) = Esp.cmdline w /\
  Esp.soft (Esp.flushChannel p tag now w) = Esp.soft w.
Proof.
  unfold Esp.flushChannel.
  destruct (Esp.checkFlush (Esp.get_ch p w) tag now) as [ch out].
  split; [by destruct p|]. split; [|by destruct p].
  intros q Hq. by destruct p, q.
Qed.

(** The channels after the flush steps of a cycle, by the port that was
    listening when the cycle drained. *)
Lemma esp_loop_flush_channels inp w :
  let wp := Esp.pollPCCommands (Esp.in_pc inp) w in
  let rxM := if Esp.ss_isListening Esp.SoftM (Esp.soft wp)
             then Esp.in_rxM inp else [] in
  let rxL := if Esp.ss_isListening Esp.SoftM (Esp.soft wp)
             then [] else Esp.in_rxL inp in
  Esp.chM (Esp.loop_flush inp w) =
    (Esp.checkFlush (add_all (Esp.chM w) rxM) "M" (Esp.now_flushM inp)).1 /\
  Esp.chL (Esp.loop_flush inp w) =
    (Esp.checkFlush (add_all (Esp.chL w) rxL) "L" (Esp.now_flushL inp)).1 /\
  Esp.cmdline (Esp.loop_flush inp w) = Esp.cmdline wp.
Proof.
  intros wp rxM rxL. unfold Esp.loop_flush. fold wp.
  destruct (esp_poll_channels (Esp.in_pc inp) w) as [HM HL]. fold wp in HM, HL.
  set (wd := if Esp.ss_isListening Esp.SoftM (Esp.soft wp)
             then Esp.drain (Esp.in_rxM inp) Esp.SoftM "M" wp
             else Esp.drain (Esp.in_rxL inp) Esp.SoftL "L" wp).
  assert (Hd : Esp.chM wd = add_all (Esp.chM w) rxM /\
               Esp.chL wd = add_all (Esp.chL w) rxL /\
               Esp.cmdline wd = Esp.cmdline wp).
  { unfold wd, rxM, rxL.
    destruct (Esp.ss_isListening Esp.SoftM (Esp.soft wp));
      rewrite esp_drain_closed; cbn; by rewrite ?HM, ?HL. }
  destruct Hd as (HdM & HdL & Hdc).
  destruct (esp_flushChannel_spec Esp.SoftM "M" (Esp.now_flushM inp) wd)
    as (F1 & F2 & _ & F3 & _).
  destruct (esp_flushChannel_spec Esp.SoftL "L" (Esp.now_flushL inp)
              (Esp.flushChannel Esp.SoftM "M" (Esp.now_flushM inp) wd))
    as (G1 & G2 & _ & G3 & _).
  pose proof (G2 Esp.SoftM ltac:(done)) as G2M.
  pose proof (F2 Esp.SoftL ltac:(done)) as F2L.
  cbn [Esp.get_ch] in F1, F2L, G1, G2M.
  split; [|split].
  - by rewrite G2M, F1, HdM.
  - by rewrite G1, F2L, HdL.
  - by rewrite G3, F3.
Qed.

Lemma esp_loop_switch_fields inp w :
  Esp.chM (Esp.loop_switch inp w) = Esp.chM w /\
  Esp.chL (Esp.loop_switch inp w) = Esp.chL w /\
  Esp.cmdline (Esp.loop_switch inp w) = Esp.cmdline w /\
  Esp.serial (Esp.loop_switch inp w) = Esp.serial w.
Proof.
  unfold Esp.loop_switch, Esp.switchListener.
  destruct (_ <? _); [|done]. by destruct (Esp.ss_isListening _ _).
Qed.

Lemma esp_loop_ok inp w :
  esp_ok w -> esp_cycle_ok inp -> esp_ok (Esp.loop inp w).
Proof.
  intros Hok [HrM HrL]. pose proof (esp_poll_ok (Esp.in_pc inp) w Hok) as Hp.
  destruct (esp_loop_flush_channels inp w) as (HM & HL & Hc).
  destruct (esp_loop_switch_fields inp (Esp.loop_flush inp w))
    as (SM & SL & Sc & _).
  unfold Esp.loop. split.
  - rewrite SM, HM. apply checkFlush_ok, add_all_props; [by destruct Hok|].
    destruct (Esp.ss_isListening _ _); [done|constructor].
  - rewrite SL, HL. apply checkFlush_ok, add_all_props; [by destruct Hok|].
    destruct (Esp.ss_isListening _ _); [constructor|done].
  - rewrite Sc, Hc. by destruct Hp.
Qed.

Lemma esp_setup_ok now s0 : esp_ok (Esp.setup now (Esp.boot s0)).
Proof.
  split; cbn.
  - apply bufClear_ok, chan_init_ok.
  - apply bufClear_ok, chan_init_ok.
  - lia.
Qed.
End EspCycle.

(** X13. The shared-receiver sketch keeps its state well-formed:
    [setup()] leaves both channels well-formed (length within [BUFLEN])
    and the line buffer within 64 characters, and every pass of [loop()]
    from such a state leaves such a state, whatever the receivers do. *)
Theorem esp_loop_invariant {S : Type} {SS : Esp.SoftwareSerial S}
    {TI : StringToInt} inp (w : Esp.World S) now s0 :
  esp_ok w -> esp_cycle_ok inp ->
  esp_ok (Esp.setup now (Esp.boot s0)) /\ esp_ok (Esp.loop inp w).
Proof.
  intros Hok Hc. split; [apply esp_setup_ok|by apply esp_loop_ok].
Qed.

Lemma esp_loop_invariant_witness :
  esp_ok (Esp.setup 0 (Esp.boot (Esp.mkPair Esp.SoftL None None))) /\
  esp_ok (Esp.loop (TI:=atol_model)
            (with_rxM [(67, 5); (1, 6)] (quiet_cycle 51)) esp_start).
Proof.
  apply (esp_loop_invariant (TI:=atol_model)
           (with_rxM [(67, 5); (1, 6)] (quiet_cycle 51)) esp_start 0
           (Esp.mkPair Esp.SoftL None None)).
  - apply esp_setup_ok.
  - split; cbn.
    + repeat constructor; simpl; lia.
    + constructor.
Defined.

(** ** The port that is not listening *)

Section Inactive.
Context {S : Type} {SS : Esp.SoftwareSerial S} {TI : StringToInt}.
Implicit Types (w : Esp.World S).

Lemma active_listening w :
  (Esp.active w = Esp.SoftM <-> Esp.ss_isListening Esp.SoftM (Esp.soft w) = true) /\
  (Esp.active w = Esp.SoftL <-> Esp.ss_isListening Esp.SoftM (Esp.soft w) = false).
Proof.
  unfold Esp.active. by destruct (Esp.ss_isListening _ _).
Qed.


Lemma active_port_props inp w :
  (Esp.active (Esp.pollPCCommands (Esp.in_pc inp) w) = Esp.SoftM ->
   Esp.chM (Esp.loop inp w) =
     (Esp.checkFlush (add_all (Esp.chM w) (Esp.in_rxM inp)) "M"
                     (Esp.now_flushM inp)).1) /\
  (Esp.active (Esp.pollPCCommands (Esp.in_pc inp) w) = Esp.SoftL ->
   Esp.chL (Esp.loop inp w) =
     (Esp.checkFlush (add_all (Esp.chL w) (Esp.in_rxL inp)) "L"
                     (Esp.now_flushL inp)).1).
Proof.
  pose proof (esp_loop_flush_channels inp w) as (HM & HL & _).
  destruct (esp_loop_switch_fields inp (Esp.loop_flush inp w))
    as (SM & SL & _).
  destruct (active_listening (Esp.pollPCCommands (Esp.in_pc inp) w))
    as [AM AL].
  split; intros Ha.
  - apply AM in Ha. unfold Esp.loop. by rewrite SM, HM, Ha.
  - apply AL in Ha. unfold Esp.loop. by rewrite SL, HL, Ha.
Qed.
End Inactive.



Example pending_frame_flushed_while_inactive :
  Esp.active esp_on_lcd = Esp.SoftL /\
  Esp.chM (Esp.loop (TI:=atol_model) (quiet_cycle 70) esp_on_lcd)
    = bufClear (Esp.chM esp_on_lcd) /\
  Esp.serial (Esp.loop (TI:=atol_model) (quiet_cycle 70) esp_on_lcd) =
    Esp.serial esp_on_lcd +:+
    "M frame (2, OVERFLOW):" +:+ CRLF +:+ "43 01 " +:+ CRLF.
Proof. by vm_compute. Qed.

(** X15. In the shared-receiver sketch no command input touches the time
    of the last switch, whatever characters are polled and whatever the
    lines among them say; input without a line feed leaves the receivers
    as they are; and for every library in which [listen] makes its port
    the only listening one, exactly one port is listening after the input
    if one was before, a change of rate included: the restart ends in a
    [listen]. *)
Theorem commands_keep_arbiter {S : Type} {SS : Esp.SoftwareSerial S}
    {TI : StringToInt} {LAWS : Esp.SoftwareSerialLaws S}
    input (w : Esp.World S) :
  one_listener (Esp.soft w) ->
  Esp.lastSwitchMs (Esp.pollPCCommands input w) = Esp.lastSwitchMs w /\
  one_listener (Esp.soft (Esp.pollPCCommands input w)) /\
  ("010"%char ∉ input ->
   Esp.soft (Esp.pollPCCommands input w) = Esp.soft w).
Proof.
  intros H1. split; [apply pollPCCommands_lastSwitch|].
  split; [by apply pollPCCommands_one|]. apply pollPCCommands_no_line.
Qed.

Lemma commands_keep_arbiter_witness :
  Esp.lastSwitchMs (Esp.pollPCCommands (TI:=atol_model)
                      (long_command ++ ["010"%char]) start_world)
    = Esp.lastSwitchMs start_world /\
  one_listener (Esp.soft (Esp.pollPCCommands (TI:=atol_model)
                            (long_command ++ ["010"%char]) start_world)).
Proof.
  destruct (commands_keep_arbiter (TI:=atol_model)
              (long_command ++ ["010"%char]) start_world)
    as (Ht & H1 & _); [reflexivity|].
  split; [exact Ht|exact H1].
Defined.

(** ** Old bytes behind a cleared channel *)

(** X16. [bufClear] does not erase the buffer, yet no byte of an earlier
    frame shows up in a later one: after a clear and any number of adds
    the frame is exactly the first [BUFLEN] of the new bytes, in order,
    and the overflow flag is set exactly when there were more than
    [BUFLEN] of them. *)
Theorem no_stale_bytes ch rx :
  chan_ok ch -> rx_ok rx ->
  frame_bytes (add_all (bufClear ch) rx) = take (Z.to_nat BUFLEN) rx.*1 /\
  overflow (add_all (bufClear ch) rx) = (BUFLEN <? Z.of_nat (length rx)).
Proof.
  intros Hok Hrx.
  destruct (add_all_props (bufClear ch) rx (bufClear_ok ch Hok) Hrx)
    as (_ & Hf & Ho & _).
  by rewrite Hf, Ho.
Qed.

Lemma no_stale_bytes_witness :
  frame_bytes (add_all (bufClear full_chan) [(2, 5); (3, 9)]) =
    take (Z.to_nat BUFLEN) [(2, 5); (3, 9)].*1 /\
  overflow (add_all (bufClear full_chan) [(2, 5); (3, 9)]) =
    (BUFLEN <? Z.of_nat (length [(2, 5); (3, 9)])).
Proof.
  apply (no_stale_bytes full_chan [(2, 5); (3, 9)]).
  - exact bounded_buffer_witness_ok.
  - exact two_more_ok.
Defined.

(** ** The port that is listening *)

(** X17. In the shared-receiver sketch the channel of the port that is
    listening when the cycle drains, that is once the commands of the cycle
    are handled, is, after a pass of [loop()], its state before with the
    bytes waiting on that port added in order and its gap-flush check
    applied. This holds of every SoftwareSerial library. *)
Theorem active_port_drained {S : Type} {SS : Esp.SoftwareSerial S}
    {TI : StringToInt} inp (w : Esp.World S) :
  (Esp.active (Esp.pollPCCommands (Esp.in_pc inp) w) = Esp.SoftM ->
   Esp.chM (Esp.loop inp w) =
     (Esp.checkFlush (add_all (Esp.chM w) (Esp.in_rxM inp)) "M"
                     (Esp.now_flushM inp)).1) /\
  (Esp.active (Esp.pollPCCommands (Esp.in_pc inp) w) = Esp.SoftL ->
   Esp.chL (Esp.loop inp w) =
     (Esp.checkFlush (add_all (Esp.chL w) (Esp.in_rxL inp)) "L"
                     (Esp.now_flushL inp)).1).
Proof. apply active_port_props. Qed.

Lemma active_port_drained_witness :
  Esp.chL (Esp.loop (TI:=atol_model)
             (with_rxL [(2, 61); (3, 62)] (baud_cycle 70)) start_world) =
    (Esp.checkFlush
       (add_all (Esp.chL start_world)
          (Esp.in_rxL (with_rxL [(2, 61); (3, 62)] (baud_cycle 70))))
       "L" (Esp.now_flushL (with_rxL [(2, 61); (3, 62)] (baud_cycle 70)))).1.
Proof.
  destruct (active_port_drained (TI:=atol_model)
              (with_rxL [(2, 61); (3, 62)] (baud_cycle 70)) start_world)
    as [_ HL].
  apply HL. reflexivity.
Defined.
